(** * QuickBooks MCP server: the OAuth 2.1 authorization bridge

    A shallow embedding of [src/auth/oauth-server.ts] (the stateless
    encrypted-token variant and the earlier in-memory variant) together with
    the Node primitives it calls: [Buffer] base64url coding,
    [crypto.createHash("sha256")], [crypto.createCipheriv("aes-256-gcm")] and
    [JSON.stringify]/[JSON.parse] on token payloads.  Around it: the token
    endpoint of the transparent-proxy variant, the authentication middleware
    of [src/index.ts] in its two revisions, and [buildSearchCriteria] of
    [src/tools/register-tools.ts].

    Conventions.
    - A [Buffer] is a [list ascii]; a JavaScript string is a [string], read as
      the UTF-8 bytes of a well-formed string.
    - [Date.now()] is a [Z] (milliseconds) handed to each handler.
    - [crypto.randomBytes] and [uuidv4] results are handed to the handler that
      draws them.  Where a statement depends on a draw being new, that it
      differs from the value it is compared with is a hypothesis.
    - The outcome of an awaited upstream call is handed to the handler that
      awaits it. *)

From Stdlib Require Import ZArith NArith Lia Bool List Ascii String.
From Stdlib Require Import DecimalN DecimalPos DecimalFacts.
From stdpp Require Import base option list strings gmap.

Local Open Scope string_scope.
Local Open Scope list_scope.

(** ** Buffers *)

Definition Buffer := list ascii.

Definition bits6 : Type := (bool * bool * bool * bool * bool * bool)%type.

(** ** [Buffer.toString("base64url")] and [Buffer.from(s, "base64url")] *)

Module Base64url.

Definition alphabet : list ascii :=
  list_ascii_of_string
    "ABCDEFGHIJKLMNOPQRSTUVWXYZabcdefghijklmnopqrstuvwxyz0123456789-_".

(* most significant bit first *)
Definition index_of (s : bits6) : nat :=
  let '(b5, b4, b3, b2, b1, b0) := s in
  (if b5 then 32 else 0) + (if b4 then 16 else 0) + (if b3 then 8 else 0) +
  (if b2 then 4 else 0) + (if b1 then 2 else 0) + (if b0 then 1 else 0).

Definition of_index (n : nat) : bits6 :=
  (Nat.testbit n 5, Nat.testbit n 4, Nat.testbit n 3,
   Nat.testbit n 2, Nat.testbit n 1, Nat.testbit n 0).

Definition char_of (s : bits6) : ascii :=
  nth (index_of s) alphabet "A"%char.

(* Node accepts the URL-safe and the standard alphabet when decoding. *)
Definition unbase64 (c : ascii) : option bits6 :=
  let n := nat_of_ascii c in
  if ((65 <=? n) && (n <=? 90))%nat then Some (of_index (n - 65))
  else if ((97 <=? n) && (n <=? 122))%nat then Some (of_index (n - 71))
  else if ((48 <=? n) && (n <=? 57))%nat then Some (of_index (n + 4))
  else if ((n =? 45) || (n =? 43))%nat then Some (of_index 62)
  else if ((n =? 95) || (n =? 47))%nat then Some (of_index 63)
  else None.

(* Ascii b0 .. b7 has b0 as least significant bit. *)
Fixpoint encode_bytes (bs : Buffer) : list ascii :=
  match bs with
  | Ascii a0 a1 a2 a3 a4 a5 a6 a7
      :: Ascii b0 b1 b2 b3 b4 b5 b6 b7
      :: Ascii c0 c1 c2 c3 c4 c5 c6 c7 :: rest =>
      char_of (a7, a6, a5, a4, a3, a2)
        :: char_of (a1, a0, b7, b6, b5, b4)
        :: char_of (b3, b2, b1, b0, c7, c6)
        :: char_of (c5, c4, c3, c2, c1, c0)
        :: encode_bytes rest
  | [Ascii a0 a1 a2 a3 a4 a5 a6 a7; Ascii b0 b1 b2 b3 b4 b5 b6 b7] =>
      [char_of (a7, a6, a5, a4, a3, a2);
       char_of (a1, a0, b7, b6, b5, b4);
       char_of (b3, b2, b1, b0, false, false)]
  | [Ascii a0 a1 a2 a3 a4 a5 a6 a7] =>
      [char_of (a7, a6, a5, a4, a3, a2);
       char_of (a1, a0, false, false, false, false)]
  | [] => []
  end.

(* toString("base64url"): no padding *)
Definition encode (bs : Buffer) : string :=
  string_of_list_ascii (encode_bytes bs).

(* The decoder skips characters outside both alphabets and stops at the
   first padding character. *)
Fixpoint sextets (cs : list ascii) : list bits6 :=
  match cs with
  | [] => []
  | c :: cs' =>
      if Ascii.eqb c "="%char then []
      else match unbase64 c with
           | Some s => s :: sextets cs'
           | None => sextets cs'
           end
  end.

(* Left-over bits of an incomplete final group are dropped. *)
Fixpoint decode_sextets (ss : list bits6) : Buffer :=
  match ss with
  | (a7, a6, a5, a4, a3, a2) :: (a1, a0, b7, b6, b5, b4)
      :: (b3, b2, b1, b0, c7, c6) :: (c5, c4, c3, c2, c1, c0) :: rest =>
      Ascii a0 a1 a2 a3 a4 a5 a6 a7
        :: Ascii b0 b1 b2 b3 b4 b5 b6 b7
        :: Ascii c0 c1 c2 c3 c4 c5 c6 c7
        :: decode_sextets rest
  | [(a7, a6, a5, a4, a3, a2); (a1, a0, b7, b6, b5, b4);
     (b3, b2, b1, b0, _, _)] =>
      [Ascii a0 a1 a2 a3 a4 a5 a6 a7; Ascii b0 b1 b2 b3 b4 b5 b6 b7]
  | [(a7, a6, a5, a4, a3, a2); (a1, a0, _, _, _, _)] =>
      [Ascii a0 a1 a2 a3 a4 a5 a6 a7]
  | _ => []
  end.

Definition decode (s : string) : Buffer :=
  decode_sextets (sextets (list_ascii_of_string s)).

End Base64url.

(** ** Byte and word helpers *)

Definition byte_of_Z (z : Z) : ascii := ascii_of_N (Z.to_N (z mod 256)).
Definition Z_of_byte (c : ascii) : Z := Z.of_N (N_of_ascii c).

(* big-endian *)
Fixpoint Z_of_bytes (bs : Buffer) : Z :=
  match bs with
  | [] => 0
  | b :: bs' => Z_of_byte b * 256 ^ Z.of_nat (length bs') + Z_of_bytes bs'
  end%Z.

Fixpoint bytes_of_Z (n : nat) (z : Z) : Buffer :=
  match n with
  | O => []
  | S n' => byte_of_Z (Z.shiftr z (8 * Z.of_nat n')) :: bytes_of_Z n' z
  end.

Fixpoint chunks {A} (k : nat) (n : nat) (l : list A) : list (list A) :=
  match n with
  | O => []
  | S n' => firstn k l :: chunks k n' (skipn k l)
  end.

(** ** [crypto.createHash("sha256")] (FIPS 180-4) *)

Module SHA256.
Local Open Scope Z_scope.

Definition w32 (z : Z) : Z := z mod 2 ^ 32.
Definition rotr (n x : Z) : Z :=
  Z.lor (Z.shiftr x n) (w32 (Z.shiftl x (32 - n))).
Definition Ch (x y z : Z) : Z :=
  Z.lxor (Z.land x y) (Z.land (Z.lxor x (2 ^ 32 - 1)) z).
Definition Maj (x y z : Z) : Z :=
  Z.lxor (Z.lxor (Z.land x y) (Z.land x z)) (Z.land y z).
Definition Sigma0 x := Z.lxor (Z.lxor (rotr 2 x) (rotr 13 x)) (rotr 22 x).
Definition Sigma1 x := Z.lxor (Z.lxor (rotr 6 x) (rotr 11 x)) (rotr 25 x).
Definition sigma0 x := Z.lxor (Z.lxor (rotr 7 x) (rotr 18 x)) (Z.shiftr x 3).
Definition sigma1 x := Z.lxor (Z.lxor (rotr 17 x) (rotr 19 x)) (Z.shiftr x 10).

(* The constants are the fractional parts of the square and cube roots of
   the first primes. *)
Definition is_prime (n : Z) : bool :=
  forallb (fun d => negb (n mod d =? 0))
          (map Z.of_nat (seq 2 (Z.to_nat n - 2))).
Definition primes64 : list Z :=
  Eval vm_compute in filter is_prime (map Z.of_nat (seq 2 310)).

Fixpoint cbrt_bits (i : nat) (n r : Z) : Z :=
  match i with
  | O => r
  | S i' =>
      let r' := r + 2 ^ Z.of_nat i' in
      cbrt_bits i' n (if r' * r' * r' <=? n then r' else r)
  end.
Definition icbrt (n : Z) : Z := cbrt_bits 48 n 0.

Definition H0 : list Z :=
  Eval vm_compute in
    map (fun p => w32 (Z.sqrt (p * 2 ^ 64))) (firstn 8 primes64).
Definition K : list Z :=
  Eval vm_compute in map (fun p => w32 (icbrt (p * 2 ^ 96))) primes64.

Definition pad (msg : Buffer) : Buffer :=
  let l := Z.of_nat (length msg) in
  let k := (55 - l) mod 64 in
  msg ++ byte_of_Z 128 :: repeat (byte_of_Z 0) (Z.to_nat k)
      ++ bytes_of_Z 8 (8 * l).

(* message schedule, most recent word first *)
Fixpoint extend (n : nat) (w : list Z) : list Z :=
  match n with
  | O => w
  | S n' =>
      let x := w32 (sigma1 (nth 1 w 0) + nth 6 w 0
                    + sigma0 (nth 14 w 0) + nth 15 w 0) in
      extend n' (x :: w)
  end.
Definition schedule (block : Buffer) : list Z :=
  rev (extend 48 (rev (map Z_of_bytes (chunks 4 16 block)))).

Definition hstate : Type := (Z * Z * Z * Z * Z * Z * Z * Z)%type.

Definition round (s : hstate) (kw : Z * Z) : hstate :=
  let '(a, b, c, d, e, f, g, h) := s in
  let t1 := h + Sigma1 e + Ch e f g + fst kw + snd kw in
  let t2 := Sigma0 a + Maj a b c in
  (w32 (t1 + t2), a, b, c, w32 (d + t1), e, f, g).

Definition compress (s : hstate) (block : Buffer) : hstate :=
  let '(a, b, c, d, e, f, g, h) :=
    fold_left round (combine K (schedule block)) s in
  let '(sa, sb, sc, sd, se, sf, sg, sh) := s in
  (w32 (sa + a), w32 (sb + b), w32 (sc + c), w32 (sd + d),
   w32 (se + e), w32 (sf + f), w32 (sg + g), w32 (sh + h)).

Definition init : hstate :=
  (nth 0 H0 0, nth 1 H0 0, nth 2 H0 0, nth 3 H0 0,
   nth 4 H0 0, nth 5 H0 0, nth 6 H0 0, nth 7 H0 0).

Definition output (s : hstate) : Buffer :=
  let '(a, b, c, d, e, f, g, h) := s in
  bytes_of_Z 4 a ++ bytes_of_Z 4 b ++ bytes_of_Z 4 c ++ bytes_of_Z 4 d ++
  bytes_of_Z 4 e ++ bytes_of_Z 4 f ++ bytes_of_Z 4 g ++ bytes_of_Z 4 h.

Definition digest (msg : Buffer) : Buffer :=
  let p := pad msg in
  output (fold_left compress (chunks 64 (length p / 64) p) init).

End SHA256.

Definition hex_of (bs : Buffer) : string :=
  let digit (z : Z) : ascii :=
    nth (Z.to_nat z) (list_ascii_of_string "0123456789abcdef") "0"%char in
  string_of_list_ascii
    (flat_map (fun b => [digit (Z_of_byte b / 16)%Z; digit (Z_of_byte b mod 16)%Z]) bs).

(** ** [crypto.createCipheriv("aes-256-gcm")] (FIPS 197, NIST SP 800-38D) *)

Definition xor_ascii (x y : ascii) : ascii :=
  let '(Ascii x0 x1 x2 x3 x4 x5 x6 x7) := x in
  let '(Ascii y0 y1 y2 y3 y4 y5 y6 y7) := y in
  Ascii (xorb x0 y0) (xorb x1 y1) (xorb x2 y2) (xorb x3 y3)
        (xorb x4 y4) (xorb x5 y5) (xorb x6 y6) (xorb x7 y7).

Fixpoint xor_bytes (xs ys : Buffer) : Buffer :=
  match xs, ys with
  | x :: xs', y :: ys' => xor_ascii x y :: xor_bytes xs' ys'
  | _, _ => []
  end.

Module AES256.
Local Open Scope Z_scope.

Definition xtime (a : Z) : Z :=
  Z.land (Z.lxor (Z.shiftl a 1) (if Z.testbit a 7 then 27 else 0)) 255.

Fixpoint gmul_bits (n : nat) (a b : Z) : Z :=
  match n with
  | O => 0
  | S n' =>
      Z.lxor (if Z.testbit b 0 then a else 0)
             (gmul_bits n' (xtime a) (Z.shiftr b 1))
  end.
Definition gmul (a b : Z) : Z := gmul_bits 8 a b.

Definition ginv (a : Z) : Z :=
  match find (fun x => gmul a x =? 1) (map Z.of_nat (seq 1 255)) with
  | Some x => x
  | None => 0
  end.

Definition rotl8 (x n : Z) : Z :=
  Z.land (Z.lor (Z.shiftl x n) (Z.shiftr x (8 - n))) 255.

Definition sbox_table : list Z :=
  Eval vm_compute in
    map (fun a =>
           let b := ginv a in
           Z.lxor (Z.lxor (Z.lxor (Z.lxor (Z.lxor b (rotl8 b 1)) (rotl8 b 2))
                                  (rotl8 b 3)) (rotl8 b 4)) 99)
        (map Z.of_nat (seq 0 256)).
Definition sbox (a : Z) : Z := nth (Z.to_nat a) sbox_table 0.

Definition byte_at (w : Z) (i : Z) : Z := Z.land (Z.shiftr w (8 * i)) 255.
Definition SubWord (w : Z) : Z :=
  Z.lor (Z.lor (Z.shiftl (sbox (byte_at w 3)) 24) (Z.shiftl (sbox (byte_at w 2)) 16))
        (Z.lor (Z.shiftl (sbox (byte_at w 1)) 8) (sbox (byte_at w 0))).
Definition RotWord (w : Z) : Z :=
  Z.lor (Z.land (Z.shiftl w 8) (2 ^ 32 - 1)) (Z.shiftr w 24).
Definition Rcon (j : nat) : Z := Z.shiftl (Nat.iter (j - 1) xtime 1) 24.

(* key schedule for Nk = 8, most recent word first *)
Fixpoint expand (n : nat) (i : nat) (w : list Z) : list Z :=
  match n with
  | O => w
  | S n' =>
      let temp := nth 0 w 0 in
      let temp :=
        if (i mod 8 =? 0)%nat then Z.lxor (SubWord (RotWord temp)) (Rcon (i / 8))
        else if (i mod 8 =? 4)%nat then SubWord temp
        else temp in
      expand n' (S i) (Z.lxor (nth 7 w 0) temp :: w)
  end.

Definition word_bytes (w : Z) : list Z :=
  [byte_at w 3; byte_at w 2; byte_at w 1; byte_at w 0].

Definition round_keys (key : Buffer) : list (list Z) :=
  let w0 := map Z_of_bytes (chunks 4 8 key) in
  chunks 16 15 (flat_map word_bytes (rev (expand 52 8 (rev w0)))).

Definition AddRoundKey (st rk : list Z) : list Z :=
  map (fun p => Z.lxor (fst p) (snd p)) (combine st rk).
Definition SubBytes (st : list Z) : list Z := map sbox st.
Definition ShiftRows (st : list Z) : list Z :=
  map (fun i => nth ((i + 4 * (i mod 4)) mod 16) st 0) (seq 0 16).
Definition mix_column (col : list Z) : list Z :=
  match col with
  | [a; b; c; d] =>
      [Z.lxor (Z.lxor (gmul a 2) (gmul b 3)) (Z.lxor c d);
       Z.lxor (Z.lxor a (gmul b 2)) (Z.lxor (gmul c 3) d);
       Z.lxor (Z.lxor a b) (Z.lxor (gmul c 2) (gmul d 3));
       Z.lxor (Z.lxor (gmul a 3) b) (Z.lxor c (gmul d 2))]
  | _ => col
  end.
Definition MixColumns (st : list Z) : list Z :=
  flat_map mix_column (chunks 4 4 st).

Definition cipher (rks : list (list Z)) (block : list Z) : list Z :=
  match rks with
  | rk0 :: rest =>
      let middle := removelast rest in
      let st :=
        fold_left
          (fun st rk => AddRoundKey (MixColumns (ShiftRows (SubBytes st))) rk)
          middle (AddRoundKey block rk0) in
      AddRoundKey (ShiftRows (SubBytes st)) (List.last rest [])
  | [] => block
  end.

(* one block, as a 128-bit big-endian integer *)
Definition encrypt_block (rks : list (list Z)) (x : Z) : Z :=
  Z_of_bytes (map byte_of_Z (cipher rks (map Z_of_byte (bytes_of_Z 16 x)))).

End AES256.

Module GCM.
Local Open Scope Z_scope.

Definition R : Z := Z.shiftl 225 120.

Fixpoint gf_mul_bits (n : nat) (x v acc : Z) : Z :=
  match n with
  | O => acc
  | S n' =>
      let acc' := if Z.testbit x (Z.of_nat n') then Z.lxor acc v else acc in
      let v' := if Z.testbit v 0 then Z.lxor (Z.shiftr v 1) R
                else Z.shiftr v 1 in
      gf_mul_bits n' x v' acc'
  end.
Definition gf_mul (x y : Z) : Z := gf_mul_bits 128 x y 0.

Definition pad16 (bs : Buffer) : Buffer :=
  bs ++ repeat (byte_of_Z 0) (Z.to_nat ((- Z.of_nat (length bs)) mod 16)).

Definition ghash (h : Z) (bs : Buffer) : Z :=
  fold_left (fun y blk => gf_mul (Z.lxor y (Z_of_bytes blk)) h)
            (chunks 16 (length bs / 16) bs) 0.

Definition inc32 (cb : Z) : Z :=
  Z.lor (Z.shiftl (Z.shiftr cb 32) 32) ((Z.land cb (2 ^ 32 - 1) + 1) mod 2 ^ 32).

Fixpoint keystream (rks : list (list Z)) (n : nat) (cb : Z) : Buffer :=
  match n with
  | O => []
  | S n' => bytes_of_Z 16 (AES256.encrypt_block rks cb)
              ++ keystream rks n' (inc32 cb)
  end.

Definition gctr (rks : list (list Z)) (icb : Z) (data : Buffer) : Buffer :=
  xor_bytes data (keystream rks ((length data + 15) / 16) icb).

Definition j0 (h : Z) (iv : Buffer) : Z :=
  if (length iv =? 12)%nat then Z_of_bytes iv * 2 ^ 32 + 1
  else ghash h (pad16 iv ++ bytes_of_Z 16 (8 * Z.of_nat (length iv))).

(* the tag over empty associated data *)
Definition tag (rks : list (list Z)) (iv ct : Buffer) : Buffer :=
  let h := AES256.encrypt_block rks 0 in
  let s := ghash h (pad16 ct ++ bytes_of_Z 16 (8 * Z.of_nat (length ct))) in
  bytes_of_Z 16 (Z.lxor s (AES256.encrypt_block rks (j0 h iv))).

(* cipher.update + cipher.final + cipher.getAuthTag; [None] is the
   exception of createCipheriv on a key that is not 32 bytes long or an
   empty iv *)
Definition encrypt (key iv pt : Buffer) : option (Buffer * Buffer) :=
  if (length key =? 32)%nat && negb (length iv =? 0)%nat then
    let rks := AES256.round_keys key in
    let h := AES256.encrypt_block rks 0 in
    let ct := gctr rks (inc32 (j0 h iv)) pt in
    Some (ct, tag rks iv ct)
  else None.

(* setAuthTag + decipher.update + decipher.final; [None] is any exception *)
Definition decrypt (key iv authTag ct : Buffer) : option Buffer :=
  if (length key =? 32)%nat && negb (length iv =? 0)%nat then
    let rks := AES256.round_keys key in
    let h := AES256.encrypt_block rks 0 in
    if bool_decide (tag rks iv ct = authTag)
    then Some (gctr rks (inc32 (j0 h iv)) ct)
    else None
  else None.

End GCM.

(** ** Token payloads and their JSON text *)

(** [interface StatelessTokenPayload].  The three upstream fields are filled
    from optional fields of the authorization code through a non-null
    assertion, so they can be [undefined] at run time. *)
Record StatelessTokenPayload := {
  type_ : string;
  client_id : string;
  realm_id : option string;
  qb_access_token : option string;
  qb_refresh_token : option string;
  expires_at : Z;
  issued_at : Z;
}.

(** [JSON.stringify] of a payload and [JSON.parse] of its text, on UTF-8
    bytes.  The parser covers the JSON texts that denote a value of the
    payload interface: one flat object whose members are strings and
    integers, in any order, with insignificant white space.  Any other text
    is mapped to failure: either [JSON.parse] throws on it or it yields a value
    outside [StatelessTokenPayload]. *)
Module JSON.

Definition dquote : ascii := "034"%char.
Definition bslash : ascii := "092"%char.

Definition hex_char (n : nat) : ascii :=
  nth n (list_ascii_of_string "0123456789abcdef") "0"%char.

Definition escape_char (c : ascii) : list ascii :=
  let n := nat_of_ascii c in
  if (n =? 34)%nat then [bslash; dquote]
  else if (n =? 92)%nat then [bslash; bslash]
  else if (n =? 8)%nat then [bslash; "b"%char]
  else if (n =? 12)%nat then [bslash; "f"%char]
  else if (n =? 10)%nat then [bslash; "n"%char]
  else if (n =? 13)%nat then [bslash; "r"%char]
  else if (n =? 9)%nat then [bslash; "t"%char]
  else if (n <? 32)%nat then
    [bslash; "u"%char; "0"%char; "0"%char;
     hex_char (n / 16); hex_char (n mod 16)]
  else [c].

Definition quote (s : string) : list ascii :=
  dquote :: flat_map escape_char (list_ascii_of_string s) ++ [dquote].

Fixpoint print_uint (d : Decimal.uint) : list ascii :=
  match d with
  | Decimal.Nil => []
  | Decimal.D0 d' => "0"%char :: print_uint d'
  | Decimal.D1 d' => "1"%char :: print_uint d'
  | Decimal.D2 d' => "2"%char :: print_uint d'
  | Decimal.D3 d' => "3"%char :: print_uint d'
  | Decimal.D4 d' => "4"%char :: print_uint d'
  | Decimal.D5 d' => "5"%char :: print_uint d'
  | Decimal.D6 d' => "6"%char :: print_uint d'
  | Decimal.D7 d' => "7"%char :: print_uint d'
  | Decimal.D8 d' => "8"%char :: print_uint d'
  | Decimal.D9 d' => "9"%char :: print_uint d'
  end.

Definition print_Z (z : Z) : list ascii :=
  match z with
  | Z0 => print_uint (N.to_uint 0)
  | Zpos p => print_uint (N.to_uint (Npos p))
  | Zneg p => "-"%char :: print_uint (N.to_uint (Npos p))
  end.

Definition member_str (k : string) (v : string) : list ascii :=
  quote k ++ ":"%char :: quote v.
Definition member_opt (k : string) (v : option string) : list (list ascii) :=
  match v with
  | Some s => [member_str k s]
  | None => []
  end.
Definition member_num (k : string) (v : Z) : list ascii :=
  quote k ++ ":"%char :: print_Z v.

Fixpoint join (sep : ascii) (ls : list (list ascii)) : list ascii :=
  match ls with
  | [] => []
  | [l] => l
  | l :: ls' => l ++ sep :: join sep ls'
  end.

(* properties in creation order; undefined properties are left out *)
Definition stringify (p : StatelessTokenPayload) : Buffer :=
  "{"%char ::
    join ","%char
      ([member_str "type" (type_ p); member_str "client_id" (client_id p)]
         ++ member_opt "realm_id" (realm_id p)
         ++ member_opt "qb_access_token" (qb_access_token p)
         ++ member_opt "qb_refresh_token" (qb_refresh_token p)
         ++ [member_num "expires_at" (expires_at p);
             member_num "issued_at" (issued_at p)])
    ++ ["}"%char].

Inductive token :=
| TLBrace | TRBrace | TColon | TComma
| TStr (s : string)
| TNum (z : Z).

(* string and escape accumulators hold the bytes read so far, last first;
   the number accumulator holds the digits read so far, last first *)
Inductive lstate :=
| LStart
| LStr (acc : list ascii)
| LEsc (acc : list ascii)
| LHex (acc : list ascii) (ds : list N)
| LNum (neg : bool) (lu : Decimal.uint).

Definition digit_of (c : ascii) : option (Decimal.uint -> Decimal.uint) :=
  match nat_of_ascii c with
  | 48 => Some Decimal.D0 | 49 => Some Decimal.D1 | 50 => Some Decimal.D2
  | 51 => Some Decimal.D3 | 52 => Some Decimal.D4 | 53 => Some Decimal.D5
  | 54 => Some Decimal.D6 | 55 => Some Decimal.D7 | 56 => Some Decimal.D8
  | 57 => Some Decimal.D9
  | _ => None
  end%nat.

Definition hex_val (c : ascii) : option N :=
  let n := N_of_ascii c in
  if ((48 <=? n) && (n <=? 57))%N then Some (n - 48)%N
  else if ((97 <=? n) && (n <=? 102))%N then Some (n - 87)%N
  else if ((65 <=? n) && (n <=? 70))%N then Some (n - 55)%N
  else None.

(* UTF-8 bytes of a code point of the basic plane; an escaped surrogate
   denotes no well-formed string here *)
Definition utf8 (cp : N) : option (list ascii) :=
  if (cp <? 128)%N then Some [ascii_of_N cp]
  else if (cp <? 2048)%N then
    Some [ascii_of_N (192 + cp / 64); ascii_of_N (128 + cp mod 64)]
  else if ((55296 <=? cp) && (cp <=? 57343))%N then None
  else Some [ascii_of_N (224 + cp / 4096);
             ascii_of_N (128 + (cp / 64) mod 64);
             ascii_of_N (128 + cp mod 64)].

Definition leading_ok (d : Decimal.uint) : bool :=
  match d with
  | Decimal.Nil => false
  | Decimal.D0 Decimal.Nil => true
  | Decimal.D0 _ => false
  | _ => true
  end.

Definition finish_num (neg : bool) (lu : Decimal.uint) : option token :=
  let d := Decimal.rev lu in
  if leading_ok d then
    Some (TNum (if neg then - Z.of_N (N.of_uint d) else Z.of_N (N.of_uint d))%Z)
  else None.

Definition start_step (c : ascii) : option (lstate * list token) :=
  match digit_of c with
  | Some f => Some (LNum false (f Decimal.Nil), [])
  | None =>
      match nat_of_ascii c with
      | 32 | 9 | 10 | 13 => Some (LStart, [])
      | 123 => Some (LStart, [TLBrace])
      | 125 => Some (LStart, [TRBrace])
      | 58 => Some (LStart, [TColon])
      | 44 => Some (LStart, [TComma])
      | 34 => Some (LStr [], [])
      | 45 => Some (LNum true Decimal.Nil, [])
      | _ => None
      end%nat
  end.

Definition lex_step (st : lstate) (c : ascii) : option (lstate * list token) :=
  match st with
  | LStart => start_step c
  | LStr acc =>
      let n := nat_of_ascii c in
      if (n =? 34)%nat then
        Some (LStart, [TStr (string_of_list_ascii (rev acc))])
      else if (n =? 92)%nat then Some (LEsc acc, [])
      else if (n <? 32)%nat then None
      else Some (LStr (c :: acc), [])
  | LEsc acc =>
      match nat_of_ascii c with
      | 34 => Some (LStr (dquote :: acc), [])
      | 92 => Some (LStr (bslash :: acc), [])
      | 47 => Some (LStr ("/"%char :: acc), [])
      | 98 => Some (LStr ("008"%char :: acc), [])
      | 102 => Some (LStr ("012"%char :: acc), [])
      | 110 => Some (LStr ("010"%char :: acc), [])
      | 114 => Some (LStr ("013"%char :: acc), [])
      | 116 => Some (LStr ("009"%char :: acc), [])
      | 117 => Some (LHex acc [], [])
      | _ => None
      end%nat
  | LHex acc ds =>
      match hex_val c, ds with
      | Some h4, [h3; h2; h1] =>
          match utf8 (((h1 * 16 + h2) * 16 + h3) * 16 + h4)%N with
          | Some bs => Some (LStr (rev bs ++ acc), [])
          | None => None
          end
      | Some h, _ => Some (LHex acc (h :: ds), [])
      | None, _ => None
      end
  | LNum neg lu =>
      match digit_of c with
      | Some f => Some (LNum neg (f lu), [])
      | None =>
          match finish_num neg lu, start_step c with
          | Some t, Some (st', out) => Some (st', t :: out)
          | _, _ => None
          end
      end
  end.

Definition lex_end (st : lstate) : option (list token) :=
  match st with
  | LStart => Some []
  | LNum neg lu => option_map (fun t => [t]) (finish_num neg lu)
  | _ => None
  end.

Definition emit (out : list token) (r : option (list token))
  : option (list token) :=
  match out with
  | [] => r
  | _ => option_map (app out) r
  end.

Fixpoint lex (st : lstate) (cs : list ascii) : option (list token) :=
  match cs with
  | [] => lex_end st
  | c :: cs' =>
      match lex_step st c with
      | Some (st', out) => emit out (lex st' cs')
      | None => None
      end
  end.

Definition print_token (t : token) : list ascii :=
  match t with
  | TLBrace => ["{"%char]
  | TRBrace => ["}"%char]
  | TColon => [":"%char]
  | TComma => [","%char]
  | TStr s => quote s
  | TNum z => print_Z z
  end.

Inductive value := VStr (s : string) | VNum (z : Z).

Fixpoint members (ts : list token) : option (list (string * value)) :=
  let value_of (t : token) : option value :=
    match t with
    | TStr s => Some (VStr s)
    | TNum z => Some (VNum z)
    | _ => None
    end in
  match ts with
  | TStr k :: TColon :: t :: [TRBrace] =>
      option_map (fun v => [(k, v)]) (value_of t)
  | TStr k :: TColon :: t :: TComma :: rest =>
      match value_of t, members rest with
      | Some v, Some ms => Some ((k, v) :: ms)
      | _, _ => None
      end
  | _ => None
  end.

Definition object (ts : list token) : option (list (string * value)) :=
  match ts with
  | [TLBrace; TRBrace] => Some []
  | TLBrace :: rest => members rest
  | _ => None
  end.

(* a repeated name keeps its last value *)
Fixpoint get (k : string) (ms : list (string * value)) : option value :=
  match ms with
  | [] => None
  | (k', v) :: ms' =>
      match get k ms' with
      | Some v' => Some v'
      | None => if String.eqb k k' then Some v else None
      end
  end.

Definition get_str (k : string) (ms : list (string * value)) : option string :=
  match get k ms with Some (VStr s) => Some s | _ => None end.
Definition get_num (k : string) (ms : list (string * value)) : option Z :=
  match get k ms with Some (VNum z) => Some z | _ => None end.
(* [Some None]: absent; [None]: present with a value that is not a string *)
Definition get_opt_str (k : string) (ms : list (string * value))
  : option (option string) :=
  match get k ms with
  | None => Some None
  | Some (VStr s) => Some (Some s)
  | Some (VNum _) => None
  end.

Definition payload_of (ms : list (string * value))
  : option StatelessTokenPayload :=
  match get_str "type" ms, get_str "client_id" ms,
        get_opt_str "realm_id" ms, get_opt_str "qb_access_token" ms,
        get_opt_str "qb_refresh_token" ms,
        get_num "expires_at" ms, get_num "issued_at" ms with
  | Some t, Some c, Some r, Some a, Some f, Some e, Some i =>
      Some {| type_ := t; client_id := c; realm_id := r;
              qb_access_token := a; qb_refresh_token := f;
              expires_at := e; issued_at := i |}
  | _, _, _, _, _, _, _ => None
  end.

Definition parse (text : Buffer) : option StatelessTokenPayload :=
  match lex LStart text with
  | Some ts =>
      match object ts with
      | Some ms => payload_of ms
      | None => None
      end
  | None => None
  end.

(** The text of a token list, and the tokens of a payload's text. *)
Definition head_not_digit (rest : list ascii) : Prop :=
  match rest with
  | [] => True
  | c :: _ => digit_of c = None
  end.

(** Token lists in which a number is never followed by a number. *)
Fixpoint numbers_delimited (ts : list token) : bool :=
  match ts with
  | TNum _ :: (TNum _ :: _) => false
  | _ :: ts' => numbers_delimited ts'
  | [] => true
  end.

Definition print_tokens (ts : list token) : list ascii :=
  flat_map print_token ts.

Definition member_tokens (k : string) (v : token) : list token :=
  [TComma; TStr k; TColon; v].
Definition opt_tokens (k : string) (v : option string) : list token :=
  match v with
  | Some s => member_tokens k (TStr s)
  | None => []
  end.
Definition payload_tokens (p : StatelessTokenPayload) : list token :=
  [TLBrace; TStr "type"; TColon; TStr (type_ p)]
    ++ member_tokens "client_id" (TStr (client_id p))
    ++ opt_tokens "realm_id" (realm_id p)
    ++ opt_tokens "qb_access_token" (qb_access_token p)
    ++ opt_tokens "qb_refresh_token" (qb_refresh_token p)
    ++ member_tokens "expires_at" (TNum (expires_at p))
    ++ member_tokens "issued_at" (TNum (issued_at p))
    ++ [TRBrace].

End JSON.


(** ** JavaScript values of the request fields *)

(** A request field that is a string when present. *)
Definition truthy (o : option string) : bool :=
  match o with
  | Some s => negb (String.eqb s EmptyString)
  | None => false
  end.

(** The string of a field that has been tested to be present. *)
Definition str_of (o : option string) : string :=
  match o with
  | Some s => s
  | None => EmptyString
  end.

(** [a || b] *)
Definition js_or (a b : option string) : option string :=
  if truthy a then a else b.

(** [a === b] on strings that may be undefined *)
Definition js_eq (a b : option string) : bool := bool_decide (a = b).

(** [s.split(":")] *)
Fixpoint split_colon (cur : string) (s : string) : list string :=
  match s with
  | EmptyString => [cur]
  | String c s' =>
      if Ascii.eqb c ":"%char then cur :: split_colon EmptyString s'
      else split_colon (cur ++ String c EmptyString) s'
  end.

Fixpoint drop_chars (n : nat) (s : string) : string :=
  match n, s with
  | S n', String _ s' => drop_chars n' s'
  | _, _ => s
  end.

(** ** Constants ([src/constants.ts]) *)

Definition TOKEN_EXPIRY_SECONDS : Z := 3600.
Definition AUTH_CODE_EXPIRY_SECONDS : Z := 600.
Definition REFRESH_EXPIRY_MS : Z := 90 * 24 * 60 * 60 * 1000.

(** ** Data model ([src/types/index.ts]) *)

Record OAuthClientRegistration := {
  reg_client_id : string;
  reg_client_secret : option string;
  reg_client_name : string;
  reg_redirect_uris : list string;
  reg_grant_types : list string;
  reg_response_types : list string;
  reg_token_endpoint_auth_method : string;
  reg_created_at : Z;
}.

Record AuthorizationCode := {
  ac_code : string;
  ac_client_id : string;
  ac_redirect_uri : string;
  ac_code_challenge : option string;
  ac_code_challenge_method : option string;
  ac_scope : option string;
  ac_expires_at : Z;
  ac_realm_id : option string;
  ac_qb_access_token : option string;
  ac_qb_refresh_token : option string;
}.

Record TokenData := {
  td_client_id : string;
  td_access_token : string;
  td_refresh_token : option string;
  td_expires_at : Z;
  td_realm_id : option string;
  td_qb_access_token : option string;
  td_qb_refresh_token : option string;
}.

Record PendingAuthorization := {
  pa_client_id : string;
  pa_redirect_uri : string;
  pa_state : option string;
  pa_code_challenge : option string;
  pa_code_challenge_method : option string;
  pa_scope : option string;
}.

(** The module-level maps of [oauth-server.ts]. *)
Record store := {
  registeredClients : gmap string OAuthClientRegistration;
  authorizationCodes : gmap string AuthorizationCode;
  accessTokens : gmap string TokenData;
  refreshTokens : gmap string TokenData;
  pendingAuthorizations : gmap string PendingAuthorization;
}.

Definition empty_store : store :=
  {| registeredClients := ∅; authorizationCodes := ∅; accessTokens := ∅;
     refreshTokens := ∅; pendingAuthorizations := ∅ |}.

Definition set_registeredClients
           (f : gmap string OAuthClientRegistration -> gmap string OAuthClientRegistration)
           (st : store) : store :=
  {| registeredClients := f (registeredClients st);
     authorizationCodes := authorizationCodes st;
     accessTokens := accessTokens st;
     refreshTokens := refreshTokens st;
     pendingAuthorizations := pendingAuthorizations st |}.
Definition set_authorizationCodes
           (f : gmap string AuthorizationCode -> gmap string AuthorizationCode)
           (st : store) : store :=
  {| registeredClients := registeredClients st;
     authorizationCodes := f (authorizationCodes st);
     accessTokens := accessTokens st;
     refreshTokens := refreshTokens st;
     pendingAuthorizations := pendingAuthorizations st |}.
Definition set_accessTokens
           (f : gmap string TokenData -> gmap string TokenData)
           (st : store) : store :=
  {| registeredClients := registeredClients st;
     authorizationCodes := authorizationCodes st;
     accessTokens := f (accessTokens st);
     refreshTokens := refreshTokens st;
     pendingAuthorizations := pendingAuthorizations st |}.
Definition set_refreshTokens
           (f : gmap string TokenData -> gmap string TokenData)
           (st : store) : store :=
  {| registeredClients := registeredClients st;
     authorizationCodes := authorizationCodes st;
     accessTokens := accessTokens st;
     refreshTokens := f (refreshTokens st);
     pendingAuthorizations := pendingAuthorizations st |}.
Definition set_pendingAuthorizations
           (f : gmap string PendingAuthorization -> gmap string PendingAuthorization)
           (st : store) : store :=
  {| registeredClients := registeredClients st;
     authorizationCodes := authorizationCodes st;
     accessTokens := accessTokens st;
     refreshTokens := refreshTokens st;
     pendingAuthorizations := f (pendingAuthorizations st) |}.

(** ** Responses *)

(** Where [res.redirect] sends the user agent: the upstream authorize URL
    built by [qbClient.authorizeUri({scope, state})], or a client redirect
    URI with the query parameters set on it, in the order they were set. *)
Inductive location :=
| UpstreamAuthorize (scope : list string) (state : string)
| ClientRedirect (redirect_uri : string) (params : list (string * string)).

Inductive response :=
| ErrorResponse (status : Z) (error : string) (error_description : string)
| Created (reg : OAuthClientRegistration) (client_id_issued_at : Z)
| TokenResponse (access_token token_type : string) (expires_in : Z)
                (refresh_token scope : string)
| Redirect (target : location)
| SendText (status : Z) (text : string)
| Throws.

(** The token object of an [intuit-oauth] response. *)
Record QBToken := {
  qb_tok_access_token : string;
  qb_tok_refresh_token : string;
  qb_tok_realmId : string;
}.

(** [crypto.randomBytes(length).toString("hex")], on the bytes drawn *)
Definition generateSecureToken (random_bytes : Buffer) : string :=
  hex_of random_bytes.

(** [verifyCodeChallenge] *)
Definition verifyCodeChallenge (codeVerifier codeChallenge : string)
           (method : option string) : bool :=
  let method := default "S256" method in
  if String.eqb method "plain" then String.eqb codeVerifier codeChallenge
  else
    let hash :=
      Base64url.encode (SHA256.digest (list_ascii_of_string codeVerifier)) in
    String.eqb hash codeChallenge.

(** [new URL(s)]: the two properties the server reads. *)
Record URL := {
  protocol : string;
  hostname : string;
}.

(** ** Request records *)

Inductive redirect_uris_field :=
| Missing
| NotAnArray
| UriArray (uris : list string).

Record RegisterRequest := {
  rr_client_name : option string;
  rr_redirect_uris : redirect_uris_field;
  rr_grant_types : option (list string);
  rr_response_types : option (list string);
  rr_token_endpoint_auth_method : option string;
}.

Record AuthorizeRequest := {
  ar_response_type : option string;
  ar_client_id : option string;
  ar_redirect_uri : option string;
  ar_state : option string;
  ar_code_challenge : option string;
  ar_code_challenge_method : option string;
  ar_scope : option string;
}.

Record CallbackRequest := {
  cb_code : option string;
  cb_state : option string;
  cb_realmId : option string;
  cb_error : option string;
  cb_error_description : option string;
}.

Record TokenRequest := {
  tr_grant_type : option string;
  tr_code : option string;
  tr_redirect_uri : option string;
  tr_code_verifier : option string;
  tr_refresh_token : option string;
  tr_client_id : option string;
  tr_client_secret : option string;
  tr_authorization : option string;
}.

(** The client credentials of a token request: body fields first, then the
    Basic authorization header. *)
Definition client_credentials (req : TokenRequest)
  : option string * option string :=
  match tr_authorization req with
  | Some authHeader =>
      if String.prefix "Basic " authHeader then
        let decoded :=
          string_of_list_ascii (Base64url.decode (drop_chars 6 authHeader)) in
        let parts := split_colon EmptyString decoded in
        (js_or (tr_client_id req) (parts !! 0%nat),
         js_or (tr_client_secret req) (parts !! 1%nat))
      else (tr_client_id req, tr_client_secret req)
  | None => (tr_client_id req, tr_client_secret req)
  end.

Section Server.

(** [new URL(s)], [None] when the constructor throws. *)
Variable URL_parse : string -> option URL.

(** The process-wide encryption key. *)
Variable TOKEN_ENCRYPTION_KEY : Buffer.

(** ** Token codec *)

(** [encryptTokenPayload], on the 16 random bytes drawn for the iv; [None]
    when [createCipheriv] throws. *)
Definition encryptTokenPayload (iv : Buffer) (payload : StatelessTokenPayload)
  : option string :=
  let plaintext := JSON.stringify payload in
  match GCM.encrypt TOKEN_ENCRYPTION_KEY iv plaintext with
  | Some (encrypted, authTag) =>
      let combined := iv ++ authTag ++ encrypted in
      Some (Base64url.encode combined)
  | None => None
  end.

(** [decryptTokenPayload]; [None] is the [null] result. *)
Definition decryptTokenPayload (token : string)
  : option StatelessTokenPayload :=
  let combined := Base64url.decode token in
  if (length combined <? 32)%nat then None
  else
    let iv := firstn 16 combined in
    let authTag := firstn 16 (skipn 16 combined) in
    let encrypted := skipn 32 combined in
    match GCM.decrypt TOKEN_ENCRYPTION_KEY iv authTag encrypted with
    | Some decrypted => JSON.parse decrypted
    | None => None
    end.

(** ** POST /register *)

Fixpoint validate_redirect_uris (uris : list string) : option response :=
  match uris with
  | [] => None
  | uri :: rest =>
      match URL_parse uri with
      | Some url =>
          let isLocalhost :=
            String.eqb (hostname url) "localhost"
            || String.eqb (hostname url) "127.0.0.1" in
          let isHttps := String.eqb (protocol url) "https:" in
          if negb isLocalhost && negb isHttps then
            Some (ErrorResponse 400 "invalid_redirect_uri"
                    "Redirect URIs must be localhost URLs or HTTPS URLs")
          else validate_redirect_uris rest
      | None =>
          Some (ErrorResponse 400 "invalid_redirect_uri"
                  ("Invalid redirect URI: " ++ uri))
      end
  end.

(** [uuid] is the result of [uuidv4()], [secret_bytes] the 32 random bytes
    of the client secret (read only when a secret is generated). *)
Definition register (st : store) (uuid : string) (secret_bytes : Buffer)
           (now : Z) (req : RegisterRequest) : store * response :=
  let grant_types :=
    default ["authorization_code"; "refresh_token"] (rr_grant_types req) in
  let response_types := default ["code"] (rr_response_types req) in
  let token_endpoint_auth_method :=
    default "none" (rr_token_endpoint_auth_method req) in
  match rr_redirect_uris req with
  | UriArray ((_ :: _) as redirect_uris) =>
      match validate_redirect_uris redirect_uris with
      | Some err => (st, err)
      | None =>
          let clientId := uuid in
          let clientSecret :=
            if negb (String.eqb token_endpoint_auth_method "none")
            then Some (generateSecureToken secret_bytes)
            else None in
          let registration :=
            {| reg_client_id := clientId;
               reg_client_secret := clientSecret;
               reg_client_name :=
                 if truthy (rr_client_name req)
                 then str_of (rr_client_name req)
                 else "MCP Client " ++ String.substring 0 8 clientId;
               reg_redirect_uris := redirect_uris;
               reg_grant_types := grant_types;
               reg_response_types := response_types;
               reg_token_endpoint_auth_method := token_endpoint_auth_method;
               reg_created_at := now |} in
          (set_registeredClients (insert clientId registration) st,
           Created registration (now / 1000)%Z)
      end
  | _ =>
      (st, ErrorResponse 400 "invalid_client_metadata"
             "redirect_uris is required and must be a non-empty array")
  end.

(** ** GET /authorize *)

(** [OAuthClient.scopes.Accounting] *)
Definition scopes_Accounting : string := "com.intuit.quickbooks.accounting".

(** [state_bytes] are the 16 random bytes of the internal state. *)
Definition authorize (st : store) (state_bytes : Buffer)
           (req : AuthorizeRequest) : store * response :=
  let code_challenge_method :=
    Some (default "S256" (ar_code_challenge_method req)) in
  if negb (js_eq (ar_response_type req) (Some "code")) then
    (st, ErrorResponse 400 "unsupported_response_type"
           "Only 'code' response type is supported")
  else if negb (truthy (ar_client_id req)) then
    (st, ErrorResponse 400 "invalid_request" "client_id is required")
  else
    let client_id := str_of (ar_client_id req) in
    match registeredClients st !! client_id with
    | None => (st, ErrorResponse 400 "invalid_client" "Unknown client_id")
    | Some client =>
        let redirect_uri := str_of (ar_redirect_uri req) in
        if negb (truthy (ar_redirect_uri req))
           || negb (existsb (String.eqb redirect_uri) (reg_redirect_uris client))
        then
          (st, ErrorResponse 400 "invalid_redirect_uri"
                 "redirect_uri does not match registered URIs")
        else if negb (truthy (ar_code_challenge req)) then
          match URL_parse redirect_uri with
          | None => (st, Throws)
          | Some _ =>
              (st, Redirect
                     (ClientRedirect redirect_uri
                        ([("error", "invalid_request");
                          ("error_description",
                           "code_challenge is required (PKCE)")]
                           ++ (if truthy (ar_state req)
                               then [("state", str_of (ar_state req))]
                               else []))))
          end
        else
          let internalState := generateSecureToken state_bytes in
          (set_pendingAuthorizations
             (insert internalState
                {| pa_client_id := client_id;
                   pa_redirect_uri := redirect_uri;
                   pa_state := ar_state req;
                   pa_code_challenge := ar_code_challenge req;
                   pa_code_challenge_method := code_challenge_method;
                   pa_scope := ar_scope req |}) st,
           Redirect (UpstreamAuthorize [scopes_Accounting] internalState))
    end.

(** ** GET /callback *)

Definition state_param (pending : PendingAuthorization)
  : list (string * string) :=
  if truthy (pa_state pending)
  then [("state", str_of (pa_state pending))]
  else [].

(** The handler up to its [await]: the answer, when it is given without
    calling upstream, or the pending authorization with which the handler
    resumes.  The lookup and the deletion both happen here. *)
Definition callback_begin (st : store) (req : CallbackRequest)
  : store * (response + PendingAuthorization) :=
  match cb_state req with
  | None => (st, inl (SendText 400 "Invalid or expired authorization state"))
  | Some internalState =>
      match pendingAuthorizations st !! internalState with
      | None =>
          (st, inl (SendText 400 "Invalid or expired authorization state"))
      | Some pending =>
          let st := set_pendingAuthorizations (delete internalState) st in
          match URL_parse (pa_redirect_uri pending) with
          | None => (st, inl Throws)
          | Some _ =>
              if truthy (cb_error req) then
                (st, inl (Redirect
                            (ClientRedirect (pa_redirect_uri pending)
                               ([("error", str_of (cb_error req))]
                                  ++ (if truthy (cb_error_description req)
                                      then [("error_description",
                                             str_of (cb_error_description req))]
                                      else [])
                                  ++ state_param pending))))
              else (st, inr pending)
          end
      end
  end.

(** The handler from its [await] on, in the store of that later moment.
    [exchange] is the outcome of the awaited [qbClient.createToken], [None]
    when it rejects; [code_bytes] are the 32 random bytes of the new
    authorization code. *)
Definition callback_finish (st : store) (pending : PendingAuthorization)
           (exchange : option QBToken) (code_bytes : Buffer) (now : Z)
           (req : CallbackRequest) : store * response :=
  match exchange with
  | Some qbTokens =>
      let authCode := generateSecureToken code_bytes in
      let authCodeData :=
        {| ac_code := authCode;
           ac_client_id := pa_client_id pending;
           ac_redirect_uri := pa_redirect_uri pending;
           ac_code_challenge := pa_code_challenge pending;
           ac_code_challenge_method := pa_code_challenge_method pending;
           ac_scope := pa_scope pending;
           ac_expires_at := (now + AUTH_CODE_EXPIRY_SECONDS * 1000)%Z;
           ac_realm_id :=
             js_or (cb_realmId req) (Some (qb_tok_realmId qbTokens));
           ac_qb_access_token := Some (qb_tok_access_token qbTokens);
           ac_qb_refresh_token := Some (qb_tok_refresh_token qbTokens) |} in
      (set_authorizationCodes (insert authCode authCodeData) st,
       Redirect
         (ClientRedirect (pa_redirect_uri pending)
            ([("code", authCode)] ++ state_param pending)))
  | None =>
      (st, Redirect
             (ClientRedirect (pa_redirect_uri pending)
                ([("error", "server_error");
                  ("error_description",
                   "Failed to complete QuickBooks authorization")]
                   ++ state_param pending)))
  end.

(** The whole handler, when no other request is served during its
    [await]. *)
Definition callback (st : store) (exchange : option QBToken)
           (code_bytes : Buffer) (now : Z) (req : CallbackRequest)
  : store * response :=
  match callback_begin st req with
  | (st', inl answer) => (st', answer)
  | (st', inr pending) =>
      callback_finish st' pending exchange code_bytes now req
  end.

(** ** POST /token, stateless encrypted tokens *)

Definition mint_payload (kind : string) (clientId : string)
           (realm access refresh : option string) (now ttl : Z)
  : StatelessTokenPayload :=
  {| type_ := kind; client_id := clientId; realm_id := realm;
     qb_access_token := access; qb_refresh_token := refresh;
     expires_at := (now + ttl)%Z; issued_at := now |}.

(** The pair of tokens issued by either grant. *)
Definition issue_tokens (iv_access iv_refresh : Buffer) (clientId : string)
           (realm access refresh : option string) (now : Z) (scope : string)
  : response :=
  let accessTokenPayload :=
    mint_payload "access" clientId realm access refresh now
                 (TOKEN_EXPIRY_SECONDS * 1000) in
  let refreshTokenPayload :=
    mint_payload "refresh" clientId realm access refresh now
                 REFRESH_EXPIRY_MS in
  match encryptTokenPayload iv_access accessTokenPayload with
  | None => Throws
  | Some accessToken =>
      match encryptTokenPayload iv_refresh refreshTokenPayload with
      | None => Throws
      | Some newRefreshToken =>
          TokenResponse accessToken "Bearer" TOKEN_EXPIRY_SECONDS
                        newRefreshToken scope
      end
  end.

(** Client validation of the authorization_code grant; [None] when the
    request may proceed. *)
Definition validate_client (st : store) (clientId clientSecret : option string)
  : option response :=
  match clientId with
  | None => Some (ErrorResponse 401 "invalid_client" "Unknown client")
  | Some id =>
      match registeredClients st !! id with
      | None => Some (ErrorResponse 401 "invalid_client" "Unknown client")
      | Some client =>
          if negb (String.eqb (reg_token_endpoint_auth_method client) "none")
             && negb (js_eq (reg_client_secret client) clientSecret)
          then Some (ErrorResponse 401 "invalid_client"
                       "Invalid client credentials")
          else None
      end
  end.

(** The PKCE check on a stored code; [None] when it passes. *)
Definition check_pkce (authCode : AuthorizationCode)
           (code_verifier : option string) : option response :=
  if truthy (ac_code_challenge authCode) then
    if negb (truthy code_verifier) then
      Some (ErrorResponse 400 "invalid_request" "code_verifier is required")
    else if negb (verifyCodeChallenge
                    (str_of code_verifier)
                    (str_of (ac_code_challenge authCode))
                    (ac_code_challenge_method authCode))
    then Some (ErrorResponse 400 "invalid_grant" "Invalid code_verifier")
    else None
  else None.

(** The checks on a stored code, up to and including PKCE; [None] when all
    of them pass. *)
Definition check_code (authCode : AuthorizationCode)
           (clientId : option string) (req : TokenRequest)
  : option response :=
  if negb (js_eq (Some (ac_client_id authCode)) clientId) then
    Some (ErrorResponse 400 "invalid_grant"
            "Authorization code was not issued to this client")
  else if negb (js_eq (Some (ac_redirect_uri authCode)) (tr_redirect_uri req))
  then Some (ErrorResponse 400 "invalid_grant" "redirect_uri does not match")
  else check_pkce authCode (tr_code_verifier req).

(** [refreshed] is the outcome of the awaited [qbClient.refreshUsingToken],
    [None] when it rejects; [now] is the clock at the expiry checks and
    [now_issue] the clock when the new tokens are stamped. *)
Definition token (st : store) (refreshed : option QBToken)
           (iv_access iv_refresh : Buffer) (now now_issue : Z)
           (req : TokenRequest) : store * response :=
  let '(clientId, clientSecret) := client_credentials req in
  if js_eq (tr_grant_type req) (Some "authorization_code") then
    match validate_client st clientId clientSecret with
    | Some err => (st, err)
    | None =>
        if negb (truthy (tr_code req)) then
          (st, ErrorResponse 400 "invalid_request" "code is required")
        else
          let code := str_of (tr_code req) in
          match authorizationCodes st !! code with
          | None =>
              (st, ErrorResponse 400 "invalid_grant"
                     "Invalid or expired authorization code")
          | Some authCode =>
              match check_code authCode clientId req with
              | Some err => (st, err)
              | None =>
                  if (now >? ac_expires_at authCode)%Z then
                    (set_authorizationCodes (delete code) st,
                     ErrorResponse 400 "invalid_grant"
                       "Authorization code has expired")
                  else
                    (set_authorizationCodes (delete code) st,
                     issue_tokens iv_access iv_refresh
                       (str_of clientId)
                       (ac_realm_id authCode) (ac_qb_access_token authCode)
                       (ac_qb_refresh_token authCode) now_issue
                       (if truthy (ac_scope authCode)
                        then str_of (ac_scope authCode)
                        else "quickbooks:accounting"))
              end
          end
    end
  else if js_eq (tr_grant_type req) (Some "refresh_token") then
    if negb (truthy (tr_refresh_token req)) then
      (st, ErrorResponse 400 "invalid_request" "refresh_token is required")
    else
      match decryptTokenPayload (str_of (tr_refresh_token req)) with
      | None => (st, ErrorResponse 400 "invalid_grant" "Invalid refresh token")
      | Some tokenPayload =>
          if negb (String.eqb (type_ tokenPayload) "refresh") then
            (st, ErrorResponse 400 "invalid_grant"
                   "Token is not a refresh token")
          else if (now >? expires_at tokenPayload)%Z then
            (st, ErrorResponse 400 "invalid_grant"
                   "Refresh token has expired")
          else if truthy clientId
                  && negb (js_eq (Some (client_id tokenPayload)) clientId)
          then
            (st, ErrorResponse 400 "invalid_grant"
                   "Refresh token was not issued to this client")
          else
            let effectiveClientId :=
              if truthy clientId then str_of clientId
              else client_id tokenPayload in
            let '(qbAccessToken, qbRefreshToken) :=
              if truthy (qb_refresh_token tokenPayload) then
                match refreshed with
                | Some r =>
                    (Some (qb_tok_access_token r),
                     Some (qb_tok_refresh_token r))
                | None =>
                    (qb_access_token tokenPayload,
                     qb_refresh_token tokenPayload)
                end
              else (qb_access_token tokenPayload,
                    qb_refresh_token tokenPayload) in
            (st, issue_tokens iv_access iv_refresh effectiveClientId
                   (realm_id tokenPayload) qbAccessToken qbRefreshToken
                   now_issue "quickbooks:accounting")
      end
  else
    (st, ErrorResponse 400 "unsupported_grant_type"
           "Only authorization_code and refresh_token grants are supported").

(** ** Access-token validation, stateless encrypted tokens *)

Definition validateAccessToken (st : store) (now : Z) (token : string)
  : store * option TokenData :=
  match decryptTokenPayload token with
  | Some payload =>
      if negb (String.eqb (type_ payload) "access") then (st, None)
      else if (now >? expires_at payload)%Z then (st, None)
      else
        (st, Some {| td_client_id := client_id payload;
                     td_access_token := token;
                     td_refresh_token := None;
                     td_expires_at := expires_at payload;
                     td_realm_id := realm_id payload;
                     td_qb_access_token := qb_access_token payload;
                     td_qb_refresh_token := qb_refresh_token payload |})
  | None =>
      match accessTokens st !! token with
      | None => (st, None)
      | Some tokenData =>
          if (now >? td_expires_at tokenData)%Z then
            (set_accessTokens (delete token) st, None)
          else (st, Some tokenData)
      end
  end.

Record QuickBooksCredentials := {
  realmId : string;
  accessToken : string;
  refreshToken : option string;
}.

Definition getQuickBooksCredentials (st : store) (now : Z) (token : string)
  : store * option QuickBooksCredentials :=
  let '(st', tokenData) := validateAccessToken st now token in
  match tokenData with
  | Some td =>
      if truthy (td_realm_id td) && truthy (td_qb_access_token td) then
        (st', Some {| realmId := str_of (td_realm_id td);
                      accessToken := str_of (td_qb_access_token td);
                      refreshToken := td_qb_refresh_token td |})
      else (st', None)
  | None => (st', None)
  end.

End Server.

(** ** The in-memory variant of the token endpoint

    The earlier revision of [oauth-server.ts] keeps issued tokens in
    [accessTokens] and [refreshTokens]; registration, authorization and the
    callback are the same. *)
Module InMemory.

(** [access_bytes] and [refresh_bytes] are the random bytes of the two new
    tokens. *)
Definition token (st : store) (refreshed : option QBToken)
           (access_bytes refresh_bytes : Buffer) (now now_issue : Z)
           (req : TokenRequest) : store * response :=
  let '(clientId, clientSecret) := client_credentials req in
  match validate_client st clientId clientSecret with
  | Some err => (st, err)
  | None =>
      let client_id := str_of clientId in
      if js_eq (tr_grant_type req) (Some "authorization_code") then
        if negb (truthy (tr_code req)) then
          (st, ErrorResponse 400 "invalid_request" "code is required")
        else
          let code := str_of (tr_code req) in
          match authorizationCodes st !! code with
          | None =>
              (st, ErrorResponse 400 "invalid_grant"
                     "Invalid or expired authorization code")
          | Some authCode =>
              match check_code authCode clientId req with
              | Some err => (st, err)
              | None =>
                  if (now >? ac_expires_at authCode)%Z then
                    (set_authorizationCodes (delete code) st,
                     ErrorResponse 400 "invalid_grant"
                       "Authorization code has expired")
                  else
                    let accessToken := generateSecureToken access_bytes in
                    let newRefreshToken := generateSecureToken refresh_bytes in
                    let tokenData :=
                      {| td_client_id := client_id;
                         td_access_token := accessToken;
                         td_refresh_token := Some newRefreshToken;
                         td_expires_at :=
                           (now_issue + TOKEN_EXPIRY_SECONDS * 1000)%Z;
                         td_realm_id := ac_realm_id authCode;
                         td_qb_access_token := ac_qb_access_token authCode;
                         td_qb_refresh_token := ac_qb_refresh_token authCode |} in
                    (set_refreshTokens (insert newRefreshToken tokenData)
                       (set_accessTokens (insert accessToken tokenData)
                          (set_authorizationCodes (delete code) st)),
                     TokenResponse accessToken "Bearer" TOKEN_EXPIRY_SECONDS
                       newRefreshToken
                       (if truthy (ac_scope authCode)
                        then str_of (ac_scope authCode)
                        else "quickbooks:accounting"))
              end
          end
      else if js_eq (tr_grant_type req) (Some "refresh_token") then
        if negb (truthy (tr_refresh_token req)) then
          (st, ErrorResponse 400 "invalid_request" "refresh_token is required")
        else
          let refresh_token := str_of (tr_refresh_token req) in
          match refreshTokens st !! refresh_token with
          | None =>
              (st, ErrorResponse 400 "invalid_grant" "Invalid refresh token")
          | Some existingTokenData =>
              if negb (String.eqb (td_client_id existingTokenData) client_id)
              then
                (st, ErrorResponse 400 "invalid_grant"
                       "Refresh token was not issued to this client")
              else
                let '(qbAccessToken, qbRefreshToken) :=
                  if truthy (td_qb_refresh_token existingTokenData) then
                    match refreshed with
                    | Some r =>
                        (Some (qb_tok_access_token r),
                         Some (qb_tok_refresh_token r))
                    | None =>
                        (td_qb_access_token existingTokenData,
                         td_qb_refresh_token existingTokenData)
                    end
                  else (td_qb_access_token existingTokenData,
                        td_qb_refresh_token existingTokenData) in
                let newAccessToken := generateSecureToken access_bytes in
                let newRefreshToken := generateSecureToken refresh_bytes in
                let newTokenData :=
                  {| td_client_id := client_id;
                     td_access_token := newAccessToken;
                     td_refresh_token := Some newRefreshToken;
                     td_expires_at :=
                       (now_issue + TOKEN_EXPIRY_SECONDS * 1000)%Z;
                     td_realm_id := td_realm_id existingTokenData;
                     td_qb_access_token := qbAccessToken;
                     td_qb_refresh_token := qbRefreshToken |} in
                (set_refreshTokens (insert newRefreshToken newTokenData)
                   (set_accessTokens (insert newAccessToken newTokenData)
                      (set_refreshTokens (delete refresh_token)
                         (set_accessTokens
                            (delete (td_access_token existingTokenData)) st))),
                 TokenResponse newAccessToken "Bearer" TOKEN_EXPIRY_SECONDS
                   newRefreshToken "quickbooks:accounting")
          end
      else
        (st, ErrorResponse 400 "unsupported_grant_type"
               "Only authorization_code and refresh_token grants are supported")
  end.

Definition validateAccessToken (st : store) (now : Z) (token : string)
  : store * option TokenData :=
  match accessTokens st !! token with
  | None => (st, None)
  | Some tokenData =>
      if (now >? td_expires_at tokenData)%Z then
        (set_accessTokens (delete token) st, None)
      else (st, Some tokenData)
  end.

End InMemory.

(** ** The server as a transition system *)

(** One request, with the clock readings, random draws and upstream outcomes
    its handler consumes.  A callback is served in one piece, or in the two
    pieces before and after its [await], with other requests in between. *)
Inductive event :=
| EvRegister (uuid : string) (secret_bytes : Buffer) (now : Z)
             (req : RegisterRequest)
| EvAuthorize (state_bytes : Buffer) (req : AuthorizeRequest)
| EvCallback (exchange : option QBToken) (code_bytes : Buffer) (now : Z)
             (req : CallbackRequest)
| EvCallbackBegin (req : CallbackRequest)
| EvCallbackFinish (pending : PendingAuthorization)
                   (exchange : option QBToken) (code_bytes : Buffer) (now : Z)
                   (req : CallbackRequest)
| EvToken (refreshed : option QBToken) (iv_access iv_refresh : Buffer)
          (now now_issue : Z) (req : TokenRequest)
| EvValidate (now : Z) (token : string).

Section Transitions.
Variable URL_parse : string -> option URL.
Variable key : Buffer.

Definition step (st : store) (ev : event) : store :=
  match ev with
  | EvRegister uuid secret_bytes now req =>
      fst (register URL_parse st uuid secret_bytes now req)
  | EvAuthorize state_bytes req =>
      fst (authorize URL_parse st state_bytes req)
  | EvCallback exchange code_bytes now req =>
      fst (callback URL_parse st exchange code_bytes now req)
  | EvCallbackBegin req => fst (callback_begin URL_parse st req)
  | EvCallbackFinish pending exchange code_bytes now req =>
      fst (callback_finish st pending exchange code_bytes now req)
  | EvToken refreshed iv_access iv_refresh now now_issue req =>
      fst (token key st refreshed iv_access iv_refresh now now_issue req)
  | EvValidate now tok => fst (validateAccessToken key st now tok)
  end.

Definition run (st : store) (evs : list event) : store :=
  fold_left step evs st.

(** The event draws [code] as a new authorization code. *)
Definition mints (code : string) (ev : event) : Prop :=
  match ev with
  | EvCallback _ code_bytes _ _ | EvCallbackFinish _ _ code_bytes _ _ =>
      generateSecureToken code_bytes = code
  | _ => False
  end.

(** The event draws [s] as a new internal state, or is a callback for it. *)
Definition touches_state (s : string) (ev : event) : Prop :=
  match ev with
  | EvAuthorize state_bytes _ => generateSecureToken state_bytes = s
  | EvCallback _ _ _ req | EvCallbackBegin req => cb_state req = Some s
  | _ => False
  end.

End Transitions.

(** ** Notions used in the statements *)

Section CodeGrantDefs.
Variable key : Buffer.

(** The request passes every check of the authorization_code grant that
    comes before PKCE, and [authCode] is the stored code it names. *)
Definition reaches_pkce (st : store) (req : TokenRequest)
           (authCode : AuthorizationCode) : Prop :=
  tr_grant_type req = Some "authorization_code"
  /\ validate_client st (client_credentials req).1 (client_credentials req).2
     = None
  /\ truthy (tr_code req) = true
  /\ authorizationCodes st !! str_of (tr_code req) = Some authCode
  /\ Some (ac_client_id authCode) = (client_credentials req).1
  /\ Some (ac_redirect_uri authCode) = tr_redirect_uri req.

(** What the grant does once PKCE has passed: the expiry check, then the
    deletion of the code and the issue of the tokens. *)
Definition redeem (st : store) (req : TokenRequest)
           (authCode : AuthorizationCode) (iv_access iv_refresh : Buffer)
           (now now_issue : Z) : store * response :=
  let st' :=
    set_authorizationCodes (delete (str_of (tr_code req))) st in
  if (now >? ac_expires_at authCode)%Z then
    (st', ErrorResponse 400 "invalid_grant" "Authorization code has expired")
  else
    (st', issue_tokens key iv_access iv_refresh
            (str_of (client_credentials req).1)
            (ac_realm_id authCode) (ac_qb_access_token authCode)
            (ac_qb_refresh_token authCode) now_issue
            (if truthy (ac_scope authCode)
             then str_of (ac_scope authCode)
             else "quickbooks:accounting")).

End CodeGrantDefs.

(** The equation [verifyCodeChallenge] tests for a verifier: equality with
    the challenge under "plain", equality of its base64url SHA-256 digest
    with the challenge under any other method. *)
Definition pkce_matches (authCode : AuthorizationCode) (ch v : string) : Prop :=
  if decide (ac_code_challenge_method authCode = Some "plain") then v = ch
  else Base64url.encode (SHA256.digest (list_ascii_of_string v)) = ch.

Definition is_token_response (r : response) : bool :=
  match r with
  | TokenResponse _ _ _ _ _ => true
  | _ => false
  end.


Section RegistrationDefs.
Variable URL_parse : string -> option URL.

(** The redirect URI parses and is a localhost, 127.0.0.1 or https URL. *)
Definition uri_allowed (uri : string) : bool :=
  match URL_parse uri with
  | Some url =>
      String.eqb (hostname url) "localhost"
      || String.eqb (hostname url) "127.0.0.1"
      || String.eqb (protocol url) "https:"
  | None => false
  end.

End RegistrationDefs.

Definition invalid_state : response :=
  SendText 400 "Invalid or expired authorization state".


(** ** A worked flow

    Concrete inputs on which the handlers are run in the examples below. *)

(** A reader for lower-case absolute URLs of the shape
    scheme://host[:port][/path], on which it agrees with [new URL]. *)
Definition example_URL_parse (s : string) : option URL :=
  match String.index 0 "://" s with
  | Some i =>
      let scheme := String.substring 0 i s in
      let rest := String.substring (i + 3) (String.length s - (i + 3)) s in
      let fix host (r : string) : string :=
        match r with
        | EmptyString => EmptyString
        | String c r' =>
            if existsb (Ascii.eqb c) [":"; "/"; "?"; "#"]%char
            then EmptyString else String c (host r')
        end in
      if String.eqb scheme EmptyString || String.eqb (host rest) EmptyString then None
      else Some {| protocol := scheme ++ ":"; hostname := host rest |}
  | None => None
  end.

Definition example_key : Buffer :=
  bytes_of_Z 32
    0x000102030405060708090a0b0c0d0e0f101112131415161718191a1b1c1d1e1f.
Definition example_iv : Buffer :=
  bytes_of_Z 16 0x000102030405060708090a0b0c0d0e0f.
Definition example_iv' : Buffer :=
  bytes_of_Z 16 0xf0e0d0c0b0a090807060504030201000.

Definition example_client : string := "6fa459ea-ee8a-4ca4-894e-db77e160355e".
Definition example_redirect : string := "http://localhost:4000/cb".
(* the random bytes of the internal state and of the authorization code *)
Definition example_state_bytes : Buffer :=
  bytes_of_Z 16 0x9b1deb4d3b7d4bad9bdd2b0d7b3dcb6d.
Definition example_code_bytes : Buffer :=
  bytes_of_Z 32
    0x5f4dcc3b5aa765d61d8327deb882cf99c2a9e1f0b7d64a3e8f1c0d2b4a697885.
Definition example_internal_state : string :=
  Eval vm_compute in generateSecureToken example_state_bytes.
Definition example_code : string :=
  Eval vm_compute in generateSecureToken example_code_bytes.

Definition example_registration : RegisterRequest :=
  {| rr_client_name := None;
     rr_redirect_uris := UriArray [example_redirect];
     rr_grant_types := None;
     rr_response_types := None;
     rr_token_endpoint_auth_method := Some "none" |}.

Definition example_authorize (challenge method : string) : AuthorizeRequest :=
  {| ar_response_type := Some "code";
     ar_client_id := Some example_client;
     ar_redirect_uri := Some example_redirect;
     ar_state := Some "client-state-1";
     ar_code_challenge := Some challenge;
     ar_code_challenge_method := Some method;
     ar_scope := None |}.

Definition example_upstream : QBToken :=
  {| qb_tok_access_token := "qb-access";
     qb_tok_refresh_token := "qb-refresh";
     qb_tok_realmId := "4620816365" |}.

Definition example_callback : CallbackRequest :=
  {| cb_code := Some "upstream-code";
     cb_state := Some example_internal_state;
     cb_realmId := Some "4620816365";
     cb_error := None;
     cb_error_description := None |}.

Definition example_t0 : Z := 1700000000000.

(** The store after registration. *)
Definition registered_store : store :=
  fst (register example_URL_parse empty_store example_client []
         example_t0 example_registration).

(** The store after /authorize with the given challenge. *)
Definition authorized_store (challenge method : string) : store :=
  fst (authorize example_URL_parse registered_store example_state_bytes
         (example_authorize challenge method)).

(** The store after the callback: [example_code] is redeemable until
    [example_t0 + 600000]. *)
Definition issued_store (challenge method : string) : store :=
  fst (callback example_URL_parse (authorized_store challenge method)
         (Some example_upstream) example_code_bytes example_t0
         example_callback).

Definition example_redeem (verifier : option string) : TokenRequest :=
  {| tr_grant_type := Some "authorization_code";
     tr_code := Some example_code;
     tr_redirect_uri := Some example_redirect;
     tr_code_verifier := verifier;
     tr_refresh_token := None;
     tr_client_id := Some example_client;
     tr_client_secret := None;
     tr_authorization := None |}.

(** RFC 7636, appendix B. *)
Definition example_verifier : string :=
  "dBjftJeZ4CVP-mB92K27uhbUJU1p1r_wW1gFWFOEjXk".
Definition example_challenge : string :=
  "E9Melhoa2OwvFrEMTJguCHaoeK1t8URWbuGJSstw-cM".

Definition example_authCode (challenge method : string) : AuthorizationCode :=
  {| ac_code := example_code;
     ac_client_id := example_client;
     ac_redirect_uri := example_redirect;
     ac_code_challenge := Some challenge;
     ac_code_challenge_method := Some method;
     ac_scope := None;
     ac_expires_at := example_t0 + 600000;
     ac_realm_id := Some "4620816365";
     ac_qb_access_token := Some "qb-access";
     ac_qb_refresh_token := Some "qb-refresh" |}.

(** Requests that follow the first redemption in the worked flow: a new
    authorization, its callback (which draws another code) and a token
    validation. *)
Definition example_later_events : list event :=
  [EvAuthorize example_state_bytes (example_authorize example_challenge "S256");
   EvCallback (Some example_upstream)
     (bytes_of_Z 32
        0x0e3fa2b1c4d5e6f708192a3b4c5d6e7f8091a2b3c4d5e6f708192a3b4c5d6e7f)
     (example_t0 + 5000) example_callback;
   EvValidate (example_t0 + 6000) "not-a-token"].

Definition example_redeemed : store * response :=
  token example_key (issued_store example_challenge "S256") None
        example_iv example_iv' (example_t0 + 1000) (example_t0 + 1000)
        (example_redeem (Some example_verifier)).

(** An access token and a refresh token of the worked flow, issued at
    [example_t0]: the first expires at [example_t0 + 3600000], the second at
    [example_t0 + 7776000000]. *)
Definition example_access_payload : StatelessTokenPayload :=
  mint_payload "access" example_client (Some "4620816365") (Some "qb-access")
               (Some "qb-refresh") example_t0 (TOKEN_EXPIRY_SECONDS * 1000).
Definition example_refresh_payload : StatelessTokenPayload :=
  mint_payload "refresh" example_client (Some "4620816365") (Some "qb-access")
               (Some "qb-refresh") example_t0 REFRESH_EXPIRY_MS.
Definition example_access_token : string :=
  Eval vm_compute in
    str_of (encryptTokenPayload example_key example_iv
                                    example_access_payload).
Definition example_refresh_token : string :=
  Eval vm_compute in
    str_of (encryptTokenPayload example_key example_iv'
                                    example_refresh_payload).

Definition example_refresh_of (tok : string) : TokenRequest :=
  {| tr_grant_type := Some "refresh_token";
     tr_code := None;
     tr_redirect_uri := None;
     tr_code_verifier := None;
     tr_refresh_token := Some tok;
     tr_client_id := Some example_client;
     tr_client_secret := None;
     tr_authorization := None |}.
Definition example_refresh : TokenRequest :=
  example_refresh_of example_refresh_token.

Definition example_registration_of (uris : list string) : RegisterRequest :=
  {| rr_client_name := None;
     rr_redirect_uris := UriArray uris;
     rr_grant_types := None;
     rr_response_types := None;
     rr_token_endpoint_auth_method := None |}.

(** Later traffic in the worked flow that leaves the pending authorization
    alone: a registration, a refused token request and a token validation, a
    year after the authorization. *)
Definition example_idle_events : list event :=
  [EvRegister "0b6f2c1a-5d3e-4f7a-9c8b-1e2d3c4b5a69" [] (example_t0 + 1000)
              example_registration;
   EvToken None example_iv example_iv'
           (example_t0 + 31536000000) (example_t0 + 31536000000)
           (example_redeem (Some example_verifier));
   EvValidate (example_t0 + 31536000000) example_access_token].

(** ** The authentication middleware of the MCP endpoint ([src/index.ts]) *)

(** What the middleware does with a request: it calls [next()], with the
    QuickBooks instance it has put on the request (given here by the three
    credentials the instance is created from), or it answers itself. *)
Inductive middleware_result :=
| Next (qb : option QuickBooksCredentials)
| Denied (www_authenticate : option string) (answer : response).

Section Middleware.
Variable TOKEN_ENCRYPTION_KEY : Buffer.

(** [method] is [req.body?.method], [authHeader] the authorization header;
    [now_validate] and [now_credentials] are the clock readings of the two
    validations the middleware runs on the token. *)
Definition authMiddleware (st : store) (now_validate now_credentials : Z)
           (method authHeader : option string) : store * middleware_result :=
  if js_eq method (Some "initialize") then (st, Next None)
  else
    let bearer :=
      match authHeader with
      | Some h => String.prefix "Bearer " h
      | None => false
      end in
    if negb bearer then
      (st, Denied None (ErrorResponse 401 "unauthorized" "Bearer token required"))
    else
      let token := drop_chars 7 (str_of authHeader) in
      let '(st1, tokenData) :=
        validateAccessToken TOKEN_ENCRYPTION_KEY st now_validate token in
      match tokenData with
      | None =>
          (st1, Denied None (ErrorResponse 401 "invalid_token"
                               "Invalid or expired access token"))
      | Some _ =>
          let '(st2, qbCreds) :=
            getQuickBooksCredentials TOKEN_ENCRYPTION_KEY st1 now_credentials
                                     token in
          match qbCreds with
          | None =>
              (st2, Denied None (ErrorResponse 401 "invalid_token"
                                   "Token does not have QuickBooks credentials"))
          | Some creds => (st2, Next (Some creds))
          end
      end.

End Middleware.

(** ** The transparent-proxy variant

    A later revision of [oauth-server.ts] hands the upstream tokens to the
    client as they are, and its middleware takes the bearer token for an
    upstream access token.  Registration, authorization and the callback
    are the same; nothing is stored for an issued token. *)
Module Proxy.

(** The body of a successful token response.  A member whose value is
    [undefined] is left out of the JSON text. *)
Record TokenBody := {
  tb_access_token : option string;
  tb_token_type : string;
  tb_expires_in : Z;
  tb_refresh_token : option string;
  tb_scope : string;
}.

(** The token object of a refresh response, with the lifetime this variant
    reads. *)
Record RefreshedToken := {
  rt_access_token : string;
  rt_refresh_token : string;
  rt_expires_in : Z;
}.

(** [refreshed] is the outcome of the awaited [qbClient.refreshUsingToken],
    [None] when it rejects. *)
Definition token (st : store) (refreshed : option RefreshedToken) (now : Z)
           (req : TokenRequest) : store * (response + TokenBody) :=
  let '(clientId, clientSecret) := client_credentials req in
  if js_eq (tr_grant_type req) (Some "authorization_code") then
    match validate_client st clientId clientSecret with
    | Some err => (st, inl err)
    | None =>
        if negb (truthy (tr_code req)) then
          (st, inl (ErrorResponse 400 "invalid_request" "code is required"))
        else
          let code := str_of (tr_code req) in
          match authorizationCodes st !! code with
          | None =>
              (st, inl (ErrorResponse 400 "invalid_grant"
                          "Invalid or expired authorization code"))
          | Some authCode =>
              match check_code authCode clientId req with
              | Some err => (st, inl err)
              | None =>
                  if (now >? ac_expires_at authCode)%Z then
                    (set_authorizationCodes (delete code) st,
                     inl (ErrorResponse 400 "invalid_grant"
                            "Authorization code has expired"))
                  else
                    (set_authorizationCodes (delete code) st,
                     inr {| tb_access_token := ac_qb_access_token authCode;
                            tb_token_type := "Bearer";
                            tb_expires_in := 3600;
                            tb_refresh_token := ac_qb_refresh_token authCode;
                            tb_scope :=
                              if truthy (ac_scope authCode)
                              then str_of (ac_scope authCode)
                              else "com.intuit.quickbooks.accounting" |})
              end
          end
    end
  else if js_eq (tr_grant_type req) (Some "refresh_token") then
    if negb (truthy (tr_refresh_token req)) then
      (st, inl (ErrorResponse 400 "invalid_request" "refresh_token is required"))
    else
      match refreshed with
      | Some newTokens =>
          (st, inr {| tb_access_token := Some (rt_access_token newTokens);
                      tb_token_type := "Bearer";
                      tb_expires_in :=
                        if (rt_expires_in newTokens =? 0)%Z then 3600%Z
                        else rt_expires_in newTokens;
                      tb_refresh_token := Some (rt_refresh_token newTokens);
                      tb_scope := "com.intuit.quickbooks.accounting" |})
      | None =>
          (st, inl (ErrorResponse 400 "invalid_grant" "Failed to refresh token"))
      end
  else
    (st, inl (ErrorResponse 400 "unsupported_grant_type"
                "Only authorization_code and refresh_token grants are supported")).

(** The middleware of this variant; [env_issuer] and [env_realm] are the
    environment variables OAUTH_ISSUER and QUICKBOOKS_REALM_ID. *)
Definition authMiddleware (env_issuer env_realm : option string)
           (method authHeader : option string) : middleware_result :=
  if js_eq method (Some "initialize") then Next None
  else
    let bearer :=
      match authHeader with
      | Some h => String.prefix "Bearer " h
      | None => false
      end in
    if negb bearer then
      let issuer := str_of (js_or env_issuer (Some "http://localhost:8000")) in
      Denied (Some ("Bearer resource_metadata="
                      ++ String JSON.dquote
                           (issuer ++ "/.well-known/oauth-protected-resource/mcp"
                                   ++ String JSON.dquote EmptyString))%string)
             (ErrorResponse 401 "unauthorized" "Bearer token required")
    else if negb (truthy env_realm) then
      Denied None (ErrorResponse 500 "server_error"
                     "QUICKBOOKS_REALM_ID is not configured")
    else
      Next (Some {| realmId := str_of env_realm;
                    accessToken := drop_chars 7 (str_of authHeader);
                    refreshToken := None |}).

End Proxy.

(** ** Search criteria ([src/tools/register-tools.ts]) *)

Module Search.
Section Criteria.

(** The value of a filter criterion (a string, a number or a boolean); the
    function hands it on as it is. *)
Variable V : Type.

Record FilterCriterion := {
  fc_field : string;
  fc_value : V;
  fc_operator : option string;
}.

(** The parsed input of a search tool; [limit] and [offset] are integers by
    the schema. *)
Record SearchOptions := {
  so_criteria : option (list FilterCriterion);
  so_limit : option Z;
  so_offset : option Z;
  so_asc : option string;
  so_desc : option string;
  so_fetchAll : option bool;
  so_count : option bool;
}.

Inductive option_value :=
| Num (n : Z)
| Str (s : string)
| Bool (b : bool).

(** An element of the array handed to node-quickbooks: a copied criterion,
    with its field, value and operator, or an option, with a field and a
    value. *)
Inductive entry :=
| Criterion (field : string) (value : V) (operator : option string)
| Setting (field : string) (value : option_value).

Inductive criteria :=
| EmptyObject
| Entries (result : list entry).

(** [!n] on an optional number *)
Definition falsy_number (n : option Z) : bool :=
  match n with
  | Some z => (z =? 0)%Z
  | None => true
  end.

Definition buildSearchCriteria (input : SearchOptions) : criteria :=
  let criteria := default [] (so_criteria input) in
  let fetchAll := default false (so_fetchAll input) in
  let count := default false (so_count input) in
  if (length criteria =? 0)%nat
     && falsy_number (so_limit input) && falsy_number (so_offset input)
     && negb (truthy (so_asc input)) && negb (truthy (so_desc input))
     && negb fetchAll && negb count
  then EmptyObject
  else
    let result :=
      map (fun c => Criterion (fc_field c) (fc_value c) (fc_operator c))
          criteria
      ++ match so_limit input with
         | Some limit => [Setting "limit" (Num limit)]
         | None => []
         end
      ++ match so_offset input with
         | Some offset => [Setting "offset" (Num offset)]
         | None => []
         end
      ++ (if truthy (so_asc input)
          then [Setting "asc" (Str (str_of (so_asc input)))] else [])
      ++ (if truthy (so_desc input)
          then [Setting "desc" (Str (str_of (so_desc input)))] else [])
      ++ (if fetchAll then [Setting "fetchAll" (Bool true)] else [])
      ++ (if count then [Setting "count" (Bool true)] else []) in
    if (0 <? length result)%nat then Entries result else EmptyObject.

End Criteria.

Arguments Build_FilterCriterion {V}.
Arguments fc_field {V}.
Arguments fc_value {V}.
Arguments fc_operator {V}.
Arguments Build_SearchOptions {V}.
Arguments so_criteria {V}.
Arguments so_limit {V}.
Arguments so_offset {V}.
Arguments so_asc {V}.
Arguments so_desc {V}.
Arguments so_fetchAll {V}.
Arguments so_count {V}.
Arguments Criterion {V}.
Arguments Setting {V}.
Arguments EmptyObject {V}.
Arguments Entries {V}.
Arguments buildSearchCriteria {V}.

End Search.

(** ** Notions used in the statements on reachable stores *)

Section InvariantDefs.
Variable URL_parse : string -> option URL.

(** What /authorize has checked of an entry it stores. *)
Definition pending_ok (p : PendingAuthorization) : bool :=
  uri_allowed URL_parse (pa_redirect_uri p) && truthy (pa_code_challenge p).

Definition store_ok (st : store) : Prop :=
  (forall id c, registeredClients st !! id = Some c ->
                reg_client_id c = id /\ reg_redirect_uris c <> []
                /\ forallb (uri_allowed URL_parse) (reg_redirect_uris c) = true)
  /\ (forall s p, pendingAuthorizations st !! s = Some p -> pending_ok p = true)
  /\ (forall c a, authorizationCodes st !! c = Some a ->
                  ac_code a = c
                  /\ uri_allowed URL_parse (ac_redirect_uri a) = true
                  /\ truthy (ac_code_challenge a) = true).

(** A callback that resumes after its [await] resumes with an entry that
    /authorize stored. *)
Definition resumes_ok (ev : event) : Prop :=
  match ev with
  | EvCallbackFinish p _ _ _ _ => pending_ok p = true
  | _ => True
  end.

End InvariantDefs.

(** The event registers a client under [id]. *)
Definition registers (id : string) (ev : event) : Prop :=
  match ev with
  | EvRegister uuid _ _ _ => uuid = id
  | _ => False
  end.

(** ** The worked flow, continued *)

(** The two tokens issued in [example_redeemed]. *)
Definition example_issued_access : string :=
  Eval vm_compute in
    match snd example_redeemed with
    | TokenResponse a _ _ _ _ => a
    | _ => EmptyString
    end.
Definition example_issued_refresh : string :=
  Eval vm_compute in
    match snd example_redeemed with
    | TokenResponse _ _ _ r _ => r
    | _ => EmptyString
    end.

(** The requests that lead to [issued_store]. *)
Definition example_flow_events : list event :=
  [EvRegister example_client [] example_t0 example_registration;
   EvAuthorize example_state_bytes (example_authorize example_challenge "S256");
   EvCallback (Some example_upstream) example_code_bytes example_t0
              example_callback].

(** ** Further notions and examples *)



(** The bytes that a string of hex digits spells, two digits to a byte. *)
Fixpoint unhex (cs : list ascii) : Buffer :=
  match cs with
  | hi :: lo :: rest =>
      match JSON.hex_val hi, JSON.hex_val lo with
      | Some h, Some l => ascii_of_N (h * 16 + l) :: unhex rest
      | _, _ => []
      end
  | _ => []
  end.


(** The in-memory variant on the worked flow: the redemption of
    [example_code], then a refresh with the refresh token it issued. *)
Definition example_access_bytes : Buffer :=
  bytes_of_Z 32
    0x1a2b3c4d5e6f708192a3b4c5d6e7f8091a2b3c4d5e6f708192a3b4c5d6e7f809.
Definition example_refresh_bytes : Buffer :=
  bytes_of_Z 32
    0xa1b2c3d4e5f60718293a4b5c6d7e8f90a1b2c3d4e5f60718293a4b5c6d7e8f90.
Definition example_access_bytes' : Buffer :=
  bytes_of_Z 32
    0x0102030405060708090a0b0c0d0e0f101112131415161718191a1b1c1d1e1f20.
Definition example_refresh_bytes' : Buffer :=
  bytes_of_Z 32
    0x2122232425262728292a2b2c2d2e2f303132333435363738393a3b3c3d3e3f40.

Definition in_memory_redeemed : store * response :=
  InMemory.token (issued_store example_challenge "S256") None
    example_access_bytes example_refresh_bytes
    (example_t0 + 1000) (example_t0 + 1000)
    (example_redeem (Some example_verifier)).

Definition in_memory_refreshed : store * response :=
  InMemory.token (fst in_memory_redeemed) (Some example_upstream)
    example_access_bytes' example_refresh_bytes'
    (example_t0 + 5000) (example_t0 + 5000)
    (example_refresh_of (generateSecureToken example_refresh_bytes)).

(** The registration of a confidential client. *)
Definition example_secret_bytes : Buffer :=
  bytes_of_Z 32
    0x3c4d5e6f708192a3b4c5d6e7f8091a2b3c4d5e6f708192a3b4c5d6e7f8091a2b.
Definition example_confidential_registration : RegisterRequest :=
  {| rr_client_name := Some "Ledger desk";
     rr_redirect_uris := UriArray [example_redirect];
     rr_grant_types := None;
     rr_response_types := None;
     rr_token_endpoint_auth_method := Some "client_secret_post" |}.

(** The module-level constant [TOKEN_ENCRYPTION_KEY]: the bytes that the
    environment variable of that name spells in base64 when it is set, and
    the 32 random bytes drawn at start-up when it is not. *)
Definition TOKEN_ENCRYPTION_KEY (env : option string) (random_bytes : Buffer)
  : Buffer :=
  if truthy env then Base64url.decode (str_of env) else random_bytes.

(** * Properties of the primitives *)

(** ** Published test vectors *)

(** FIPS 180-4: SHA-256 of "abc". *)
Example sha256_abc :
  hex_of (SHA256.digest (list_ascii_of_string "abc"))
  = "ba7816bf8f01cfea414140de5dae2223b00361a396177a9cb410ff61f20015ad".
Proof. vm_compute. reflexivity. Qed.

(** RFC 7636, appendix B: the S256 challenge of a verifier. *)
Example pkce_rfc7636 :
  verifyCodeChallenge example_verifier example_challenge (Some "S256") = true.
Proof. vm_compute. reflexivity. Qed.

(** FIPS 197, appendix C.3: one AES-256 block. *)
Example aes256_fips197 :
  AES256.encrypt_block
    (AES256.round_keys
       (bytes_of_Z 32
          0x000102030405060708090a0b0c0d0e0f101112131415161718191a1b1c1d1e1f))
    0x00112233445566778899aabbccddeeff
  = 0x8ea2b7ca516745bfeafc49904b496089%Z.
Proof. vm_compute. reflexivity. Qed.

(** The GCM specification, test case 14: a zero key, a zero 96-bit iv and
    one zero block. *)
Example gcm_test_case_14 :
  option_map (fun r => (hex_of r.1, hex_of r.2))
             (GCM.encrypt (bytes_of_Z 32 0) (bytes_of_Z 12 0) (bytes_of_Z 16 0))
  = Some ("cea7403d4d606b6e074ec5d3baf39d18",
          "d0d1c8a799996bf0265b98b5d48ab919").
Proof. vm_compute. reflexivity. Qed.

Section Base64urlFacts.
Import Base64url.

Lemma unbase64_char_of (s : bits6) : unbase64 (char_of s) = Some s.
Proof.
  destruct s as [[[[[[] []] []] []] []] []]; vm_compute; reflexivity.
Qed.

Lemma char_of_not_pad (s : bits6) : Ascii.eqb (char_of s) "="%char = false.
Proof.
  destruct s as [[[[[[] []] []] []] []] []]; vm_compute; reflexivity.
Qed.

Lemma sextets_char_of (s : bits6) (cs : list ascii) :
  sextets (char_of s :: cs) = s :: sextets cs.
Proof.
  cbn [sextets]. rewrite char_of_not_pad, unbase64_char_of. reflexivity.
Qed.

(** Lists three elements at a time, the way the coder walks a buffer. *)
Lemma list_ind3 {A} (P : list A -> Prop) :
  P [] -> (forall a, P [a]) -> (forall a b, P [a; b]) ->
  (forall a b c l, P l -> P (a :: b :: c :: l)) ->
  forall l, P l.
Proof.
  intros H0 H1 H2 H3.
  fix IH 1.
  intros [|a [|b [|c l]]]; [apply H0 | apply H1 | apply H2 | apply H3, IH].
Qed.

Lemma decode_encode_bytes (bs : Buffer) :
  decode_sextets (sextets (encode_bytes bs)) = bs.
Proof.
  induction bs as [ | a | a b | a b c l IH] using list_ind3.
  - reflexivity.
  - destruct a. cbn [encode_bytes].
    rewrite !sextets_char_of. reflexivity.
  - destruct a, b. cbn [encode_bytes].
    rewrite !sextets_char_of. reflexivity.
  - destruct a, b, c. cbn [encode_bytes].
    rewrite !sextets_char_of. cbn [decode_sextets]. rewrite IH. reflexivity.
Qed.

(** [Buffer.from(b.toString("base64url"), "base64url")] is [b]. *)
Lemma decode_encode (bs : Buffer) : decode (encode bs) = bs.
Proof.
  unfold decode, encode.
  rewrite list_ascii_of_string_of_list_ascii.
  apply decode_encode_bytes.
Qed.

Lemma encode_nonempty (b : ascii) (bs : Buffer) : encode (b :: bs) <> EmptyString.
Proof.
  unfold encode.
  destruct b, bs as [|b' [|b'' bs]]; try destruct b'; try destruct b'';
    cbn [encode_bytes string_of_list_ascii]; discriminate.
Qed.

End Base64urlFacts.

Section CipherFacts.

Lemma xor_ascii_cancel (x k : ascii) : xor_ascii (xor_ascii x k) k = x.
Proof.
  destruct x, k. cbn [xor_ascii].
  f_equal; (rewrite xorb_assoc, xorb_nilpotent; apply xorb_false_r).
Qed.

Lemma length_xor_bytes (xs ks : Buffer) :
  length xs <= length ks -> length (xor_bytes xs ks) = length xs.
Proof.
  revert ks. induction xs as [|x xs IH]; intros [|k ks] Hlen;
    cbn [xor_bytes length] in *; try lia.
  rewrite IH; lia.
Qed.

Lemma xor_bytes_cancel (xs ks : Buffer) :
  length xs <= length ks -> xor_bytes (xor_bytes xs ks) ks = xs.
Proof.
  revert ks. induction xs as [|x xs IH]; intros [|k ks] Hlen;
    cbn [xor_bytes length] in *; try lia; try reflexivity.
  rewrite xor_ascii_cancel, IH by lia. reflexivity.
Qed.

Lemma length_bytes_of_Z (n : nat) (z : Z) : length (bytes_of_Z n z) = n.
Proof. induction n; cbn [bytes_of_Z length]; congruence. Qed.

Lemma length_keystream rks (n : nat) (cb : Z) :
  length (GCM.keystream rks n cb) = 16 * n.
Proof.
  revert cb. induction n as [|n IH]; intros cb; cbn [GCM.keystream].
  - reflexivity.
  - rewrite length_app, length_bytes_of_Z, IH. lia.
Qed.

Lemma keystream_covers rks (data : Buffer) (cb : Z) :
  length data <= length (GCM.keystream rks ((length data + 15) / 16) cb).
Proof.
  rewrite length_keystream.
  pose proof (Nat.div_mod_eq (length data + 15) 16) as Hdiv.
  pose proof (Nat.mod_upper_bound (length data + 15) 16) as Hmod.
  lia.
Qed.

Lemma length_gctr rks (icb : Z) (data : Buffer) :
  length (GCM.gctr rks icb data) = length data.
Proof.
  unfold GCM.gctr. apply length_xor_bytes, keystream_covers.
Qed.

(** Counter mode is its own inverse. *)
Lemma gctr_involutive rks (icb : Z) (data : Buffer) :
  GCM.gctr rks icb (GCM.gctr rks icb data) = data.
Proof.
  unfold GCM.gctr at 1. rewrite length_gctr.
  unfold GCM.gctr. apply xor_bytes_cancel, keystream_covers.
Qed.

Lemma length_tag rks (iv ct : Buffer) : length (GCM.tag rks iv ct) = 16.
Proof. unfold GCM.tag. apply length_bytes_of_Z. Qed.

(** What [createCipheriv] wrote, [createDecipheriv] reads back. *)
Lemma gcm_decrypt_encrypt (key iv pt ct authTag : Buffer) :
  GCM.encrypt key iv pt = Some (ct, authTag) ->
  GCM.decrypt key iv authTag ct = Some pt.
Proof.
  unfold GCM.encrypt, GCM.decrypt.
  destruct (_ && _); [|discriminate].
  intros [= <- <-].
  rewrite bool_decide_eq_true_2 by reflexivity.
  rewrite gctr_involutive. reflexivity.
Qed.

Lemma gcm_encrypt_Some (key iv pt : Buffer) :
  length key = 32 -> length iv = 16 ->
  exists ct authTag,
    GCM.encrypt key iv pt = Some (ct, authTag)
    /\ length authTag = 16 /\ length ct = length pt.
Proof.
  intros Hk Hiv. unfold GCM.encrypt. rewrite Hk, Hiv. cbn [Nat.eqb andb negb].
  eexists _, _. split; [reflexivity|].
  split; [apply length_tag | apply length_gctr].
Qed.

End CipherFacts.

Section JSONFacts.
Import JSON.

Lemma lex_escape_char (c : ascii) (acc rest : list ascii) :
  lex (LStr acc) (escape_char c ++ rest) = lex (LStr (c :: acc)) rest.
Proof.
  destruct c as [[] [] [] [] [] [] [] []]; reflexivity.
Qed.

Lemma lex_string_body (s acc rest : list ascii) :
  lex (LStr acc) (flat_map escape_char s ++ dquote :: rest)
  = option_map (cons (TStr (string_of_list_ascii (rev acc ++ s))))
               (lex LStart rest).
Proof.
  revert acc. induction s as [|c s IH]; intros acc.
  - rewrite app_nil_r. reflexivity.
  - cbn [flat_map]. rewrite <- List.app_assoc, lex_escape_char, IH.
    cbn [rev]. rewrite <- List.app_assoc. reflexivity.
Qed.

Lemma lex_quote (s : string) (rest : list ascii) :
  lex LStart (quote s ++ rest)
  = option_map (cons (TStr s)) (lex LStart rest).
Proof.
  unfold quote. cbn [app]. rewrite <- List.app_assoc. cbn [app].
  change (lex LStart (dquote :: ?l)) with (lex (LStr []) l).
  rewrite lex_string_body. cbn [rev app].
  rewrite string_of_list_ascii_of_string. reflexivity.
Qed.

Lemma lex_digits (d lu : Decimal.uint) (neg : bool) (rest : list ascii) :
  lex (LNum neg lu) (print_uint d ++ rest)
  = lex (LNum neg (Decimal.revapp d lu)) rest.
Proof.
  revert lu. induction d; intros lu; cbn [print_uint app]; try reflexivity;
    match goal with
    | |- lex _ (_ :: _) = _ =>
        etransitivity; [|apply IHd]; reflexivity
    end.
Qed.

Lemma lex_number_end (neg : bool) (lu : Decimal.uint) (t : token)
      (rest : list ascii) :
  finish_num neg lu = Some t -> head_not_digit rest ->
  lex (LNum neg lu) rest = option_map (cons t) (lex LStart rest).
Proof.
  intros Hfin Hhead. destruct rest as [|c rest]; cbn [lex lex_end].
  - rewrite Hfin. reflexivity.
  - cbn [head_not_digit] in Hhead. cbn [lex_step]. rewrite Hhead, Hfin.
    unfold start_step at 2. rewrite Hhead.
    destruct (start_step c) as [[st' out]|] eqn:Hs; unfold start_step in Hs;
      rewrite Hhead in Hs; rewrite Hs; [|reflexivity].
    destruct out, (lex st' rest); reflexivity.
Qed.

Lemma leading_ok_to_uint (n : N) : leading_ok (N.to_uint n) = true.
Proof.
  rewrite <- (DecimalN.Unsigned.of_to n) at 1.
  rewrite DecimalN.Unsigned.to_of. unfold Decimal.unorm.
  destruct (Decimal.nzhead (N.to_uint n)) eqn:Hnz; try reflexivity.
  exfalso. eapply DecimalFacts.nzhead_nonzero. exact Hnz.
Qed.

Lemma finish_num_to_uint (neg : bool) (n : N) :
  finish_num neg (Decimal.revapp (N.to_uint n) Decimal.Nil)
  = Some (TNum (if neg then - Z.of_N n else Z.of_N n)%Z).
Proof.
  unfold finish_num.
  change (Decimal.revapp (N.to_uint n) Decimal.Nil)
    with (Decimal.rev (N.to_uint n)).
  rewrite DecimalFacts.rev_rev, leading_ok_to_uint,
    DecimalN.Unsigned.of_to.
  reflexivity.
Qed.

Lemma to_uint_nonnil (n : N) : N.to_uint n <> Decimal.Nil.
Proof.
  destruct n as [|p]; [discriminate|].
  apply DecimalPos.Unsigned.to_uint_nonnil.
Qed.

Lemma lex_uint_start (d : Decimal.uint) (rest : list ascii) :
  d <> Decimal.Nil ->
  lex LStart (print_uint d ++ rest)
  = lex (LNum false (Decimal.revapp d Decimal.Nil)) rest.
Proof.
  intros Hd. destruct d; [congruence| ..]; cbn [print_uint app];
    (etransitivity; [|apply lex_digits]; reflexivity).
Qed.

Lemma lex_print_Z (z : Z) (rest : list ascii) :
  head_not_digit rest ->
  lex LStart (print_Z z ++ rest)
  = option_map (cons (TNum z)) (lex LStart rest).
Proof.
  intros Hhead. destruct z as [|p|p]; unfold print_Z.
  - rewrite lex_uint_start by apply to_uint_nonnil.
    erewrite lex_number_end; [reflexivity| |assumption].
    apply (finish_num_to_uint false 0).
  - rewrite lex_uint_start by apply to_uint_nonnil.
    erewrite lex_number_end; [reflexivity| |assumption].
    apply (finish_num_to_uint false (Npos p)).
  - cbn [app].
    change (lex LStart ("-"%char :: ?l)) with (lex (LNum true Decimal.Nil) l).
    rewrite lex_digits.
    erewrite lex_number_end; [reflexivity| |assumption].
    apply (finish_num_to_uint true (Npos p)).
Qed.

Lemma head_print_tokens (ts : list token) :
  match ts with TNum _ :: _ => False | _ => True end ->
  head_not_digit (print_tokens ts).
Proof.
  destruct ts as [|[] ts]; intros H; try reflexivity. destruct H.
Qed.

Lemma lex_punct (c : ascii) (t : token) (rest : list ascii) :
  start_step c = Some (LStart, [t]) ->
  lex LStart (c :: rest) = option_map (cons t) (lex LStart rest).
Proof. intros H. cbn [lex lex_step]. rewrite H. reflexivity. Qed.

Lemma lex_print_tokens (ts : list token) :
  numbers_delimited ts = true ->
  lex LStart (print_tokens ts) = Some ts.
Proof.
  induction ts as [|t ts IH]; intros Hd; [reflexivity|].
  assert (Hts : numbers_delimited ts = true)
    by (destruct t, ts as [|[] ?]; cbn in Hd |- *; congruence).
  specialize (IH Hts).
  unfold print_tokens in *. cbn [flat_map].
  destruct t; cbn [print_token app];
    try (erewrite lex_punct by reflexivity; rewrite IH; reflexivity).
  - rewrite lex_quote, IH. reflexivity.
  - rewrite lex_print_Z, IH; [reflexivity|].
    apply head_print_tokens. destruct ts as [|[] ?]; try exact I.
    discriminate Hd.
Qed.

Lemma stringify_tokens (p : StatelessTokenPayload) :
  stringify p = print_tokens (payload_tokens p).
Proof.
  destruct p as [t c [r|] [a|] [f|] e i];
    unfold stringify, payload_tokens, print_tokens;
    cbn [flat_map print_token
         member_tokens opt_tokens member_opt member_str member_num join app
         type_ client_id realm_id qb_access_token qb_refresh_token
         expires_at issued_at];
    repeat (rewrite <- List.app_assoc; cbn [app]); rewrite ?app_nil_r;
    reflexivity.
Qed.

Lemma payload_tokens_delimited (p : StatelessTokenPayload) :
  numbers_delimited (payload_tokens p) = true.
Proof. destruct p as [t c [r|] [a|] [f|] e i]; reflexivity. Qed.

(** [JSON.parse(JSON.stringify(payload))] is the payload. *)
Lemma parse_stringify (p : StatelessTokenPayload) :
  parse (stringify p) = Some p.
Proof.
  unfold parse.
  rewrite stringify_tokens, lex_print_tokens
    by apply payload_tokens_delimited.
  destruct p as [t c [r|] [a|] [f|] e i]; reflexivity.
Qed.

End JSONFacts.

(** * The token codec *)

Section TokenCodec.
Variable key : Buffer.

Lemma split_combined (iv authTag ct : Buffer) :
  length iv = 16 -> length authTag = 16 ->
  firstn 16 (iv ++ authTag ++ ct) = iv
  /\ firstn 16 (skipn 16 (iv ++ authTag ++ ct)) = authTag
  /\ skipn 32 (iv ++ authTag ++ ct) = ct
  /\ 32 <= length (iv ++ authTag ++ ct).
Proof.
  intros Hiv Htag.
  assert (Hskip : skipn 16 (iv ++ authTag ++ ct) = authTag ++ ct)
    by (rewrite <- Hiv; apply drop_app_length).
  repeat split.
  - rewrite <- Hiv. apply take_app_length.
  - rewrite Hskip, <- Htag. apply take_app_length.
  - rewrite List.app_assoc.
    replace 32 with (length (iv ++ authTag))
      by (rewrite length_app; lia).
    apply drop_app_length.
  - rewrite !length_app. lia.
Qed.

Lemma encrypt_decrypt (iv : Buffer) (P : StatelessTokenPayload) :
  length key = 32 -> length iv = 16 ->
  exists tok,
    encryptTokenPayload key iv P = Some tok
    /\ decryptTokenPayload key tok = Some P.
Proof.
  intros Hk Hiv.
  destruct (gcm_encrypt_Some key iv (JSON.stringify P) Hk Hiv)
    as (ct & authTag & Henc & Htag & _).
  unfold encryptTokenPayload, decryptTokenPayload. rewrite Henc.
  eexists. split; [reflexivity|].
  rewrite decode_encode.
  destruct (split_combined iv authTag ct Hiv Htag) as (-> & -> & -> & Hlen).
  destruct (Nat.ltb_spec (length (iv ++ authTag ++ ct)) 32); [lia|].
  rewrite (gcm_decrypt_encrypt _ _ _ _ _ Henc).
  apply parse_stringify.
Qed.




End TokenCodec.

(** * The server as a transition system *)

Section TransitionFacts.
Variable URL_parse : string -> option URL.
Variable key : Buffer.

Lemma register_codes st uuid sb now req :
  authorizationCodes (fst (register URL_parse st uuid sb now req))
  = authorizationCodes st
  /\ pendingAuthorizations (fst (register URL_parse st uuid sb now req))
     = pendingAuthorizations st.
Proof. unfold register. repeat case_match; auto. Qed.

Lemma authorize_codes st sb req :
  authorizationCodes (fst (authorize URL_parse st sb req))
  = authorizationCodes st.
Proof. unfold authorize. repeat case_match; reflexivity. Qed.

Lemma authorize_pending st sb req s :
  generateSecureToken sb <> s ->
  pendingAuthorizations (fst (authorize URL_parse st sb req)) !! s
  = pendingAuthorizations st !! s.
Proof.
  intros Hne. unfold authorize. repeat case_match; try reflexivity.
  cbn. apply lookup_insert_ne. exact Hne.
Qed.

Lemma callback_begin_codes st req :
  authorizationCodes (fst (callback_begin URL_parse st req))
  = authorizationCodes st.
Proof. unfold callback_begin. repeat case_match; reflexivity. Qed.

Lemma callback_begin_pending st req s :
  cb_state req <> Some s ->
  pendingAuthorizations (fst (callback_begin URL_parse st req)) !! s
  = pendingAuthorizations st !! s.
Proof.
  intros Hne. unfold callback_begin. repeat case_match; try reflexivity;
    cbn; apply lookup_delete_ne; congruence.
Qed.

Lemma callback_finish_codes st p ex cb now req c :
  generateSecureToken cb <> c ->
  authorizationCodes (fst (callback_finish st p ex cb now req)) !! c
  = authorizationCodes st !! c.
Proof.
  intros Hne. unfold callback_finish. destruct ex; [|reflexivity].
  cbn. apply lookup_insert_ne. exact Hne.
Qed.

Lemma callback_finish_pending st p ex cb now req :
  pendingAuthorizations (fst (callback_finish st p ex cb now req))
  = pendingAuthorizations st.
Proof. unfold callback_finish. destruct ex; reflexivity. Qed.

(** The store after the whole handler, through its two pieces. *)
Lemma callback_store st ex cb now req :
  fst (callback URL_parse st ex cb now req)
  = match snd (callback_begin URL_parse st req) with
    | inl _ => fst (callback_begin URL_parse st req)
    | inr p =>
        fst (callback_finish (fst (callback_begin URL_parse st req)) p
                             ex cb now req)
    end.
Proof.
  unfold callback.
  destruct (callback_begin URL_parse st req) as [st1 [r|p]]; reflexivity.
Qed.

Lemma callback_codes st ex cb now req c :
  generateSecureToken cb <> c ->
  authorizationCodes (fst (callback URL_parse st ex cb now req)) !! c
  = authorizationCodes st !! c.
Proof.
  intros Hne. rewrite callback_store.
  destruct (snd (callback_begin URL_parse st req)) as [r|p].
  - rewrite callback_begin_codes. reflexivity.
  - rewrite callback_finish_codes, callback_begin_codes by exact Hne.
    reflexivity.
Qed.

Lemma callback_pending st ex cb now req s :
  cb_state req <> Some s ->
  pendingAuthorizations (fst (callback URL_parse st ex cb now req)) !! s
  = pendingAuthorizations st !! s.
Proof.
  intros Hne. rewrite callback_store.
  destruct (snd (callback_begin URL_parse st req)) as [r|p].
  - apply callback_begin_pending, Hne.
  - rewrite callback_finish_pending. apply callback_begin_pending, Hne.
Qed.

(** The token endpoint leaves the stores alone or deletes the code of the
    request. *)
Lemma token_store st rf iva ivr now now' req :
  let st' := fst (token key st rf iva ivr now now' req) in
  st' = st
  \/ st' = set_authorizationCodes (delete (str_of (tr_code req))) st.
Proof.
  cbn zeta. unfold token.
  destruct (client_credentials req) as [clientId clientSecret].
  repeat case_match; auto.
Qed.

Lemma token_codes_absent st rf iva ivr now now' req c :
  authorizationCodes st !! c = None ->
  authorizationCodes (fst (token key st rf iva ivr now now' req)) !! c = None.
Proof.
  intros Habs.
  destruct (token_store st rf iva ivr now now' req) as [-> | ->];
    [exact Habs|].
  cbn. rewrite lookup_delete. case_decide; [reflexivity | exact Habs].
Qed.

Lemma token_pending st rf iva ivr now now' req :
  pendingAuthorizations (fst (token key st rf iva ivr now now' req))
  = pendingAuthorizations st.
Proof.
  destruct (token_store st rf iva ivr now now' req) as [-> | ->];
    reflexivity.
Qed.

Lemma validate_codes st now tok :
  authorizationCodes (fst (validateAccessToken key st now tok))
  = authorizationCodes st
  /\ pendingAuthorizations (fst (validateAccessToken key st now tok))
     = pendingAuthorizations st.
Proof. unfold validateAccessToken. repeat case_match; auto. Qed.

(** A code that is not in the store stays out of it until a callback
    draws it again. *)
Lemma step_code_absent st ev c :
  ~ mints c ev ->
  authorizationCodes st !! c = None ->
  authorizationCodes (step URL_parse key st ev) !! c = None.
Proof.
  intros Hfresh Habs.
  destruct ev as [uuid sb now req | sb req | ex cb now req | req
                 | p ex cb now req | rf iva ivr now now' req | now tok];
    cbn [step mints] in *.
  - destruct (register_codes st uuid sb now req) as [-> _]. exact Habs.
  - rewrite authorize_codes. exact Habs.
  - rewrite callback_codes by exact Hfresh. exact Habs.
  - rewrite callback_begin_codes. exact Habs.
  - rewrite callback_finish_codes by exact Hfresh. exact Habs.
  - apply token_codes_absent, Habs.
  - destruct (validate_codes st now tok) as [-> _]. exact Habs.
Qed.

Lemma run_code_absent evs st c :
  Forall (fun ev => ~ mints c ev) evs ->
  authorizationCodes st !! c = None ->
  authorizationCodes (run URL_parse key st evs) !! c = None.
Proof.
  unfold run. revert st.
  induction evs as [|ev evs IH]; intros st Hall Habs; [exact Habs|].
  inversion Hall as [|? ? Hev Hevs]; subst. cbn [fold_left].
  apply IH; [exact Hevs|]. apply step_code_absent; assumption.
Qed.

(** A pending authorization stays in the store until an event touches its
    state token. *)
Lemma step_pending_kept st ev s :
  ~ touches_state s ev ->
  pendingAuthorizations (step URL_parse key st ev) !! s = pendingAuthorizations st !! s.
Proof.
  intros Hno.
  destruct ev as [uuid sb now req | sb req | ex cb now req | req
                 | p ex cb now req | rf iva ivr now now' req | now tok];
    cbn [step touches_state] in *.
  - destruct (register_codes st uuid sb now req) as [_ ->]. reflexivity.
  - apply authorize_pending, Hno.
  - apply callback_pending, Hno.
  - apply callback_begin_pending, Hno.
  - rewrite callback_finish_pending. reflexivity.
  - rewrite token_pending. reflexivity.
  - destruct (validate_codes st now tok) as [_ ->]. reflexivity.
Qed.

Lemma run_pending_kept evs st s :
  Forall (fun ev => ~ touches_state s ev) evs ->
  pendingAuthorizations (run URL_parse key st evs) !! s = pendingAuthorizations st !! s.
Proof.
  unfold run. revert st.
  induction evs as [|ev evs IH]; intros st Hall; [reflexivity|].
  inversion Hall as [|? ? Hev Hevs]; subst. cbn [fold_left].
  rewrite IH by exact Hevs. apply step_pending_kept, Hev.
Qed.

End TransitionFacts.

(** * The authorization_code grant *)

Section CodeGrant.
Variable key : Buffer.

Lemma js_eq_refl (a : option string) : js_eq a a = true.
Proof. apply bool_decide_eq_true_2. reflexivity. Qed.

Lemma token_reaches_pkce st req authCode rf iva ivr now now' :
  reaches_pkce st req authCode ->
  token key st rf iva ivr now now' req
  = match check_pkce authCode (tr_code_verifier req) with
    | Some err => (st, err)
    | None => redeem key st req authCode iva ivr now now'
    end.
Proof.
  intros (Hg & Hv & Hc & Hl & Hcid & Hru).
  unfold token, redeem.
  destruct (client_credentials req) as [cid cs]. cbn [fst snd] in *.
  rewrite Hg, js_eq_refl, Hv, Hc, Hl. cbn [negb].
  unfold check_code. rewrite <- Hcid, <- Hru, !js_eq_refl. cbn [negb].
  destruct (check_pkce authCode (tr_code_verifier req)); reflexivity.
Qed.

Lemma truthy_Some (s : string) : s <> EmptyString -> truthy (Some s) = true.
Proof.
  intros Hs. cbn [truthy].
  destruct (String.eqb_spec s EmptyString); [congruence | reflexivity].
Qed.

Lemma truthy_inv (o : option string) :
  truthy o = true -> exists s, o = Some s /\ s <> EmptyString.
Proof.
  destruct o as [s|]; cbn [truthy]; [|discriminate].
  destruct (String.eqb_spec s EmptyString); [discriminate|]. eauto.
Qed.

(** [verifyCodeChallenge] decides the equation of its method. *)
Lemma verifyCodeChallenge_spec (v ch : string) (m : option string) :
  verifyCodeChallenge v ch m = true
  <-> (if decide (m = Some "plain") then v = ch
       else Base64url.encode (SHA256.digest (list_ascii_of_string v)) = ch).
Proof.
  unfold verifyCodeChallenge.
  destruct (decide (m = Some "plain")) as [-> | Hm].
  - cbn. apply String.eqb_eq.
  - destruct (String.eqb_spec (default "S256" m) "plain") as [Heq|_].
    + destruct m as [m|]; cbn in Heq; [congruence | discriminate].
    + apply String.eqb_eq.
Qed.

Lemma check_pkce_cases (authCode : AuthorizationCode) (ch : string)
      (cv : option string) :
  ac_code_challenge authCode = Some ch -> ch <> EmptyString ->
  check_pkce authCode cv
  = if truthy cv then
      if verifyCodeChallenge (str_of cv) ch
           (ac_code_challenge_method authCode)
      then None
      else Some (ErrorResponse 400 "invalid_grant" "Invalid code_verifier")
    else Some (ErrorResponse 400 "invalid_request" "code_verifier is required").
Proof.
  intros Hch Hne. unfold check_pkce.
  rewrite Hch, truthy_Some by exact Hne.
  change (str_of (Some ch)) with ch.
  destruct (truthy cv); [|reflexivity]. cbn [negb].
  destruct (verifyCodeChallenge _ _ _); reflexivity.
Qed.

End CodeGrant.

(** * PKCE at the token endpoint *)

(** C1 (as amended).  On a request that reaches the PKCE check of a stored
    code with a challenge: a non-empty verifier that matches the challenge
    (its base64url SHA-256 digest under S256, itself under plain) passes the
    check and the grant goes on to the expiry check and the issue of tokens;
    a non-empty verifier that does not match is refused with invalid_grant;
    an empty or missing verifier is refused with invalid_request.  A refusal
    leaves the store as it was. *)
Theorem pkce_verification (key : Buffer) (st : store) (req : TokenRequest)
        (authCode : AuthorizationCode) (ch : string)
        (rf : option QBToken) (iva ivr : Buffer) (now now' : Z) :
  reaches_pkce st req authCode ->
  ac_code_challenge authCode = Some ch -> ch <> EmptyString ->
  (forall v, tr_code_verifier req = Some v -> v <> EmptyString ->
             pkce_matches authCode ch v ->
             check_pkce authCode (tr_code_verifier req) = None
             /\ token key st rf iva ivr now now' req
                = redeem key st req authCode iva ivr now now')
  /\ (forall v, tr_code_verifier req = Some v -> v <> EmptyString ->
                ~ pkce_matches authCode ch v ->
                token key st rf iva ivr now now' req
                = (st, ErrorResponse 400 "invalid_grant" "Invalid code_verifier"))
  /\ (truthy (tr_code_verifier req) = false ->
      token key st rf iva ivr now now' req
      = (st, ErrorResponse 400 "invalid_request" "code_verifier is required")).
Proof.
  intros Hreach Hch Hne.
  rewrite (token_reaches_pkce key st req authCode rf iva ivr now now' Hreach).
  rewrite (check_pkce_cases authCode ch (tr_code_verifier req) Hch Hne).
  split; [|split].
  - intros v Hv Hnv Hm. rewrite Hv, truthy_Some by exact Hnv.
    change (str_of (Some v)) with v.
    apply verifyCodeChallenge_spec in Hm. rewrite Hm. split; reflexivity.
  - intros v Hv Hnv Hm. rewrite Hv, truthy_Some by exact Hnv.
    change (str_of (Some v)) with v.
    destruct (verifyCodeChallenge v ch (ac_code_challenge_method authCode))
      eqn:Hver; [|reflexivity].
    apply verifyCodeChallenge_spec in Hver. contradiction.
  - intros ->. reflexivity.
Qed.

Lemma example_reaches_pkce (cv : option string) :
  reaches_pkce (issued_store example_challenge "S256") (example_redeem cv)
               (example_authCode example_challenge "S256").
Proof. repeat split; vm_compute; reflexivity. Qed.

Lemma pkce_verification_witness :
  reaches_pkce (issued_store example_challenge "S256")
               (example_redeem (Some example_verifier))
               (example_authCode example_challenge "S256")
  /\ pkce_matches (example_authCode example_challenge "S256")
                  example_challenge example_verifier
  /\ token example_key (issued_store example_challenge "S256") None
           example_iv example_iv' (example_t0 + 1000) (example_t0 + 1000)
           (example_redeem (Some example_verifier))
     = redeem example_key (issued_store example_challenge "S256")
              (example_redeem (Some example_verifier))
              (example_authCode example_challenge "S256")
              example_iv example_iv' (example_t0 + 1000) (example_t0 + 1000).
Proof.
  assert (Hm : pkce_matches (example_authCode example_challenge "S256")
                            example_challenge example_verifier)
    by (vm_compute; reflexivity).
  split; [apply example_reaches_pkce|]. split; [exact Hm|].
  refine (proj2 (proj1 (pkce_verification example_key _ _ _ example_challenge
                          None example_iv example_iv' _ _
                          (example_reaches_pkce _) eq_refl _)
                   example_verifier eq_refl _ Hm)); discriminate.
Defined.

(** C1 as stated fails on an empty verifier: it does not match the challenge,
    under plain or under S256, yet the refusal is invalid_request, and the
    empty verifier is refused even against the challenge derived from it. *)
Lemma pkce_empty_verifier_counterexample :
  ~ pkce_matches (example_authCode "abc" "plain") "abc" EmptyString
  /\ token example_key (issued_store "abc" "plain") None
           example_iv example_iv' (example_t0 + 1000) (example_t0 + 1000)
           (example_redeem (Some EmptyString))
     = (issued_store "abc" "plain",
        ErrorResponse 400 "invalid_request" "code_verifier is required")
  /\ pkce_matches
       (example_authCode "47DEQpj8HBSa-_TImW-5JCeuQeRkm5NMpJWZG3hSuFU" "S256")
       "47DEQpj8HBSa-_TImW-5JCeuQeRkm5NMpJWZG3hSuFU" EmptyString
  /\ token example_key
           (issued_store "47DEQpj8HBSa-_TImW-5JCeuQeRkm5NMpJWZG3hSuFU" "S256")
           None example_iv example_iv' (example_t0 + 1000) (example_t0 + 1000)
           (example_redeem (Some EmptyString))
     = (issued_store "47DEQpj8HBSa-_TImW-5JCeuQeRkm5NMpJWZG3hSuFU" "S256",
        ErrorResponse 400 "invalid_request" "code_verifier is required").
Proof.
  split; [|split; [|split]].
  - vm_compute. discriminate.
  - vm_compute. reflexivity.
  - vm_compute. reflexivity.
  - vm_compute. reflexivity.
Qed.

(** * Single use of authorization codes *)

Section SingleUse.
Variable key : Buffer.

Lemma validate_client_error st cid cs err :
  validate_client st cid cs = Some err ->
  exists d, err = ErrorResponse 401 "invalid_client" d.
Proof.
  unfold validate_client. repeat case_match; intros [= <-]; eauto.
Qed.

Lemma check_code_error authCode cid req err :
  check_code authCode cid req = Some err ->
  exists e d, err = ErrorResponse 400 e d.
Proof.
  unfold check_code, check_pkce.
  repeat case_match; intros [= <-]; eauto.
Qed.

(** Tokens are only issued by the authorization_code grant after the code
    has been deleted. *)
Lemma token_issued_deletes st rf iva ivr now now' req st1 a tt e r sc :
  tr_grant_type req = Some "authorization_code" ->
  token key st rf iva ivr now now' req = (st1, TokenResponse a tt e r sc) ->
  truthy (tr_code req) = true
  /\ st1 = set_authorizationCodes (delete (str_of (tr_code req))) st.
Proof.
  intros Hg. unfold token.
  destruct (client_credentials req) as [cid cs].
  rewrite Hg, js_eq_refl.
  destruct (validate_client st cid cs) as [err|] eqn:Hval.
  { destruct (validate_client_error _ _ _ _ Hval) as [d ->].
    intros [= _ ?]. }
  destruct (truthy (tr_code req)); [|intros [= _ ?]].
  cbn [negb].
  destruct (authorizationCodes st !! _); [|intros [= _ ?]].
  destruct (check_code _ _ _) as [err|] eqn:Hchk.
  { destruct (check_code_error _ _ _ _ Hchk) as (e' & d & ->).
    intros [= _ ?]. }
  destruct (_ >? _)%Z; intros [= <- ?].
  split; reflexivity.
Qed.

(** A request for a code that is not in the store is refused, and the
    refusal is invalid_grant once the client has been validated. *)
Lemma token_code_absent st rf iva ivr now now' req c :
  tr_grant_type req = Some "authorization_code" ->
  tr_code req = Some c -> c <> EmptyString ->
  authorizationCodes st !! c = None ->
  token key st rf iva ivr now now' req
  = (st, match validate_client st (client_credentials req).1
                 (client_credentials req).2 with
         | Some err => err
         | None => ErrorResponse 400 "invalid_grant"
                     "Invalid or expired authorization code"
         end).
Proof.
  intros Hg Hc Hne Habs. unfold token.
  destruct (client_credentials req) as [cid cs]. cbn [fst snd].
  rewrite Hg, js_eq_refl.
  destruct (validate_client st cid cs); [reflexivity|].
  rewrite Hc, truthy_Some by exact Hne.
  change (str_of (Some c)) with c. rewrite Habs. reflexivity.
Qed.

End SingleUse.

(** C2.  After a successful redemption of a code by the authorization_code
    grant the code is gone from the store, and it stays gone through any later
    requests as long as no callback draws the same code again.  Every later
    authorization_code request for it is refused and changes nothing; the
    refusal is invalid_grant as soon as the request passes client validation
    (an unknown client or a wrong secret is refused earlier, with
    invalid_client). *)
Theorem code_single_use (URL_parse : string -> option URL) (key : Buffer)
        (st st1 : store) (c : string)
        (rf1 : option QBToken) (iva1 ivr1 : Buffer) (now1 now1' : Z)
        (req1 : TokenRequest) (a tt : string) (e : Z) (r sc : string)
        (evs : list event)
        (rf2 : option QBToken) (iva2 ivr2 : Buffer) (now2 now2' : Z)
        (req2 : TokenRequest) :
  tr_grant_type req1 = Some "authorization_code" ->
  tr_code req1 = Some c ->
  token key st rf1 iva1 ivr1 now1 now1' req1 = (st1, TokenResponse a tt e r sc) ->
  Forall (fun ev => ~ mints c ev) evs ->
  tr_grant_type req2 = Some "authorization_code" ->
  tr_code req2 = Some c ->
  authorizationCodes st1 !! c = None
  /\ (exists status err d,
         token key (run URL_parse key st1 evs) rf2 iva2 ivr2 now2 now2' req2
         = (run URL_parse key st1 evs, ErrorResponse status err d)
         /\ (status = 401%Z /\ err = "invalid_client"
             \/ status = 400%Z /\ err = "invalid_grant"))
  /\ (validate_client (run URL_parse key st1 evs)
        (client_credentials req2).1 (client_credentials req2).2 = None ->
      token key (run URL_parse key st1 evs) rf2 iva2 ivr2 now2 now2' req2
      = (run URL_parse key st1 evs,
         ErrorResponse 400 "invalid_grant"
           "Invalid or expired authorization code")).
Proof.
  intros Hg1 Hc1 Hok Hfresh Hg2 Hc2.
  destruct (token_issued_deletes key _ _ _ _ _ _ _ _ _ _ _ _ _ Hg1 Hok)
    as [Htruthy ->].
  rewrite Hc1 in Htruthy |- *. change (str_of (Some c)) with c.
  assert (Hne : c <> EmptyString).
  { apply truthy_inv in Htruthy as (s & [= <-] & Hs). exact Hs. }
  assert (Hgone : authorizationCodes
                    (set_authorizationCodes (delete c) st) !! c = None)
    by apply lookup_delete_eq.
  pose proof (run_code_absent URL_parse key evs _ c Hfresh Hgone) as Habs.
  pose proof (token_code_absent key _ rf2 iva2 ivr2 now2 now2' req2 c
                Hg2 Hc2 Hne Habs) as Htok.
  split; [exact Hgone|]. split.
  - rewrite Htok.
    destruct (validate_client _ _ _) as [err|] eqn:Hval.
    + destruct (validate_client_error _ _ _ _ Hval) as [d ->].
      eexists _, _, _. split; [reflexivity|]. left. split; reflexivity.
    + eexists _, _, _. split; [reflexivity|]. right. split; reflexivity.
  - intros Hval. rewrite Htok, Hval. reflexivity.
Qed.

Lemma code_single_use_witness :
  token example_key
        (run example_URL_parse example_key (fst example_redeemed)
             example_later_events)
        None example_iv example_iv' (example_t0 + 9000) (example_t0 + 9000)
        (example_redeem (Some example_verifier))
  = (run example_URL_parse example_key (fst example_redeemed)
         example_later_events,
     ErrorResponse 400 "invalid_grant" "Invalid or expired authorization code").
Proof.
  refine (proj2 (proj2 (code_single_use example_URL_parse example_key
                          (issued_store example_challenge "S256")
                          (fst example_redeemed) example_code
                          None example_iv example_iv'
                          (example_t0 + 1000) (example_t0 + 1000)
                          (example_redeem (Some example_verifier))
                          _ _ _ _ _ example_later_events
                          None example_iv example_iv'
                          (example_t0 + 9000) (example_t0 + 9000)
                          (example_redeem (Some example_verifier))
                          eq_refl eq_refl _ _ eq_refl eq_refl)) _).
  - vm_compute. reflexivity.
  - repeat constructor; intros H; vm_compute in H; try discriminate H;
      exact H.
  - vm_compute. reflexivity.
Defined.

(** * Failed redemptions *)

Section FailedRedemption.
Variable key : Buffer.

Lemma issue_tokens_issued (iva ivr : Buffer) (cid : string)
      (realm access refresh : option string) (now : Z) (scope : string) :
  length key = 32 -> length iva = 16 -> length ivr = 16 ->
  exists a r,
    issue_tokens key iva ivr cid realm access refresh now scope
    = TokenResponse a "Bearer" TOKEN_EXPIRY_SECONDS r scope.
Proof.
  intros Hk Ha Hr. unfold issue_tokens.
  destruct (encrypt_decrypt key iva
              (mint_payload "access" cid realm access refresh now
                            (TOKEN_EXPIRY_SECONDS * 1000)) Hk Ha)
    as (a & -> & _).
  destruct (encrypt_decrypt key ivr
              (mint_payload "refresh" cid realm access refresh now
                            REFRESH_EXPIRY_MS) Hk Hr)
    as (r & -> & _).
  eauto.
Qed.

(** What the stateless token endpoint does to the code store, by
    response. *)
Lemma token_code_store st rf iva ivr now now' req st' resp :
  length key = 32 -> length iva = 16 -> length ivr = 16 ->
  token key st rf iva ivr now now' req = (st', resp) ->
  st' = st
  \/ st' = set_authorizationCodes (delete (str_of (tr_code req))) st
     /\ tr_grant_type req = Some "authorization_code"
     /\ (resp = ErrorResponse 400 "invalid_grant"
                  "Authorization code has expired"
         \/ exists a r sc,
             resp = TokenResponse a "Bearer" TOKEN_EXPIRY_SECONDS r sc).
Proof.
  intros Hk Ha Hr. unfold token.
  destruct (client_credentials req) as [cid cs].
  destruct (js_eq (tr_grant_type req) (Some "authorization_code")) eqn:Hg.
  - apply bool_decide_eq_true_1 in Hg.
    repeat case_match; intros [= <- <-]; auto;
      right; (split; [reflexivity|]); (split; [exact Hg|]); auto.
    all: right;
      match goal with
      | |- context [issue_tokens _ ?i ?j ?c ?x ?y ?z ?n ?sc] =>
          destruct (issue_tokens_issued i j c x y z n sc Hk Ha Hr)
            as (a' & r' & ->)
      end;
      eauto.
  - repeat case_match; intros [= <- <-]; auto.
Qed.

(** The same for the in-memory variant, on the code store alone. *)
Lemma in_memory_token_code_store st rf ab rb now now' req st' resp :
  InMemory.token st rf ab rb now now' req = (st', resp) ->
  authorizationCodes st' = authorizationCodes st
  \/ authorizationCodes st'
     = delete (str_of (tr_code req)) (authorizationCodes st)
     /\ tr_grant_type req = Some "authorization_code"
     /\ (resp = ErrorResponse 400 "invalid_grant"
                  "Authorization code has expired"
         \/ exists a r sc,
             resp = TokenResponse a "Bearer" TOKEN_EXPIRY_SECONDS r sc).
Proof.
  unfold InMemory.token.
  destruct (client_credentials req) as [cid cs].
  destruct (validate_client st cid cs); [intros [= <- <-]; auto|].
  destruct (js_eq (tr_grant_type req) (Some "authorization_code")) eqn:Hg.
  - apply bool_decide_eq_true_1 in Hg.
    repeat case_match; intros [= <- <-]; auto;
      right; (split; [reflexivity|]); (split; [exact Hg|]); eauto.
  - repeat case_match; intros [= <- <-]; auto.
Qed.

Lemma in_memory_token_refused st rf ab rb now now' req authCode err :
  tr_grant_type req = Some "authorization_code" ->
  validate_client st (client_credentials req).1 (client_credentials req).2
  = None ->
  truthy (tr_code req) = true ->
  authorizationCodes st !! str_of (tr_code req) = Some authCode ->
  check_code authCode (client_credentials req).1 req = Some err ->
  InMemory.token st rf ab rb now now' req = (st, err).
Proof.
  intros Hg Hv Hc Hl Hchk. unfold InMemory.token.
  destruct (client_credentials req) as [cid cs]. cbn [fst snd] in *.
  rewrite Hv, Hg, js_eq_refl, Hc, Hl, Hchk. reflexivity.
Qed.

Lemma token_refused st rf iva ivr now now' req authCode err :
  tr_grant_type req = Some "authorization_code" ->
  validate_client st (client_credentials req).1 (client_credentials req).2
  = None ->
  truthy (tr_code req) = true ->
  authorizationCodes st !! str_of (tr_code req) = Some authCode ->
  check_code authCode (client_credentials req).1 req = Some err ->
  token key st rf iva ivr now now' req = (st, err).
Proof.
  intros Hg Hv Hc Hl Hchk. unfold token.
  destruct (client_credentials req) as [cid cs]. cbn [fst snd] in *.
  rewrite Hg, js_eq_refl, Hv, Hc, Hl, Hchk. reflexivity.
Qed.

End FailedRedemption.

(** C10.  In both variants of the token endpoint, an authorization_code
    request that names a stored code and fails the client_id ownership check,
    the redirect_uri match or the PKCE check is refused with the store left
    exactly as it was; so a later request is served as if the refused one had
    not been made, and a later correct request before expiry still redeems the
    code.  Over all requests, the code store changes only by the deletion of
    the named code, and only together with the expiry refusal or the issue of
    tokens. *)
Theorem failed_redemption_keeps_code (key : Buffer) (st : store)
        (req : TokenRequest) (authCode : AuthorizationCode) (err : response)
        (rf : option QBToken) (iva ivr ab rb : Buffer) (now now' : Z) :
  length key = 32 ->
  tr_grant_type req = Some "authorization_code" ->
  validate_client st (client_credentials req).1 (client_credentials req).2
  = None ->
  truthy (tr_code req) = true ->
  authorizationCodes st !! str_of (tr_code req) = Some authCode ->
  check_code authCode (client_credentials req).1 req = Some err ->
  token key st rf iva ivr now now' req = (st, err)
  /\ InMemory.token st rf ab rb now now' req = (st, err)
  /\ (forall rf2 iva2 ivr2 now2 now2' req2 authCode2,
         reaches_pkce st req2 authCode2 ->
         check_pkce authCode2 (tr_code_verifier req2) = None ->
         (now2 <= ac_expires_at authCode2)%Z ->
         length iva2 = 16 -> length ivr2 = 16 ->
         exists a r sc,
           token key (fst (token key st rf iva ivr now now' req))
                 rf2 iva2 ivr2 now2 now2' req2
           = (set_authorizationCodes (delete (str_of (tr_code req2))) st,
              TokenResponse a "Bearer" TOKEN_EXPIRY_SECONDS r sc))
  /\ (forall rf2 ab2 rb2 now2 now2' req2,
         InMemory.token (fst (InMemory.token st rf ab rb now now' req))
                        rf2 ab2 rb2 now2 now2' req2
         = InMemory.token st rf2 ab2 rb2 now2 now2' req2)
  /\ (forall s rf2 iva2 ivr2 now2 now2' req2 s' resp,
         length iva2 = 16 -> length ivr2 = 16 ->
         token key s rf2 iva2 ivr2 now2 now2' req2 = (s', resp) ->
         s' = s
         \/ s' = set_authorizationCodes (delete (str_of (tr_code req2))) s
            /\ tr_grant_type req2 = Some "authorization_code"
            /\ (resp = ErrorResponse 400 "invalid_grant"
                         "Authorization code has expired"
                \/ exists a r sc,
                    resp = TokenResponse a "Bearer" TOKEN_EXPIRY_SECONDS r sc))
  /\ (forall s rf2 ab2 rb2 now2 now2' req2 s' resp,
         InMemory.token s rf2 ab2 rb2 now2 now2' req2 = (s', resp) ->
         authorizationCodes s' = authorizationCodes s
         \/ authorizationCodes s'
            = delete (str_of (tr_code req2)) (authorizationCodes s)
            /\ tr_grant_type req2 = Some "authorization_code"
            /\ (resp = ErrorResponse 400 "invalid_grant"
                         "Authorization code has expired"
                \/ exists a r sc,
                    resp = TokenResponse a "Bearer" TOKEN_EXPIRY_SECONDS r sc)).
Proof.
  intros Hk Hg Hv Hc Hl Hchk.
  pose proof (token_refused key st rf iva ivr now now' req authCode err
                Hg Hv Hc Hl Hchk) as Hs.
  pose proof (in_memory_token_refused st rf ab rb now now' req authCode err
                Hg Hv Hc Hl Hchk) as Hm.
  rewrite Hs, Hm. cbn [fst].
  repeat split; try reflexivity.
  - intros rf2 iva2 ivr2 now2 now2' req2 authCode2 Hreach Hpkce Hexp Ha Hr.
    rewrite (token_reaches_pkce key st req2 authCode2 rf2 iva2 ivr2 now2 now2'
               Hreach), Hpkce.
    unfold redeem.
    destruct (Z.gtb_spec now2 (ac_expires_at authCode2)); [lia|].
    match goal with
    | |- context [issue_tokens _ ?i ?j ?c ?x ?y ?z ?n ?sc] =>
        destruct (issue_tokens_issued key i j c x y z n sc Hk Ha Hr)
          as (a' & r' & ->)
    end.
    eauto.
  - intros s rf2 iva2 ivr2 now2 now2' req2 s' resp Ha Hr.
    apply token_code_store; assumption.
  - intros s rf2 ab2 rb2 now2 now2' req2 s' resp.
    apply in_memory_token_code_store.
Qed.

Lemma failed_redemption_keeps_code_witness :
  token example_key (issued_store example_challenge "S256") None
        example_iv example_iv' (example_t0 + 1000) (example_t0 + 1000)
        (example_redeem (Some "not-the-verifier"))
  = (issued_store example_challenge "S256",
     ErrorResponse 400 "invalid_grant" "Invalid code_verifier")
  /\ exists a r sc,
      token example_key
            (fst (token example_key (issued_store example_challenge "S256")
                        None example_iv example_iv'
                        (example_t0 + 1000) (example_t0 + 1000)
                        (example_redeem (Some "not-the-verifier"))))
            None example_iv example_iv' (example_t0 + 2000) (example_t0 + 2000)
            (example_redeem (Some example_verifier))
      = (set_authorizationCodes (delete example_code)
           (issued_store example_challenge "S256"),
         TokenResponse a "Bearer" TOKEN_EXPIRY_SECONDS r sc).
Proof.
  pose proof (failed_redemption_keeps_code example_key
                (issued_store example_challenge "S256")
                (example_redeem (Some "not-the-verifier"))
                (example_authCode example_challenge "S256")
                (ErrorResponse 400 "invalid_grant" "Invalid code_verifier")
                None example_iv example_iv' example_iv example_iv'
                (example_t0 + 1000) (example_t0 + 1000)
                eq_refl eq_refl eq_refl eq_refl eq_refl eq_refl)
    as (H1 & _ & H3 & _).
  split; [exact H1|].
  refine (H3 None example_iv example_iv' (example_t0 + 2000)%Z
             (example_t0 + 2000)%Z (example_redeem (Some example_verifier))
             (example_authCode example_challenge "S256")
             (example_reaches_pkce _) eq_refl _ eq_refl eq_refl).
  vm_compute. discriminate.
Defined.

(** * Expiry *)

Section Expiry.
Variable key : Buffer.

Lemma decrypt_empty : decryptTokenPayload key EmptyString = None.
Proof. reflexivity. Qed.

Lemma decrypt_Some_nonempty (tok : string) (P : StatelessTokenPayload) :
  decryptTokenPayload key tok = Some P -> tok <> EmptyString.
Proof. intros Hdec ->. rewrite decrypt_empty in Hdec. discriminate. Qed.

Lemma validate_decrypted st now tok P :
  decryptTokenPayload key tok = Some P ->
  validateAccessToken key st now tok
  = (st,
     if negb (String.eqb (type_ P) "access") then None
     else if (now >? expires_at P)%Z then None
     else Some {| td_client_id := client_id P;
                  td_access_token := tok;
                  td_refresh_token := None;
                  td_expires_at := expires_at P;
                  td_realm_id := realm_id P;
                  td_qb_access_token := qb_access_token P;
                  td_qb_refresh_token := qb_refresh_token P |}).
Proof.
  intros Hdec. unfold validateAccessToken. rewrite Hdec.
  repeat case_match; reflexivity.
Qed.

(** The refresh_token grant on a token that decrypts. *)
Lemma refresh_decrypted st rf iva ivr now now' req tok P :
  tr_grant_type req = Some "refresh_token" ->
  tr_refresh_token req = Some tok ->
  decryptTokenPayload key tok = Some P ->
  token key st rf iva ivr now now' req
  = (st,
     let clientId := (client_credentials req).1 in
     if negb (String.eqb (type_ P) "refresh") then
       ErrorResponse 400 "invalid_grant" "Token is not a refresh token"
     else if (now >? expires_at P)%Z then
       ErrorResponse 400 "invalid_grant" "Refresh token has expired"
     else if truthy clientId && negb (js_eq (Some (client_id P)) clientId)
     then ErrorResponse 400 "invalid_grant"
            "Refresh token was not issued to this client"
     else
       let upstream :=
         if truthy (qb_refresh_token P) then
           match rf with
           | Some r => (Some (qb_tok_access_token r),
                        Some (qb_tok_refresh_token r))
           | None => (qb_access_token P, qb_refresh_token P)
           end
         else (qb_access_token P, qb_refresh_token P) in
       issue_tokens key iva ivr
         (if truthy clientId then str_of clientId else client_id P)
         (realm_id P) upstream.1 upstream.2 now' "quickbooks:accounting").
Proof.
  intros Hg Ht Hdec. unfold token.
  destruct (client_credentials req) as [cid cs]. cbn [fst snd].
  rewrite Hg.
  replace (js_eq (Some "refresh_token") (Some "authorization_code"))
    with false by reflexivity.
  rewrite js_eq_refl, Ht, truthy_Some
    by (eapply decrypt_Some_nonempty; exact Hdec).
  change (str_of (Some tok)) with tok. rewrite Hdec. cbn [negb].
  repeat case_match; simplify_eq; reflexivity.
Qed.

End Expiry.

(** C4 (as amended).  The three expiry checks compare with [>]: an access
    token, an authorization code and a refresh token are accepted at every
    time up to and including their [expires_at], and refused at every time
    after it. *)
Theorem expiry_boundary (key : Buffer) (st : store) (now now' : Z)
        (rf : option QBToken) (iva ivr : Buffer) :
  length key = 32 -> length iva = 16 -> length ivr = 16 ->
  (* access tokens *)
  (forall tok P,
      decryptTokenPayload key tok = Some P -> type_ P = "access" ->
      ((now <= expires_at P)%Z ->
       exists td, validateAccessToken key st now tok = (st, Some td)
                  /\ td_expires_at td = expires_at P
                  /\ td_qb_access_token td = qb_access_token P)
      /\ ((now > expires_at P)%Z ->
          validateAccessToken key st now tok = (st, None)))
  (* authorization codes *)
  /\ (forall req authCode,
         reaches_pkce st req authCode ->
         check_pkce authCode (tr_code_verifier req) = None ->
         ((now <= ac_expires_at authCode)%Z ->
          exists a r sc,
            token key st rf iva ivr now now' req
            = (set_authorizationCodes (delete (str_of (tr_code req))) st,
               TokenResponse a "Bearer" TOKEN_EXPIRY_SECONDS r sc))
         /\ ((now > ac_expires_at authCode)%Z ->
             token key st rf iva ivr now now' req
             = (set_authorizationCodes (delete (str_of (tr_code req))) st,
                ErrorResponse 400 "invalid_grant"
                  "Authorization code has expired")))
  (* refresh tokens *)
  /\ (forall req tok P,
         tr_grant_type req = Some "refresh_token" ->
         tr_refresh_token req = Some tok ->
         decryptTokenPayload key tok = Some P -> type_ P = "refresh" ->
         ((now <= expires_at P)%Z ->
          truthy (client_credentials req).1 = false
          \/ (client_credentials req).1 = Some (client_id P) ->
          exists a r,
            token key st rf iva ivr now now' req
            = (st, TokenResponse a "Bearer" TOKEN_EXPIRY_SECONDS r
                     "quickbooks:accounting"))
         /\ ((now > expires_at P)%Z ->
             token key st rf iva ivr now now' req
             = (st, ErrorResponse 400 "invalid_grant"
                      "Refresh token has expired"))).
Proof.
  intros Hk Ha Hr. split; [|split].
  - intros tok P Hdec Hty.
    rewrite (validate_decrypted key st now tok P Hdec), Hty.
    change (negb ("access" =? "access")%string) with false. cbv iota.
    split; intros Hnow.
    + destruct (Z.gtb_spec now (expires_at P)); [lia|].
      eexists. split; [reflexivity|]. split; reflexivity.
    + destruct (Z.gtb_spec now (expires_at P)); [reflexivity | lia].
  - intros req authCode Hreach Hpkce.
    rewrite (token_reaches_pkce key st req authCode rf iva ivr now now' Hreach),
      Hpkce.
    unfold redeem. split; intros Hnow.
    + destruct (Z.gtb_spec now (ac_expires_at authCode)); [lia|].
      match goal with
      | |- context [issue_tokens _ ?i ?j ?c ?x ?y ?z ?n ?sc] =>
          destruct (issue_tokens_issued key i j c x y z n sc Hk Ha Hr)
            as (a' & r' & ->)
      end.
      eauto.
    + destruct (Z.gtb_spec now (ac_expires_at authCode)); [reflexivity | lia].
  - intros req tok P Hg Ht Hdec Hty.
    rewrite (refresh_decrypted key st rf iva ivr now now' req tok P Hg Ht Hdec),
      Hty.
    change (negb ("refresh" =? "refresh")%string) with false. cbv iota zeta.
    split.
    + intros Hnow Hcid.
      destruct (Z.gtb_spec now (expires_at P)); [lia|].
      assert (Hchk : truthy (client_credentials req).1
                     && negb (js_eq (Some (client_id P))
                                    (client_credentials req).1) = false).
      { destruct Hcid as [-> | ->]; [reflexivity|].
        rewrite js_eq_refl. apply andb_false_r. }
      rewrite Hchk.
      match goal with
      | |- context [issue_tokens _ ?i ?j ?c ?x ?y ?z ?n ?sc] =>
          destruct (issue_tokens_issued key i j c x y z n sc Hk Ha Hr)
            as (a' & r' & ->)
      end.
      eauto.
    + intros Hnow.
      destruct (Z.gtb_spec now (expires_at P)); [reflexivity | lia].
Qed.

Lemma example_access_decrypts :
  decryptTokenPayload example_key example_access_token
  = Some example_access_payload.
Proof. vm_compute. reflexivity. Qed.

Lemma example_refresh_decrypts :
  decryptTokenPayload example_key example_refresh_token
  = Some example_refresh_payload.
Proof. vm_compute. reflexivity. Qed.

Lemma expiry_boundary_witness :
  (exists td,
      validateAccessToken example_key empty_store (example_t0 + 3600000)
                          example_access_token
      = (empty_store, Some td)
      /\ td_expires_at td = (example_t0 + 3600000)%Z
      /\ td_qb_access_token td = Some "qb-access")
  /\ validateAccessToken example_key empty_store (example_t0 + 3600001)
                         example_access_token
     = (empty_store, None).
Proof.
  destruct (proj1 (expiry_boundary example_key empty_store
                     (example_t0 + 3600000) example_t0 None
                     example_iv example_iv' eq_refl eq_refl eq_refl)
              example_access_token example_access_payload
              example_access_decrypts eq_refl) as [Hin _].
  destruct (proj1 (expiry_boundary example_key empty_store
                     (example_t0 + 3600001) example_t0 None
                     example_iv example_iv' eq_refl eq_refl eq_refl)
              example_access_token example_access_payload
              example_access_decrypts eq_refl) as [_ Hout].
  split.
  - apply Hin. vm_compute. discriminate.
  - apply Hout. vm_compute. reflexivity.
Defined.

(** C4 as stated fails at the boundary itself: at [expires_at] the access
    token still validates, the authorization code is still redeemed and the
    refresh token is still honoured. *)
Lemma expiry_boundary_counterexample :
  expires_at example_access_payload = (example_t0 + 3600000)%Z
  /\ snd (validateAccessToken example_key empty_store (example_t0 + 3600000)
                              example_access_token)
     = Some {| td_client_id := example_client;
               td_access_token := example_access_token;
               td_refresh_token := None;
               td_expires_at := example_t0 + 3600000;
               td_realm_id := Some "4620816365";
               td_qb_access_token := Some "qb-access";
               td_qb_refresh_token := Some "qb-refresh" |}
  /\ ac_expires_at (example_authCode example_challenge "S256")
     = (example_t0 + 600000)%Z
  /\ is_token_response
       (snd (token example_key (issued_store example_challenge "S256") None
                   example_iv example_iv'
                   (example_t0 + 600000) (example_t0 + 600000)
                   (example_redeem (Some example_verifier))))
     = true
  /\ expires_at example_refresh_payload = (example_t0 + 7776000000)%Z
  /\ is_token_response
       (snd (token example_key empty_store None example_iv example_iv'
                   (example_t0 + 7776000000) (example_t0 + 7776000000)
                   example_refresh))
     = true.
Proof. repeat split; vm_compute; reflexivity. Qed.

(** * Token kinds *)

(** C5.  For every token that decrypts to a payload: if the payload's type is
    not "refresh", the refresh_token grant refuses it with invalid_grant; if
    it is not "access", access-token validation returns nothing, and so no
    QuickBooks credentials are handed out.  Neither touches the store. *)
Theorem wrong_kind_rejected (key : Buffer) (st : store) (tok : string)
        (P : StatelessTokenPayload) :
  decryptTokenPayload key tok = Some P ->
  (type_ P <> "refresh" ->
   forall rf iva ivr now now' req,
     tr_grant_type req = Some "refresh_token" ->
     tr_refresh_token req = Some tok ->
     token key st rf iva ivr now now' req
     = (st, ErrorResponse 400 "invalid_grant" "Token is not a refresh token"))
  /\ (type_ P <> "access" ->
      forall now,
        validateAccessToken key st now tok = (st, None)
        /\ getQuickBooksCredentials key st now tok = (st, None)).
Proof.
  intros Hdec. split.
  - intros Hty rf iva ivr now now' req Hg Ht.
    rewrite (refresh_decrypted key st rf iva ivr now now' req tok P Hg Ht Hdec).
    destruct (String.eqb_spec (type_ P) "refresh"); [contradiction|].
    reflexivity.
  - intros Hty now.
    assert (Hval : validateAccessToken key st now tok = (st, None)).
    { rewrite (validate_decrypted key st now tok P Hdec).
      destruct (String.eqb_spec (type_ P) "access"); [contradiction|].
      reflexivity. }
    split; [exact Hval|].
    unfold getQuickBooksCredentials. rewrite Hval. reflexivity.
Qed.

Lemma wrong_kind_rejected_witness :
  token example_key empty_store None example_iv example_iv'
        (example_t0 + 1000) (example_t0 + 1000)
        (example_refresh_of example_access_token)
  = (empty_store,
     ErrorResponse 400 "invalid_grant" "Token is not a refresh token")
  /\ getQuickBooksCredentials example_key empty_store (example_t0 + 1000)
                              example_refresh_token
     = (empty_store, None).
Proof.
  split.
  - refine (proj1 (wrong_kind_rejected example_key empty_store
                     example_access_token example_access_payload
                     example_access_decrypts)
              _ None example_iv example_iv' _ _
              (example_refresh_of example_access_token) eq_refl eq_refl).
    vm_compute. discriminate.
  - refine (proj2 (proj2 (wrong_kind_rejected example_key empty_store
                            example_refresh_token example_refresh_payload
                            example_refresh_decrypts)
                     _ (example_t0 + 1000)%Z)).
    vm_compute. discriminate.
Defined.

(** * Token codec round trip *)




(** * Dynamic client registration *)

Section Registration.
Variable URL_parse : string -> option URL.

Lemma validate_redirect_uris_ok (uris : list string) :
  forallb (uri_allowed URL_parse) uris = true ->
  validate_redirect_uris URL_parse uris = None.
Proof.
  induction uris as [|uri uris IH]; cbn [forallb validate_redirect_uris];
    [reflexivity|].
  intros [Huri Hrest]%andb_true_iff. unfold uri_allowed in Huri.
  destruct (URL_parse uri) as [url|]; [|discriminate].
  destruct (String.eqb (hostname url) "localhost"),
    (String.eqb (hostname url) "127.0.0.1"),
    (String.eqb (protocol url) "https:");
    cbn in Huri |- *; try discriminate; apply IH, Hrest.
Qed.

Lemma validate_redirect_uris_refused (uris : list string) (uri : string) :
  In uri uris -> uri_allowed URL_parse uri = false ->
  exists d,
    validate_redirect_uris URL_parse uris
    = Some (ErrorResponse 400 "invalid_redirect_uri" d).
Proof.
  intros Hin Hbad.
  induction uris as [|u uris IH]; [destruct Hin|].
  cbn [validate_redirect_uris].
  destruct (URL_parse u) as [url|] eqn:Hu; [|eauto].
  destruct (negb _ && negb _) eqn:Hchk; [eauto|].
  destruct Hin as [-> | Hin]; [|apply IH, Hin].
  unfold uri_allowed in Hbad. rewrite Hu in Hbad.
  destruct (String.eqb (hostname url) "localhost"),
    (String.eqb (hostname url) "127.0.0.1"),
    (String.eqb (protocol url) "https:"); discriminate.
Qed.

Lemma register_accepts st uuid sb now req (uris : list string) :
  rr_redirect_uris req = UriArray uris -> uris <> [] ->
  forallb (uri_allowed URL_parse) uris = true ->
  exists reg,
    register URL_parse st uuid sb now req
    = (set_registeredClients (insert uuid reg) st, Created reg (now / 1000))
    /\ reg_client_id reg = uuid /\ reg_redirect_uris reg = uris.
Proof.
  intros Hreq Hne Hok. unfold register. rewrite Hreq.
  destruct uris as [|u uris]; [congruence|].
  rewrite (validate_redirect_uris_ok _ Hok).
  eexists. split; [reflexivity|]. split; reflexivity.
Qed.

Lemma register_refuses st uuid sb now req :
  rr_redirect_uris req = Missing
  \/ rr_redirect_uris req = NotAnArray
  \/ rr_redirect_uris req = UriArray []
  \/ (exists uris uri,
         rr_redirect_uris req = UriArray uris
         /\ In uri uris /\ uri_allowed URL_parse uri = false) ->
  exists e d,
    register URL_parse st uuid sb now req = (st, ErrorResponse 400 e d).
Proof.
  unfold register.
  intros [-> | [-> | [-> | (uris & uri & -> & Hin & Hbad)]]]; eauto.
  destruct (validate_redirect_uris_refused uris uri Hin Hbad) as [d Hd].
  destruct uris as [|u uris]; [destruct Hin|].
  rewrite Hd. eauto.
Qed.

End Registration.

(** C6.  Registration answers 400, and registers nothing, when
    [redirect_uris] is missing, not an array, empty, or contains a URI that
    does not parse or is neither a localhost/127.0.0.1 URL nor an https URL;
    a non-empty array of allowed URIs is answered 201 with the client id just
    drawn, under which the registration is stored.  With the protocol and
    hostname that [new URL] reports for them, ["http://example.com/cb"] is
    refused and ["http://localhost:4000/cb"] and
    ["https://app.example.com/cb"] are accepted. *)
Theorem dcr_redirect_uri_policy (URL_parse : string -> option URL)
        (st : store) (uuid : string) (sb : Buffer) (now : Z)
        (req : RegisterRequest) :
  (rr_redirect_uris req = Missing
   \/ rr_redirect_uris req = NotAnArray
   \/ rr_redirect_uris req = UriArray []
   \/ (exists uris uri,
          rr_redirect_uris req = UriArray uris
          /\ In uri uris /\ uri_allowed URL_parse uri = false) ->
   exists e d,
     register URL_parse st uuid sb now req = (st, ErrorResponse 400 e d))
  /\ (forall uris,
         rr_redirect_uris req = UriArray uris -> uris <> [] ->
         forallb (uri_allowed URL_parse) uris = true ->
         exists reg,
           register URL_parse st uuid sb now req
           = (set_registeredClients (insert uuid reg) st,
              Created reg (now / 1000))
           /\ reg_client_id reg = uuid /\ reg_redirect_uris reg = uris)
  /\ (URL_parse "http://example.com/cb"
      = Some {| protocol := "http:"; hostname := "example.com" |} ->
      rr_redirect_uris req = UriArray ["http://example.com/cb"] ->
      exists d,
        register URL_parse st uuid sb now req
        = (st, ErrorResponse 400 "invalid_redirect_uri" d))
  /\ (URL_parse "http://localhost:4000/cb"
      = Some {| protocol := "http:"; hostname := "localhost" |} ->
      rr_redirect_uris req = UriArray ["http://localhost:4000/cb"] ->
      exists reg,
        register URL_parse st uuid sb now req
        = (set_registeredClients (insert uuid reg) st, Created reg (now / 1000))
        /\ reg_client_id reg = uuid)
  /\ (URL_parse "https://app.example.com/cb"
      = Some {| protocol := "https:"; hostname := "app.example.com" |} ->
      rr_redirect_uris req = UriArray ["https://app.example.com/cb"] ->
      exists reg,
        register URL_parse st uuid sb now req
        = (set_registeredClients (insert uuid reg) st, Created reg (now / 1000))
        /\ reg_client_id reg = uuid).
Proof.
  split; [apply register_refuses|].
  split; [intros uris; apply register_accepts|].
  split; [|split].
  - intros Hurl Hreq. unfold register. rewrite Hreq.
    cbn [validate_redirect_uris]. rewrite Hurl. cbn. eauto.
  - intros Hurl Hreq.
    destruct (register_accepts URL_parse st uuid sb now req _ Hreq)
      as (reg & Hreg & Hid & _); [discriminate| |eauto].
    cbn [forallb]. unfold uri_allowed. rewrite Hurl. reflexivity.
  - intros Hurl Hreq.
    destruct (register_accepts URL_parse st uuid sb now req _ Hreq)
      as (reg & Hreg & Hid & _); [discriminate| |eauto].
    cbn [forallb]. unfold uri_allowed. rewrite Hurl. reflexivity.
Qed.

Lemma dcr_redirect_uri_policy_witness :
  (exists d,
      register example_URL_parse empty_store example_client [] example_t0
               (example_registration_of ["http://example.com/cb"])
      = (empty_store, ErrorResponse 400 "invalid_redirect_uri" d))
  /\ (exists reg,
         register example_URL_parse empty_store example_client [] example_t0
                  (example_registration_of ["http://localhost:4000/cb"])
         = (set_registeredClients (insert example_client reg) empty_store,
            Created reg (example_t0 / 1000))
         /\ reg_client_id reg = example_client)
  /\ (exists reg,
         register example_URL_parse empty_store example_client [] example_t0
                  (example_registration_of ["https://app.example.com/cb"])
         = (set_registeredClients (insert example_client reg) empty_store,
            Created reg (example_t0 / 1000))
         /\ reg_client_id reg = example_client).
Proof.
  split; [|split].
  - exact (proj1 (proj2 (proj2 (dcr_redirect_uri_policy example_URL_parse
             empty_store example_client [] example_t0
             (example_registration_of ["http://example.com/cb"])))) eq_refl eq_refl).
  - exact (proj1 (proj2 (proj2 (proj2 (dcr_redirect_uri_policy example_URL_parse
             empty_store example_client [] example_t0
             (example_registration_of ["http://localhost:4000/cb"]))))) eq_refl eq_refl).
  - exact (proj2 (proj2 (proj2 (proj2 (dcr_redirect_uri_policy example_URL_parse
             empty_store example_client [] example_t0
             (example_registration_of ["https://app.example.com/cb"]))))) eq_refl eq_refl).
Defined.

(** * Pending authorizations *)

Section Pending.
Variable URL_parse : string -> option URL.

Lemma callback_begin_missing st req :
  cb_state req = None
  \/ (exists s, cb_state req = Some s /\ pendingAuthorizations st !! s = None)
  ->
  callback_begin URL_parse st req = (st, inl invalid_state).
Proof.
  unfold callback_begin. intros [-> | (s & -> & ->)]; reflexivity.
Qed.

(** A stored entry is deleted before the handler first yields. *)
Lemma callback_begin_deletes st req s p :
  cb_state req = Some s -> pendingAuthorizations st !! s = Some p ->
  pendingAuthorizations (fst (callback_begin URL_parse st req))
  = delete s (pendingAuthorizations st)
  /\ snd (callback_begin URL_parse st req) <> inl invalid_state.
Proof.
  intros Hs Hp. unfold callback_begin. rewrite Hs, Hp.
  repeat case_match; split; try reflexivity; discriminate.
Qed.

Lemma callback_begin_consumes st req s :
  cb_state req = Some s ->
  pendingAuthorizations (fst (callback_begin URL_parse st req)) !! s = None.
Proof.
  intros Hs.
  destruct (pendingAuthorizations st !! s) as [p|] eqn:Hp.
  - destruct (callback_begin_deletes st req s p Hs Hp) as [-> _].
    apply lookup_delete_eq.
  - rewrite callback_begin_missing by eauto. exact Hp.
Qed.

Lemma callback_missing st ex cb now req :
  cb_state req = None
  \/ (exists s, cb_state req = Some s /\ pendingAuthorizations st !! s = None)
  ->
  callback URL_parse st ex cb now req = (st, invalid_state).
Proof.
  intros Hmiss. unfold callback.
  rewrite (callback_begin_missing st req Hmiss). reflexivity.
Qed.

(** A stored entry is deleted on every path of the handler. *)
Lemma callback_deletes st ex cb now req s p :
  cb_state req = Some s -> pendingAuthorizations st !! s = Some p ->
  pendingAuthorizations (fst (callback URL_parse st ex cb now req))
  = delete s (pendingAuthorizations st)
  /\ snd (callback URL_parse st ex cb now req) <> invalid_state.
Proof.
  intros Hs Hp.
  destruct (callback_begin_deletes st req s p Hs Hp) as [Hdel Hans].
  unfold callback.
  destruct (callback_begin URL_parse st req) as [st1 [r|p']];
    cbn [fst snd] in *.
  - split; [exact Hdel|]. intros ->. apply Hans. reflexivity.
  - rewrite callback_finish_pending. split; [exact Hdel|].
    unfold callback_finish. destruct ex; discriminate.
Qed.

Lemma callback_consumes st ex cb now req s :
  cb_state req = Some s ->
  pendingAuthorizations (fst (callback URL_parse st ex cb now req)) !! s
  = None.
Proof.
  intros Hs.
  destruct (pendingAuthorizations st !! s) as [p|] eqn:Hp.
  - destruct (callback_deletes st ex cb now req s p Hs Hp) as [-> _].
    apply lookup_delete_eq.
  - rewrite callback_missing by eauto. exact Hp.
Qed.

(** Every redirect of the callback goes to the redirect URI of the entry
    it consumed, and a state parameter on it is the client's own. *)
Lemma callback_redirects st ex cb now req st' loc :
  callback URL_parse st ex cb now req = (st', Redirect loc) ->
  exists s p params,
    cb_state req = Some s /\ pendingAuthorizations st !! s = Some p
    /\ loc = ClientRedirect (pa_redirect_uri p) params
    /\ forall x, In ("state", x) params -> pa_state p = Some x.
Proof.
  unfold callback, callback_begin, callback_finish, state_param.
  destruct (cb_state req) as [s|]; [|discriminate].
  destruct (pendingAuthorizations st !! s) as [p|] eqn:Hp; [|discriminate].
  intros Hcb. exists s, p.
  destruct (pa_state p) as [x0|] eqn:Hx;
    repeat case_match; simplify_eq;
    eexists; (split; [reflexivity|]); (split; [exact Hp|]);
    (split; [reflexivity|]);
    cbn; intros x Hin; rewrite ?Hx in *; cbn in *; intuition congruence.
Qed.

End Pending.

(** C7.  The callback reads and deletes the pending authorization of the
    received state in one synchronous step, before the handler first yields
    to other requests: on every path that finds the entry, the store no
    longer has it, at the [await] and when the handler ends.  For a state
    with no stored entry (none was sent, none is stored, or an earlier
    callback for the same state has run, be it only up to its [await]) the
    handler answers 400 "Invalid or expired authorization state", redirects
    nowhere and leaves the store as it is. *)
Theorem pending_one_shot (URL_parse : string -> option URL) (st : store)
        (ex : option QBToken) (cb : Buffer) (now : Z) (req : CallbackRequest) :
  (cb_state req = None
   \/ (exists s, cb_state req = Some s /\ pendingAuthorizations st !! s = None)
   ->
   callback URL_parse st ex cb now req
   = (st, SendText 400 "Invalid or expired authorization state"))
  /\ (forall s p,
         cb_state req = Some s -> pendingAuthorizations st !! s = Some p ->
         pendingAuthorizations (fst (callback_begin URL_parse st req))
         = delete s (pendingAuthorizations st)
         /\ pendingAuthorizations (fst (callback URL_parse st ex cb now req))
            = delete s (pendingAuthorizations st))
  /\ (forall ex2 cb2 now2 req2,
         cb_state req2 = cb_state req ->
         callback URL_parse (fst (callback_begin URL_parse st req))
                  ex2 cb2 now2 req2
         = (fst (callback_begin URL_parse st req),
            SendText 400 "Invalid or expired authorization state")
         /\ callback URL_parse (fst (callback URL_parse st ex cb now req))
                     ex2 cb2 now2 req2
            = (fst (callback URL_parse st ex cb now req),
               SendText 400 "Invalid or expired authorization state")).
Proof.
  split; [apply callback_missing|]. split.
  - intros s p Hs Hp. split.
    + apply (callback_begin_deletes URL_parse st req s p Hs Hp).
    + apply (callback_deletes URL_parse st ex cb now req s p Hs Hp).
  - intros ex2 cb2 now2 req2 Hsame.
    split; apply callback_missing;
      (destruct (cb_state req) as [s|] eqn:Hs; [right | left; exact Hsame]);
      exists s; (split; [exact Hsame|]).
    + apply callback_begin_consumes. exact Hs.
    + apply callback_consumes. exact Hs.
Qed.

Lemma pending_one_shot_witness :
  callback example_URL_parse
           (fst (callback example_URL_parse
                          (authorized_store example_challenge "S256")
                          (Some example_upstream) example_code_bytes
                          example_t0 example_callback))
           (Some example_upstream) example_code_bytes (example_t0 + 1)
           example_callback
  = (fst (callback example_URL_parse
                   (authorized_store example_challenge "S256")
                   (Some example_upstream) example_code_bytes
                   example_t0 example_callback),
     SendText 400 "Invalid or expired authorization state").
Proof.
  exact (proj2 (proj2 (proj2 (pending_one_shot example_URL_parse
                                (authorized_store example_challenge "S256")
                                (Some example_upstream) example_code_bytes
                                example_t0 example_callback))
                  (Some example_upstream) example_code_bytes
                  (example_t0 + 1)%Z example_callback eq_refl)).
Defined.

(** * The internal state of an authorization *)

Section InternalState.
Variable URL_parse : string -> option URL.

Lemma length_string_of_list_ascii (l : list ascii) :
  String.length (string_of_list_ascii l) = length l.
Proof. induction l as [|c l IH]; cbn; congruence. Qed.

(** A generated token has two hex digits for each byte drawn. *)
Lemma length_generateSecureToken (bytes : Buffer) :
  String.length (generateSecureToken bytes) = 2 * length bytes.
Proof.
  unfold generateSecureToken, hex_of. rewrite length_string_of_list_ascii.
  induction bytes as [|b bytes IH]; cbn [flat_map length app]; lia.
Qed.

(** A successful /authorize: the entry stored and the redirect sent. *)
Lemma authorize_success st sb req st' scope s :
  authorize URL_parse st sb req = (st', Redirect (UpstreamAuthorize scope s)) ->
  exists cid uri,
    ar_client_id req = Some cid /\ ar_redirect_uri req = Some uri
    /\ s = generateSecureToken sb
    /\ st' = set_pendingAuthorizations
               (insert s
                  {| pa_client_id := cid;
                     pa_redirect_uri := uri;
                     pa_state := ar_state req;
                     pa_code_challenge := ar_code_challenge req;
                     pa_code_challenge_method :=
                       Some (default "S256" (ar_code_challenge_method req));
                     pa_scope := ar_scope req |}) st.
Proof.
  unfold authorize.
  destruct (ar_client_id req) as [cid|], (ar_redirect_uri req) as [uri|];
    repeat case_match; intros [= <- <- <-]; simplify_eq;
    eexists _, _; repeat split; reflexivity.
Qed.


End InternalState.



(** * Pending authorizations and time *)

(** C9 (as amended).  A pending authorization created by /authorize carries
    no time stamp and no handler ever checks one: the entry stays in the
    store through any later requests, at any times, until a callback for its
    state token consumes it (or a later /authorize draws the same token
    again); whenever that callback arrives, the lookup succeeds. *)
Theorem pending_authorization_persists (URL_parse : string -> option URL)
        (key : Buffer) (st st' : store) (sb : Buffer) (req : AuthorizeRequest)
        (scope : list string) (s : string) (evs : list event)
        (ex : option QBToken) (cb : Buffer) (now : Z) (creq : CallbackRequest) :
  authorize URL_parse st sb req = (st', Redirect (UpstreamAuthorize scope s)) ->
  Forall (fun ev => ~ touches_state s ev) evs ->
  cb_state creq = Some s ->
  pendingAuthorizations (run URL_parse key st' evs) !! s
  = pendingAuthorizations st' !! s
  /\ is_Some (pendingAuthorizations (run URL_parse key st' evs) !! s)
  /\ snd (callback URL_parse (run URL_parse key st' evs) ex cb now creq)
     <> SendText 400 "Invalid or expired authorization state".
Proof.
  intros Hauth Hevs Hcs.
  destruct (authorize_success URL_parse st sb req st' scope s Hauth)
    as (cid & uri & _ & _ & _ & Hst').
  pose proof (run_pending_kept URL_parse key evs st' s Hevs) as Hkept.
  assert (Hin : is_Some (pendingAuthorizations st' !! s)).
  { rewrite Hst'. cbn. rewrite lookup_insert_eq. eauto. }
  split; [exact Hkept|]. rewrite Hkept. split; [exact Hin|].
  destruct Hin as [p Hp]. rewrite <- Hkept in Hp.
  apply (callback_deletes URL_parse _ ex cb now creq s p Hcs Hp).
Qed.

Lemma pending_authorization_persists_witness :
  is_Some (pendingAuthorizations
             (run example_URL_parse example_key
                  (authorized_store example_challenge "S256")
                  example_idle_events) !! example_internal_state)
  /\ snd (callback example_URL_parse
                   (run example_URL_parse example_key
                        (authorized_store example_challenge "S256")
                        example_idle_events)
                   (Some example_upstream) example_code_bytes
                   (example_t0 + 31536000000) example_callback)
     <> SendText 400 "Invalid or expired authorization state".
Proof.
  refine (proj2 (pending_authorization_persists example_URL_parse example_key
                   registered_store (authorized_store example_challenge "S256")
                   example_state_bytes
                   (example_authorize example_challenge "S256")
                   [scopes_Accounting] example_internal_state
                   example_idle_events
                   (Some example_upstream) example_code_bytes
                   (example_t0 + 31536000000) example_callback
                   eq_refl _ eq_refl)).
  repeat constructor; intros H; exact H.
Defined.

(** C9 as stated fails: for the pending authorization of the worked flow
    there is no time from which on the callback lookup fails. *)
Lemma pending_expiry_counterexample :
  snd (callback example_URL_parse
                (authorized_store example_challenge "S256")
                (Some example_upstream) example_code_bytes
                (example_t0 + 3153600000000) example_callback)
  = Redirect (ClientRedirect example_redirect
                [("code", example_code); ("state", "client-state-1")])
  /\ ~ exists T : Z,
        forall now : Z,
          (T <= now)%Z ->
          snd (callback example_URL_parse
                        (authorized_store example_challenge "S256")
                        (Some example_upstream) example_code_bytes now
                        example_callback)
          = SendText 400 "Invalid or expired authorization state".
Proof.
  split; [vm_compute; reflexivity|].
  intros [T Hfail]. specialize (Hfail T (Z.le_refl T)).
  vm_compute in Hfail. discriminate Hfail.
Qed.

(** * What an issued token stands for *)

Section GrantFacts.
Variable key : Buffer.

Lemma js_eq_true (a b : option string) : js_eq a b = true -> a = b.
Proof. apply bool_decide_eq_true_1. Qed.

Lemma validate_client_None st cid cs :
  validate_client st cid cs = None
  <-> exists id client,
        cid = Some id /\ registeredClients st !! id = Some client
        /\ (reg_token_endpoint_auth_method client = "none"
            \/ reg_client_secret client = cs).
Proof.
  unfold validate_client. split.
  - destruct cid as [id|]; [|discriminate].
    destruct (registeredClients st !! id) as [client|] eqn:Hc; [|discriminate].
    destruct (String.eqb_spec (reg_token_endpoint_auth_method client) "none")
      as [Hm|Hm]; cbn [negb andb].
    + intros _. exists id, client. auto.
    + destruct (js_eq (reg_client_secret client) cs) eqn:Hs; [|discriminate].
      intros _. exists id, client. apply js_eq_true in Hs. auto.
  - intros (id & client & -> & -> & Hok).
    destruct (String.eqb_spec (reg_token_endpoint_auth_method client) "none")
      as [Hm|Hm]; cbn [negb andb]; [reflexivity|].
    destruct Hok as [Hok | ->]; [contradiction|].
    rewrite js_eq_refl. reflexivity.
Qed.

Lemma check_pkce_None authCode cv :
  check_pkce authCode cv = None ->
  truthy (ac_code_challenge authCode) = true ->
  truthy cv = true
  /\ verifyCodeChallenge (str_of cv) (str_of (ac_code_challenge authCode))
       (ac_code_challenge_method authCode) = true.
Proof.
  unfold check_pkce. intros H Ht. rewrite Ht in H.
  destruct (truthy cv); [|discriminate]. cbn [negb] in H.
  destruct (verifyCodeChallenge _ _ _); [auto | discriminate].
Qed.

Lemma check_code_None authCode cid req :
  check_code authCode cid req = None ->
  cid = Some (ac_client_id authCode)
  /\ tr_redirect_uri req = Some (ac_redirect_uri authCode)
  /\ check_pkce authCode (tr_code_verifier req) = None.
Proof.
  unfold check_code.
  destruct (js_eq (Some (ac_client_id authCode)) cid) eqn:Hc; [|discriminate].
  destruct (js_eq (Some (ac_redirect_uri authCode)) (tr_redirect_uri req))
    eqn:Hr; [|discriminate].
  cbn [negb]. apply js_eq_true in Hc, Hr. auto.
Qed.

(** A token response of the authorization_code grant: the checks that were
    passed on the way to it. *)
Lemma token_issued_inv st rf iva ivr now now' req st1 a tt e r sc :
  tr_grant_type req = Some "authorization_code" ->
  token key st rf iva ivr now now' req = (st1, TokenResponse a tt e r sc) ->
  exists authCode,
    validate_client st (client_credentials req).1 (client_credentials req).2
    = None
    /\ truthy (tr_code req) = true
    /\ authorizationCodes st !! str_of (tr_code req) = Some authCode
    /\ check_code authCode (client_credentials req).1 req = None
    /\ (now <= ac_expires_at authCode)%Z
    /\ st1 = set_authorizationCodes (delete (str_of (tr_code req))) st
    /\ issue_tokens key iva ivr (str_of (client_credentials req).1)
         (ac_realm_id authCode) (ac_qb_access_token authCode)
         (ac_qb_refresh_token authCode) now'
         (if truthy (ac_scope authCode) then str_of (ac_scope authCode)
          else "quickbooks:accounting")
       = TokenResponse a tt e r sc.
Proof.
  intros Hg. unfold token.
  destruct (client_credentials req) as [cid cs]. cbn [fst snd].
  rewrite Hg, js_eq_refl.
  destruct (validate_client st cid cs) as [err|] eqn:Hv.
  { destruct (validate_client_error _ _ _ _ Hv) as [d ->]. discriminate. }
  destruct (truthy (tr_code req)); [|discriminate]. cbn [negb].
  destruct (authorizationCodes st !! str_of (tr_code req)) as [authCode|];
    [|discriminate].
  destruct (check_code authCode cid req) as [err|] eqn:Hc.
  { destruct (check_code_error _ _ _ _ Hc) as (x & d & ->). discriminate. }
  destruct (Z.gtb_spec now (ac_expires_at authCode)); [discriminate|].
  intros [= <- Hi]. exists authCode. repeat split; auto.
Qed.

Lemma issue_tokens_inv iva ivr cid realm access refresh now scope a tt e r sc :
  issue_tokens key iva ivr cid realm access refresh now scope
  = TokenResponse a tt e r sc ->
  encryptTokenPayload key iva
    (mint_payload "access" cid realm access refresh now
                  (TOKEN_EXPIRY_SECONDS * 1000)) = Some a
  /\ encryptTokenPayload key ivr
       (mint_payload "refresh" cid realm access refresh now
                     REFRESH_EXPIRY_MS) = Some r
  /\ tt = "Bearer" /\ e = TOKEN_EXPIRY_SECONDS /\ sc = scope.
Proof.
  unfold issue_tokens.
  destruct (encryptTokenPayload key iva _) as [a'|]; [|discriminate].
  destruct (encryptTokenPayload key ivr _) as [r'|]; [|discriminate].
  intros [= <- <- <- <- <-]. auto.
Qed.

(** A token made with a 16-byte iv decrypts to its payload. *)
Lemma encrypted_decrypts iv P tok :
  length iv = 16 ->
  encryptTokenPayload key iv P = Some tok ->
  decryptTokenPayload key tok = Some P.
Proof.
  intros Hiv Henc.
  assert (Hkey : length key = 32).
  { unfold encryptTokenPayload, GCM.encrypt in Henc.
    destruct (Nat.eqb_spec (length key) 32); [assumption | discriminate]. }
  destruct (encrypt_decrypt key iv P Hkey Hiv) as (tok' & Henc' & Hdec).
  congruence.
Qed.

End GrantFacts.

(** X1.  A token response of the authorization_code grant is given only to
    a request that names a stored code, comes from the registered client the
    code was issued to (with the secret of that client, unless its method is
    "none"), sends the redirect URI of the code, passes PKCE whenever the
    code has a challenge, and arrives no later than the expiry of the code;
    the code is then deleted from the store. *)
Theorem code_grant_sound (key : Buffer) (st st1 : store)
        (rf : option QBToken) (iva ivr : Buffer) (now now' : Z)
        (req : TokenRequest) (a tt : string) (e : Z) (r sc : string) :
  tr_grant_type req = Some "authorization_code" ->
  token key st rf iva ivr now now' req = (st1, TokenResponse a tt e r sc) ->
  exists authCode client,
    authorizationCodes st !! str_of (tr_code req) = Some authCode
    /\ (client_credentials req).1 = Some (ac_client_id authCode)
    /\ registeredClients st !! ac_client_id authCode = Some client
    /\ (reg_token_endpoint_auth_method client = "none"
        \/ reg_client_secret client = (client_credentials req).2)
    /\ tr_redirect_uri req = Some (ac_redirect_uri authCode)
    /\ (truthy (ac_code_challenge authCode) = true ->
        truthy (tr_code_verifier req) = true
        /\ verifyCodeChallenge (str_of (tr_code_verifier req))
             (str_of (ac_code_challenge authCode))
             (ac_code_challenge_method authCode) = true)
    /\ (now <= ac_expires_at authCode)%Z
    /\ st1 = set_authorizationCodes (delete (str_of (tr_code req))) st.
Proof.
  intros Hg Htok.
  destruct (token_issued_inv key _ _ _ _ _ _ _ _ _ _ _ _ _ Hg Htok)
    as (authCode & Hv & _ & Hl & Hc & Hexp & Hst & _).
  apply check_code_None in Hc as (Hcid & Hru & Hpk).
  apply validate_client_None in Hv as (id & client & Hid & Hreg & Hsec).
  rewrite Hcid in Hid. injection Hid as <-.
  exists authCode, client. repeat split; auto;
    apply (check_pkce_None _ _ Hpk); assumption.
Qed.

Lemma code_grant_sound_witness :
  exists authCode client,
    authorizationCodes (issued_store example_challenge "S256")
      !! str_of (tr_code (example_redeem (Some example_verifier)))
    = Some authCode
    /\ (client_credentials (example_redeem (Some example_verifier))).1
       = Some (ac_client_id authCode)
    /\ registeredClients (issued_store example_challenge "S256")
         !! ac_client_id authCode = Some client
    /\ (reg_token_endpoint_auth_method client = "none"
        \/ reg_client_secret client
           = (client_credentials (example_redeem (Some example_verifier))).2)
    /\ tr_redirect_uri (example_redeem (Some example_verifier))
       = Some (ac_redirect_uri authCode)
    /\ (truthy (ac_code_challenge authCode) = true ->
        truthy (tr_code_verifier (example_redeem (Some example_verifier)))
        = true
        /\ verifyCodeChallenge
             (str_of (tr_code_verifier (example_redeem (Some example_verifier))))
             (str_of (ac_code_challenge authCode))
             (ac_code_challenge_method authCode) = true)
    /\ (example_t0 + 1000 <= ac_expires_at authCode)%Z
    /\ fst example_redeemed
       = set_authorizationCodes
           (delete (str_of (tr_code (example_redeem (Some example_verifier)))))
           (issued_store example_challenge "S256").
Proof.
  apply (code_grant_sound example_key (issued_store example_challenge "S256")
           (fst example_redeemed) None example_iv example_iv'
           (example_t0 + 1000) (example_t0 + 1000)
           (example_redeem (Some example_verifier))
           example_issued_access "Bearer" 3600 example_issued_refresh
           "quickbooks:accounting");
    [reflexivity | vm_compute; reflexivity].
Defined.

Section IssuedTokens.
Variable key : Buffer.

Lemma access_payload_validates st t tok cid realm access refresh now :
  decryptTokenPayload key tok
  = Some (mint_payload "access" cid realm access refresh now
                       (TOKEN_EXPIRY_SECONDS * 1000)) ->
  validateAccessToken key st t tok
  = (st, if (t >? now + 3600000)%Z then None
         else Some {| td_client_id := cid;
                      td_access_token := tok;
                      td_refresh_token := None;
                      td_expires_at := now + 3600000;
                      td_realm_id := realm;
                      td_qb_access_token := access;
                      td_qb_refresh_token := refresh |}).
Proof.
  intros Hdec. rewrite (validate_decrypted key st t tok _ Hdec).
  reflexivity.
Qed.

Lemma access_payload_credentials st t tok cid realm access refresh now :
  decryptTokenPayload key tok
  = Some (mint_payload "access" cid realm access refresh now
                       (TOKEN_EXPIRY_SECONDS * 1000)) ->
  getQuickBooksCredentials key st t tok
  = (st, if (t >? now + 3600000)%Z then None
         else if truthy realm && truthy access
              then Some {| realmId := str_of realm;
                           accessToken := str_of access;
                           refreshToken := refresh |}
              else None).
Proof.
  intros Hdec. unfold getQuickBooksCredentials.
  rewrite (access_payload_validates st t tok _ _ _ _ _ Hdec).
  destruct (t >? now + 3600000)%Z; [reflexivity|]. cbn.
  destruct (truthy realm && truthy access); reflexivity.
Qed.

End IssuedTokens.

(** X2.  The access token issued by the authorization_code grant validates,
    in any store and at every time up to 3600 seconds after it was stamped,
    to the client and the upstream credentials of the redeemed code, and to
    nothing after that.  [getQuickBooksCredentials] gives the realm and the
    upstream tokens of the code when the realm and the upstream access token
    are non-empty. *)
Theorem issued_access_token_validates (key : Buffer) (st st1 : store)
        (rf : option QBToken) (iva ivr : Buffer) (now now' : Z)
        (req : TokenRequest) (a tt : string) (e : Z) (r sc : string) :
  length iva = 16 ->
  tr_grant_type req = Some "authorization_code" ->
  token key st rf iva ivr now now' req = (st1, TokenResponse a tt e r sc) ->
  exists authCode,
    authorizationCodes st !! str_of (tr_code req) = Some authCode
    /\ forall (st2 : store) (t : Z),
        validateAccessToken key st2 t a
        = (st2,
           if (t >? now' + 3600000)%Z then None
           else Some {| td_client_id := ac_client_id authCode;
                        td_access_token := a;
                        td_refresh_token := None;
                        td_expires_at := now' + 3600000;
                        td_realm_id := ac_realm_id authCode;
                        td_qb_access_token := ac_qb_access_token authCode;
                        td_qb_refresh_token := ac_qb_refresh_token authCode |})
        /\ getQuickBooksCredentials key st2 t a
           = (st2,
              if (t >? now' + 3600000)%Z then None
              else if truthy (ac_realm_id authCode)
                      && truthy (ac_qb_access_token authCode)
                   then Some {| realmId := str_of (ac_realm_id authCode);
                                accessToken :=
                                  str_of (ac_qb_access_token authCode);
                                refreshToken := ac_qb_refresh_token authCode |}
                   else None).
Proof.
  intros Hiv Hg Htok.
  destruct (token_issued_inv key _ _ _ _ _ _ _ _ _ _ _ _ _ Hg Htok)
    as (authCode & _ & _ & Hl & Hc & _ & _ & Hi).
  apply check_code_None in Hc as (Hcid & _ & _).
  rewrite Hcid in Hi. change (str_of (Some ?x)) with x in Hi.
  apply issue_tokens_inv in Hi as (Ha & _).
  apply (encrypted_decrypts key _ _ _ Hiv) in Ha.
  exists authCode. split; [exact Hl|]. intros st2 t. split.
  - exact (access_payload_validates key st2 t a _ _ _ _ _ Ha).
  - exact (access_payload_credentials key st2 t a _ _ _ _ _ Ha).
Qed.

Lemma issued_access_token_validates_witness :
  exists authCode,
    authorizationCodes (issued_store example_challenge "S256")
      !! str_of (tr_code (example_redeem (Some example_verifier)))
    = Some authCode
    /\ forall (st2 : store) (t : Z),
        validateAccessToken example_key st2 t example_issued_access
        = (st2,
           if (t >? example_t0 + 1000 + 3600000)%Z then None
           else Some {| td_client_id := ac_client_id authCode;
                        td_access_token := example_issued_access;
                        td_refresh_token := None;
                        td_expires_at := example_t0 + 1000 + 3600000;
                        td_realm_id := ac_realm_id authCode;
                        td_qb_access_token := ac_qb_access_token authCode;
                        td_qb_refresh_token := ac_qb_refresh_token authCode |})
        /\ getQuickBooksCredentials example_key st2 t example_issued_access
           = (st2,
              if (t >? example_t0 + 1000 + 3600000)%Z then None
              else if truthy (ac_realm_id authCode)
                      && truthy (ac_qb_access_token authCode)
                   then Some {| realmId := str_of (ac_realm_id authCode);
                                accessToken :=
                                  str_of (ac_qb_access_token authCode);
                                refreshToken := ac_qb_refresh_token authCode |}
                   else None).
Proof.
  apply (issued_access_token_validates example_key
           (issued_store example_challenge "S256")
           (fst example_redeemed) None example_iv example_iv'
           (example_t0 + 1000) (example_t0 + 1000)
           (example_redeem (Some example_verifier))
           example_issued_access "Bearer" 3600 example_issued_refresh
           "quickbooks:accounting");
    [reflexivity | reflexivity | vm_compute; reflexivity].
Defined.

Section RefreshFacts.
Variable key : Buffer.

(** The refresh_token grant on a refresh token of this server that has not
    expired, presented with the client id it was issued to or with none. *)
Lemma refresh_payload_refreshes st rf iva ivr t t' req tok cid realm access
      refresh now :
  tr_grant_type req = Some "refresh_token" ->
  tr_refresh_token req = Some tok ->
  decryptTokenPayload key tok
  = Some (mint_payload "refresh" cid realm access refresh now
                       REFRESH_EXPIRY_MS) ->
  truthy (client_credentials req).1 = false
  \/ (client_credentials req).1 = Some cid ->
  (t <= now + REFRESH_EXPIRY_MS)%Z ->
  token key st rf iva ivr t t' req
  = (st, issue_tokens key iva ivr cid realm
           (if truthy refresh then
              match rf with
              | Some x => Some (qb_tok_access_token x)
              | None => access
              end
            else access)
           (if truthy refresh then
              match rf with
              | Some x => Some (qb_tok_refresh_token x)
              | None => refresh
              end
            else refresh)
           t' "quickbooks:accounting").
Proof.
  intros Hg Ht Hdec Hcid Hexp.
  rewrite (refresh_decrypted key st rf iva ivr t t' req tok _ Hg Ht Hdec).
  cbn [type_ expires_at client_id realm_id qb_access_token qb_refresh_token
       mint_payload String.eqb Ascii.eqb Bool.eqb negb].
  destruct (Z.gtb_spec t (now + REFRESH_EXPIRY_MS)); [lia|].
  f_equal.
  destruct Hcid as [Hno | Hsame].
  - rewrite Hno. cbn [andb].
    destruct (truthy refresh); [destruct rf|]; reflexivity.
  - rewrite Hsame, js_eq_refl. rewrite andb_false_r.
    destruct (truthy (Some cid)); cbn [str_of];
      (destruct (truthy refresh); [destruct rf|]); reflexivity.
Qed.

End RefreshFacts.

(** X3.  The refresh token issued by the authorization_code grant is
    accepted by the refresh_token grant in any store, as often as it is
    presented, at every time up to 90 days after it was stamped, with the
    client id of the code or with none.  The new tokens carry the client and
    the realm of the code; their upstream tokens are the ones just obtained
    when the code has an upstream refresh token and the upstream refresh
    succeeded, and the ones of the code otherwise. *)
Theorem issued_refresh_token_refreshes (key : Buffer) (st st1 : store)
        (rf : option QBToken) (iva ivr : Buffer) (now now' : Z)
        (req : TokenRequest) (a tt : string) (e : Z) (r sc : string) :
  length ivr = 16 ->
  tr_grant_type req = Some "authorization_code" ->
  token key st rf iva ivr now now' req = (st1, TokenResponse a tt e r sc) ->
  exists authCode,
    authorizationCodes st !! str_of (tr_code req) = Some authCode
    /\ forall (st2 : store) (rf2 : option QBToken) (iva2 ivr2 : Buffer)
              (t t' : Z) (req2 : TokenRequest),
        tr_grant_type req2 = Some "refresh_token" ->
        tr_refresh_token req2 = Some r ->
        truthy (client_credentials req2).1 = false
        \/ (client_credentials req2).1 = Some (ac_client_id authCode) ->
        (t <= now' + REFRESH_EXPIRY_MS)%Z ->
        token key st2 rf2 iva2 ivr2 t t' req2
        = (st2,
           issue_tokens key iva2 ivr2 (ac_client_id authCode)
             (ac_realm_id authCode)
             (if truthy (ac_qb_refresh_token authCode) then
                match rf2 with
                | Some x => Some (qb_tok_access_token x)
                | None => ac_qb_access_token authCode
                end
              else ac_qb_access_token authCode)
             (if truthy (ac_qb_refresh_token authCode) then
                match rf2 with
                | Some x => Some (qb_tok_refresh_token x)
                | None => ac_qb_refresh_token authCode
                end
              else ac_qb_refresh_token authCode)
             t' "quickbooks:accounting").
Proof.
  intros Hiv Hg Htok.
  destruct (token_issued_inv key _ _ _ _ _ _ _ _ _ _ _ _ _ Hg Htok)
    as (authCode & _ & _ & Hl & Hc & _ & _ & Hi).
  apply check_code_None in Hc as (Hcid & _ & _).
  rewrite Hcid in Hi. change (str_of (Some ?x)) with x in Hi.
  apply issue_tokens_inv in Hi as (_ & Hr & _).
  apply (encrypted_decrypts key _ _ _ Hiv) in Hr.
  exists authCode. split; [exact Hl|].
  intros st2 rf2 iva2 ivr2 t t' req2 Hg2 Ht2 Hcid2 Hexp.
  exact (refresh_payload_refreshes key st2 rf2 iva2 ivr2 t t' req2 r _ _ _ _ _
           Hg2 Ht2 Hr Hcid2 Hexp).
Qed.

Lemma issued_refresh_token_refreshes_witness :
  token example_key empty_store (Some example_upstream) example_iv example_iv'
        (example_t0 + 5000) (example_t0 + 5000)
        (example_refresh_of example_issued_refresh)
  = (empty_store,
     issue_tokens example_key example_iv example_iv' example_client
       (Some "4620816365") (Some "qb-access") (Some "qb-refresh")
       (example_t0 + 5000) "quickbooks:accounting").
Proof.
  destruct (issued_refresh_token_refreshes example_key
              (issued_store example_challenge "S256")
              (fst example_redeemed) None example_iv example_iv'
              (example_t0 + 1000) (example_t0 + 1000)
              (example_redeem (Some example_verifier))
              example_issued_access "Bearer" 3600 example_issued_refresh
              "quickbooks:accounting" eq_refl eq_refl)
    as (authCode & Hl & Hrefresh); [vm_compute; reflexivity|].
  vm_compute in Hl. injection Hl as <-.
  apply (Hrefresh empty_store (Some example_upstream) example_iv example_iv'
           (example_t0 + 5000)%Z (example_t0 + 5000)%Z
           (example_refresh_of example_issued_refresh));
    [reflexivity | reflexivity | right; reflexivity | vm_compute; discriminate].
Defined.

(** X4.  The refresh_token grant of the stateless variant neither reads
    nor changes the store: it leaves the store as it is, and its answer is
    the same in every store, so that no client has to be registered. *)
Theorem refresh_grant_ignores_store (key : Buffer) (st st' : store)
        (rf : option QBToken) (iva ivr : Buffer) (now now' : Z)
        (req : TokenRequest) :
  tr_grant_type req = Some "refresh_token" ->
  token key st rf iva ivr now now' req
  = (st, snd (token key st' rf iva ivr now now' req)).
Proof.
  intros Hg. unfold token.
  destruct (client_credentials req) as [cid cs]. rewrite Hg.
  replace (js_eq (Some "refresh_token") (Some "authorization_code"))
    with false by reflexivity.
  rewrite js_eq_refl.
  repeat case_match; simplify_eq; reflexivity.
Qed.

Lemma refresh_grant_ignores_store_witness :
  token example_key empty_store None example_iv example_iv'
        (example_t0 + 5000) (example_t0 + 5000) example_refresh
  = (empty_store,
     snd (token example_key (issued_store example_challenge "S256") None
            example_iv example_iv' (example_t0 + 5000) (example_t0 + 5000)
            example_refresh)).
Proof. apply refresh_grant_ignores_store. reflexivity. Defined.

(** * Reachable stores *)

Section Invariants.
Variable URL_parse : string -> option URL.
Variable key : Buffer.

Lemma validate_redirect_uris_None (uris : list string) :
  validate_redirect_uris URL_parse uris = None ->
  forallb (uri_allowed URL_parse) uris = true.
Proof.
  induction uris as [|uri uris IH]; cbn [forallb validate_redirect_uris];
    [reflexivity|].
  unfold uri_allowed at 1.
  destruct (URL_parse uri) as [url|]; [|discriminate].
  destruct (String.eqb (hostname url) "localhost"),
    (String.eqb (hostname url) "127.0.0.1"),
    (String.eqb (protocol url) "https:");
    cbn; try discriminate; exact IH.
Qed.

Lemma uri_allowed_parses (uri : string) :
  uri_allowed URL_parse uri = true -> exists url, URL_parse uri = Some url.
Proof.
  unfold uri_allowed. destruct (URL_parse uri); [eauto | discriminate].
Qed.

Lemma registered_uri_allowed st id c uri :
  store_ok URL_parse st ->
  registeredClients st !! id = Some c ->
  existsb (String.eqb uri) (reg_redirect_uris c) = true ->
  uri_allowed URL_parse uri = true.
Proof.
  intros (Hreg & _) Hc Hex.
  destruct (Hreg id c Hc) as (_ & _ & Hall).
  apply existsb_exists in Hex as (u & Hin & Heq).
  apply String.eqb_eq in Heq as <-.
  rewrite forallb_forall in Hall. apply Hall, Hin.
Qed.

Lemma empty_store_ok : store_ok URL_parse empty_store.
Proof.
  split; [|split]; cbn; intros ? ? Hx; rewrite lookup_empty in Hx;
    discriminate.
Qed.

Lemma register_store_ok st uuid sb now req :
  store_ok URL_parse st ->
  store_ok URL_parse (fst (register URL_parse st uuid sb now req)).
Proof.
  intros Hok. unfold register.
  destruct (rr_redirect_uris req) as [| |[|u uris]]; try exact Hok.
  destruct (validate_redirect_uris URL_parse (u :: uris)) as [err|] eqn:Hv;
    [exact Hok|].
  destruct Hok as (Hreg & Hpend & Hcode).
  split; [|split; assumption].
  cbn. intros id c [[<- <-] | [_ Hc]]%lookup_insert_Some; [|eauto].
  cbn [reg_client_id reg_redirect_uris].
  split; [reflexivity|]. split; [discriminate|].
  apply validate_redirect_uris_None, Hv.
Qed.

Lemma authorize_store_ok st sb req :
  store_ok URL_parse st ->
  store_ok URL_parse (fst (authorize URL_parse st sb req)).
Proof.
  intros Hok. unfold authorize.
  destruct (negb (js_eq (ar_response_type req) (Some "code"))); [exact Hok|].
  destruct (negb (truthy (ar_client_id req))); [exact Hok|].
  destruct (registeredClients st !! str_of (ar_client_id req)) as [client|]
    eqn:Hc; [|exact Hok].
  destruct (truthy (ar_redirect_uri req)); cbn [negb orb]; [|exact Hok].
  destruct (existsb _ _) eqn:Hex; cbn [negb]; [|exact Hok].
  destruct (truthy (ar_code_challenge req)) eqn:Hch; cbn [negb].
  - pose proof (registered_uri_allowed _ _ _ _ Hok Hc Hex) as Huri.
    destruct Hok as (Hreg & Hpend & Hcode).
    split; [assumption|]. split; [|assumption].
    cbn. intros s p [[_ <-] | [_ Hp]]%lookup_insert_Some; [|eauto].
    unfold pending_ok. cbn. rewrite Huri, Hch. reflexivity.
  - destruct (URL_parse _); exact Hok.
Qed.

Lemma callback_begin_store_ok st req :
  store_ok URL_parse st ->
  store_ok URL_parse (fst (callback_begin URL_parse st req))
  /\ forall p, snd (callback_begin URL_parse st req) = inr p ->
               pending_ok URL_parse p = true.
Proof.
  intros Hok. unfold callback_begin.
  destruct (cb_state req) as [s|]; [|split; [exact Hok | discriminate]].
  destruct (pendingAuthorizations st !! s) as [p|] eqn:Hp;
    [|split; [exact Hok | discriminate]].
  assert (Hok' : store_ok URL_parse (set_pendingAuthorizations (delete s) st)).
  { destruct Hok as (Hreg & Hpend & Hcode).
    split; [assumption|]. split; [|assumption].
    cbn. intros s' p' [_ Hp']%lookup_delete_Some. eauto. }
  assert (Hpok : pending_ok URL_parse p = true).
  { destruct Hok as (_ & Hpend & _). eauto. }
  destruct (URL_parse (pa_redirect_uri p));
    [destruct (truthy (cb_error req))|];
    (split; [exact Hok'|]); cbn; try discriminate.
  intros p' [= <-]. exact Hpok.
Qed.

Lemma callback_finish_store_ok st p ex cb now req :
  store_ok URL_parse st -> pending_ok URL_parse p = true ->
  store_ok URL_parse (fst (callback_finish st p ex cb now req)).
Proof.
  intros Hok Hp. unfold callback_finish.
  destruct ex as [qb|]; [|exact Hok].
  destruct Hok as (Hreg & Hpend & Hcode).
  split; [assumption|]. split; [assumption|].
  cbn. intros c a [[<- <-] | [_ Ha]]%lookup_insert_Some; [|eauto].
  cbn. apply andb_true_iff in Hp as [Huri Hch]. auto.
Qed.

Lemma callback_store_ok st ex cb now req :
  store_ok URL_parse st ->
  store_ok URL_parse (fst (callback URL_parse st ex cb now req)).
Proof.
  intros Hok. rewrite callback_store.
  destruct (callback_begin_store_ok st req Hok) as [Hok' Hp].
  destruct (snd (callback_begin URL_parse st req)) as [r|p]; [exact Hok'|].
  apply callback_finish_store_ok; [exact Hok' | apply Hp; reflexivity].
Qed.

Lemma delete_code_store_ok st c :
  store_ok URL_parse st ->
  store_ok URL_parse (set_authorizationCodes (delete c) st).
Proof.
  intros (Hreg & Hpend & Hcode).
  split; [assumption|]. split; [assumption|].
  cbn. intros c' a [_ Ha]%lookup_delete_Some. eauto.
Qed.

Lemma token_store_ok st rf iva ivr now now' req :
  store_ok URL_parse st ->
  store_ok URL_parse (fst (token key st rf iva ivr now now' req)).
Proof.
  intros Hok.
  destruct (token_store key st rf iva ivr now now' req) as [-> | ->];
    [exact Hok | apply delete_code_store_ok, Hok].
Qed.

Lemma validate_store_ok st now tok :
  store_ok URL_parse st ->
  store_ok URL_parse (fst (validateAccessToken key st now tok)).
Proof.
  intros Hok. unfold validateAccessToken.
  repeat case_match; exact Hok.
Qed.

Lemma step_store_ok st ev :
  resumes_ok URL_parse ev -> store_ok URL_parse st ->
  store_ok URL_parse (step URL_parse key st ev).
Proof.
  intros Hev Hok. destruct ev; cbn [step resumes_ok] in *.
  - apply register_store_ok, Hok.
  - apply authorize_store_ok, Hok.
  - apply callback_store_ok, Hok.
  - apply callback_begin_store_ok, Hok.
  - apply callback_finish_store_ok; assumption.
  - apply token_store_ok, Hok.
  - apply validate_store_ok, Hok.
Qed.

Lemma run_store_ok evs st :
  Forall (resumes_ok URL_parse) evs -> store_ok URL_parse st ->
  store_ok URL_parse (run URL_parse key st evs).
Proof.
  unfold run. revert st.
  induction evs as [|ev evs IH]; intros st Hevs Hok; [exact Hok|].
  inversion Hevs as [|? ? Hev Hevs']; subst.
  cbn [fold_left]. apply IH; [exact Hevs' | apply step_store_ok; assumption].
Qed.

End Invariants.

Section Reachable.
Variable URL_parse : string -> option URL.
Variable key : Buffer.










(** In a store that satisfies the invariant, /authorize does not throw and
    redirects to a client only at an allowed URI. *)
Lemma authorize_redirect_allowed st sb req :
  store_ok URL_parse st ->
  snd (authorize URL_parse st sb req) <> Throws
  /\ forall uri params,
      snd (authorize URL_parse st sb req)
      = Redirect (ClientRedirect uri params) ->
      uri_allowed URL_parse uri = true.
Proof.
  intros Hok. unfold authorize.
  destruct (negb (js_eq (ar_response_type req) (Some "code")));
    [split; [discriminate|]; discriminate|].
  destruct (negb (truthy (ar_client_id req)));
    [split; [discriminate|]; discriminate|].
  destruct (registeredClients st !! str_of (ar_client_id req)) as [client|]
    eqn:Hc; [|split; [discriminate|]; discriminate].
  destruct (truthy (ar_redirect_uri req)); cbn [negb orb];
    [|split; [discriminate|]; discriminate].
  destruct (existsb _ _) eqn:Hex; cbn [negb];
    [|split; [discriminate|]; discriminate].
  pose proof (registered_uri_allowed URL_parse _ _ _ _ Hok Hc Hex) as Huri.
  destruct (truthy (ar_code_challenge req)); cbn [negb];
    [split; [discriminate|]; discriminate|].
  destruct (uri_allowed_parses URL_parse _ Huri) as [url ->]. cbn [snd].
  split; [discriminate|]. intros uri params [= <- _]. exact Huri.
Qed.

Lemma callback_redirect_allowed st ex cb now req :
  store_ok URL_parse st ->
  snd (callback URL_parse st ex cb now req) <> Throws
  /\ forall uri params,
      snd (callback URL_parse st ex cb now req)
      = Redirect (ClientRedirect uri params) ->
      uri_allowed URL_parse uri = true.
Proof.
  intros Hok. split.
  - unfold callback, callback_begin, callback_finish.
    destruct (cb_state req) as [s|]; [|discriminate].
    destruct (pendingAuthorizations st !! s) as [p|] eqn:Hp; [|discriminate].
    destruct Hok as (_ & Hpend & _).
    apply Hpend, andb_true_iff in Hp as [Huri _].
    destruct (uri_allowed_parses URL_parse _ Huri) as [url ->].
    destruct (truthy (cb_error req)); [discriminate|].
    destruct ex; discriminate.
  - intros uri params Hr.
    destruct (callback URL_parse st ex cb now req) as [st' resp] eqn:Hcb.
    cbn [snd] in Hr. subst resp.
    destruct (callback_redirects URL_parse _ _ _ _ _ _ _ Hcb)
      as (s & p & params' & _ & Hp & [= -> _] & _).
    destruct Hok as (_ & Hpend & _).
    apply Hpend, andb_true_iff in Hp as [Huri _]. exact Huri.
Qed.

Lemma step_registered st ev id :
  ~ registers id ev ->
  registeredClients (step URL_parse key st ev) !! id
  = registeredClients st !! id.
Proof.
  intros Hev.
  destruct ev as [uuid sb now req | sb req | ex cb now req | req
                 | p ex cb now req | rf iva ivr now now' req | now tok];
    cbn [step registers] in *.
  - unfold register. repeat case_match; try reflexivity;
      cbn; apply lookup_insert_ne; exact Hev.
  - unfold authorize. repeat case_match; reflexivity.
  - rewrite callback_store. unfold callback_begin, callback_finish.
    repeat case_match; reflexivity.
  - unfold callback_begin. repeat case_match; reflexivity.
  - unfold callback_finish. repeat case_match; reflexivity.
  - destruct (token_store key st rf iva ivr now now' req) as [-> | ->];
      reflexivity.
  - unfold validateAccessToken. repeat case_match; reflexivity.
Qed.

End Reachable.


(** X6.  In every store that the stateless server reaches from its start
    (a callback that resumes after its [await] resuming with an entry that
    passed the checks of /authorize), each stored code has a non-empty
    challenge: every token response of the authorization_code grant answers
    a request with a non-empty code verifier that matches the challenge of
    the code. *)
Theorem pkce_cannot_be_skipped (URL_parse : string -> option URL)
        (key : Buffer) (evs : list event) (st1 : store)
        (rf : option QBToken) (iva ivr : Buffer) (now now' : Z)
        (req : TokenRequest) (a tt : string) (e : Z) (r sc : string) :
  Forall (resumes_ok URL_parse) evs ->
  tr_grant_type req = Some "authorization_code" ->
  token key (run URL_parse key empty_store evs) rf iva ivr now now' req
  = (st1, TokenResponse a tt e r sc) ->
  exists authCode ch v,
    authorizationCodes (run URL_parse key empty_store evs)
      !! str_of (tr_code req) = Some authCode
    /\ ac_code_challenge authCode = Some ch /\ ch <> EmptyString
    /\ tr_code_verifier req = Some v /\ v <> EmptyString
    /\ verifyCodeChallenge v ch (ac_code_challenge_method authCode) = true.
Proof.
  intros Hevs Hg Htok.
  destruct (token_issued_inv key _ _ _ _ _ _ _ _ _ _ _ _ _ Hg Htok)
    as (authCode & _ & _ & Hl & Hc & _).
  apply check_code_None in Hc as (_ & _ & Hpk).
  destruct (run_store_ok URL_parse key evs empty_store Hevs
              (empty_store_ok URL_parse)) as (_ & _ & Hcode).
  destruct (Hcode _ _ Hl) as (_ & _ & Hch).
  destruct (check_pkce_None _ _ Hpk Hch) as [Hv Hver].
  apply truthy_inv in Hch as (ch & Hch & Hne).
  apply truthy_inv in Hv as (v & Hv & Hvne).
  rewrite Hch, Hv in Hver. exists authCode, ch, v. auto 10.
Qed.

Lemma pkce_cannot_be_skipped_witness :
  exists authCode ch v,
    authorizationCodes
      (run example_URL_parse example_key empty_store example_flow_events)
      !! str_of (tr_code (example_redeem (Some example_verifier)))
    = Some authCode
    /\ ac_code_challenge authCode = Some ch /\ ch <> EmptyString
    /\ tr_code_verifier (example_redeem (Some example_verifier)) = Some v
    /\ v <> EmptyString
    /\ verifyCodeChallenge v ch (ac_code_challenge_method authCode) = true.
Proof.
  apply (pkce_cannot_be_skipped example_URL_parse example_key
           example_flow_events (fst example_redeemed) None
           example_iv example_iv' (example_t0 + 1000) (example_t0 + 1000)
           (example_redeem (Some example_verifier))
           example_issued_access "Bearer" 3600 example_issued_refresh
           "quickbooks:accounting");
    [repeat constructor | reflexivity | vm_compute; reflexivity].
Defined.

(** X7.  In every store that the server reaches from its start (a
    callback that resumes after its [await] resuming with an entry that
    passed the checks of /authorize), /authorize and /callback do not throw,
    and every redirect they send to a client goes to a URI that parses and
    is a localhost, 127.0.0.1 or https URL. *)
Theorem client_redirects_allowed (URL_parse : string -> option URL)
        (key : Buffer) (evs : list event) :
  Forall (resumes_ok URL_parse) evs ->
  let st := run URL_parse key empty_store evs in
  (forall sb req,
      snd (authorize URL_parse st sb req) <> Throws
      /\ forall uri params,
          snd (authorize URL_parse st sb req)
          = Redirect (ClientRedirect uri params) ->
          uri_allowed URL_parse uri = true)
  /\ (forall ex cb now req,
         snd (callback URL_parse st ex cb now req) <> Throws
         /\ forall uri params,
             snd (callback URL_parse st ex cb now req)
             = Redirect (ClientRedirect uri params) ->
             uri_allowed URL_parse uri = true).
Proof.
  intros Hevs st.
  pose proof (run_store_ok URL_parse key evs empty_store Hevs
                (empty_store_ok URL_parse)) as Hok.
  fold st in Hok. split.
  - intros sb req. apply authorize_redirect_allowed, Hok.
  - intros ex cb now req. apply callback_redirect_allowed, Hok.
Qed.

Lemma client_redirects_allowed_witness :
  let st :=
    run example_URL_parse example_key empty_store example_flow_events in
  (forall sb req,
      snd (authorize example_URL_parse st sb req) <> Throws
      /\ forall uri params,
          snd (authorize example_URL_parse st sb req)
          = Redirect (ClientRedirect uri params) ->
          uri_allowed example_URL_parse uri = true)
  /\ (forall ex cb now req,
         snd (callback example_URL_parse st ex cb now req) <> Throws
         /\ forall uri params,
             snd (callback example_URL_parse st ex cb now req)
             = Redirect (ClientRedirect uri params) ->
             uri_allowed example_URL_parse uri = true).
Proof.
  apply (client_redirects_allowed example_URL_parse example_key
           example_flow_events).
  repeat constructor.
Defined.

(** X10.  What is registered under a client id changes only by a
    registration that draws that id: every other request leaves it as it
    is. *)
Theorem registered_clients_persist (URL_parse : string -> option URL)
        (key : Buffer) (st : store) (evs : list event) (id : string) :
  Forall (fun ev => ~ registers id ev) evs ->
  registeredClients (run URL_parse key st evs) !! id
  = registeredClients st !! id.
Proof.
  unfold run. revert st.
  induction evs as [|ev evs IH]; intros st Hevs; [reflexivity|].
  inversion Hevs as [|? ? Hev Hevs']; subst. cbn [fold_left].
  rewrite IH by exact Hevs'. apply step_registered, Hev.
Qed.

Lemma registered_clients_persist_witness :
  registeredClients
    (run example_URL_parse example_key registered_store example_idle_events)
    !! example_client
  = registeredClients registered_store !! example_client.
Proof.
  apply (registered_clients_persist example_URL_parse example_key
           registered_store example_idle_events example_client).
  repeat constructor; cbn; try tauto; discriminate.
Defined.


(** * The steps of an authorization *)

Section FlowFacts.
Variable URL_parse : string -> option URL.
Variable key : Buffer.

Lemma validate_redirect_uris_error (uris : list string) (err : response) :
  validate_redirect_uris URL_parse uris = Some err ->
  exists d, err = ErrorResponse 400 "invalid_redirect_uri" d.
Proof.
  induction uris as [|uri uris IH]; cbn [validate_redirect_uris];
    [discriminate|].
  destruct (URL_parse uri) as [url|]; [|intros [= <-]; eauto].
  destruct (negb _ && negb _); [intros [= <-]; eauto | exact IH].
Qed.

Lemma existsb_eqb_In (uri : string) (uris : list string) :
  existsb (String.eqb uri) uris = true <-> In uri uris.
Proof.
  rewrite existsb_exists. split.
  - intros (u & Hin & ->%String.eqb_eq). exact Hin.
  - intros Hin. exists uri. split; [exact Hin | apply String.eqb_refl].
Qed.

Lemma truthy_false_inv (o : option string) :
  truthy o = false -> o = None \/ o = Some EmptyString.
Proof.
  destruct o as [s|]; cbn [truthy]; [|auto].
  destruct (String.eqb_spec s EmptyString) as [-> | _]; [auto | discriminate].
Qed.

(** The five checks of /authorize, and what it does when they pass. *)
Lemma authorize_accepts st sb req cid client uri ch :
  ar_response_type req = Some "code" ->
  ar_client_id req = Some cid -> cid <> EmptyString ->
  registeredClients st !! cid = Some client ->
  ar_redirect_uri req = Some uri -> uri <> EmptyString ->
  In uri (reg_redirect_uris client) ->
  ar_code_challenge req = Some ch -> ch <> EmptyString ->
  authorize URL_parse st sb req
  = (set_pendingAuthorizations
       (insert (generateSecureToken sb)
          {| pa_client_id := cid;
             pa_redirect_uri := uri;
             pa_state := ar_state req;
             pa_code_challenge := Some ch;
             pa_code_challenge_method :=
               Some (default "S256" (ar_code_challenge_method req));
             pa_scope := ar_scope req |}) st,
     Redirect (UpstreamAuthorize [scopes_Accounting] (generateSecureToken sb))).
Proof.
  intros Hrt Hcid Hcne Hc Huri Hune Hin Hch Hchne. unfold authorize.
  rewrite Hrt, js_eq_refl, Hcid, Huri, Hch, !truthy_Some by assumption.
  cbn [negb str_of orb]. rewrite Hc.
  apply existsb_eqb_In in Hin. rewrite Hin. reflexivity.
Qed.

Lemma authorize_outcomes st sb req :
  (exists cid client uri ch,
      ar_response_type req = Some "code"
      /\ ar_client_id req = Some cid /\ cid <> EmptyString
      /\ registeredClients st !! cid = Some client
      /\ ar_redirect_uri req = Some uri /\ uri <> EmptyString
      /\ In uri (reg_redirect_uris client)
      /\ ar_code_challenge req = Some ch /\ ch <> EmptyString)
  \/ (fst (authorize URL_parse st sb req) = st
      /\ forall scope s,
          snd (authorize URL_parse st sb req)
          <> Redirect (UpstreamAuthorize scope s)).
Proof.
  unfold authorize.
  destruct (js_eq (ar_response_type req) (Some "code")) eqn:Hrt;
    cbn [negb]; [|right; split; [reflexivity | discriminate]].
  destruct (truthy (ar_client_id req)) eqn:Hcid;
    cbn [negb]; [|right; split; [reflexivity | discriminate]].
  destruct (registeredClients st !! str_of (ar_client_id req)) as [client|]
    eqn:Hc; [|right; split; [reflexivity | discriminate]].
  destruct (truthy (ar_redirect_uri req)) eqn:Huri;
    cbn [negb orb]; [|right; split; [reflexivity | discriminate]].
  destruct (existsb _ _) eqn:Hex;
    cbn [negb]; [|right; split; [reflexivity | discriminate]].
  destruct (truthy (ar_code_challenge req)) eqn:Hch; cbn [negb].
  - left. apply js_eq_true in Hrt.
    apply truthy_inv in Hcid as (cid & Hcid & Hcne).
    apply truthy_inv in Huri as (uri & Huri & Hune).
    apply truthy_inv in Hch as (ch & Hch & Hchne).
    rewrite Hcid in Hc. rewrite Huri in Hex. cbn [str_of] in Hc, Hex.
    apply existsb_eqb_In in Hex.
    exists cid, client, uri, ch. auto 10.
  - right. destruct (URL_parse _); split; try reflexivity; discriminate.
Qed.

(** The callback that mints a code. *)
Lemma callback_accepts st qb cb now req s p url :
  cb_state req = Some s -> pendingAuthorizations st !! s = Some p ->
  URL_parse (pa_redirect_uri p) = Some url ->
  truthy (cb_error req) = false ->
  callback URL_parse st (Some qb) cb now req
  = (set_authorizationCodes
       (insert (generateSecureToken cb)
          {| ac_code := generateSecureToken cb;
             ac_client_id := pa_client_id p;
             ac_redirect_uri := pa_redirect_uri p;
             ac_code_challenge := pa_code_challenge p;
             ac_code_challenge_method := pa_code_challenge_method p;
             ac_scope := pa_scope p;
             ac_expires_at := (now + 600000)%Z;
             ac_realm_id := js_or (cb_realmId req) (Some (qb_tok_realmId qb));
             ac_qb_access_token := Some (qb_tok_access_token qb);
             ac_qb_refresh_token := Some (qb_tok_refresh_token qb) |})
       (set_pendingAuthorizations (delete s) st),
     Redirect (ClientRedirect (pa_redirect_uri p)
                 (("code", generateSecureToken cb) :: state_param p))).
Proof.
  intros Hs Hp Hurl Herr. unfold callback, callback_begin.
  rewrite Hs, Hp, Hurl, Herr. reflexivity.
Qed.

Lemma callback_outcomes st ex cb now req :
  (exists s p qb url,
      cb_state req = Some s /\ pendingAuthorizations st !! s = Some p
      /\ URL_parse (pa_redirect_uri p) = Some url
      /\ truthy (cb_error req) = false /\ ex = Some qb)
  \/ (authorizationCodes (fst (callback URL_parse st ex cb now req))
      = authorizationCodes st
      /\ forall uri params c,
          snd (callback URL_parse st ex cb now req)
          = Redirect (ClientRedirect uri params) ->
          ~ In ("code", c) params).
Proof.
  unfold callback, callback_begin, callback_finish, state_param.
  destruct (cb_state req) as [s|];
    [|right; split; [reflexivity | discriminate]].
  destruct (pendingAuthorizations st !! s) as [p|] eqn:Hp;
    [|right; split; [reflexivity | discriminate]].
  destruct (URL_parse (pa_redirect_uri p)) as [url|] eqn:Hurl;
    [|right; split; [reflexivity | discriminate]].
  destruct (truthy (cb_error req)) eqn:Herr.
  - right. split; [reflexivity|]. cbn [snd].
    intros uri params c [= _ <-].
    destruct (truthy (cb_error_description req)), (truthy (pa_state p));
      cbn; intuition congruence.
  - destruct ex as [qb|].
    + left. exists s, p, qb, url. auto.
    + right. split; [reflexivity|]. cbn [snd].
      intros uri params c [= _ <-].
      destruct (truthy (pa_state p)); cbn; intuition congruence.
Qed.

Lemma generateSecureToken_nonempty (bytes : Buffer) :
  bytes <> [] -> generateSecureToken bytes <> EmptyString.
Proof.
  intros Hne Heq.
  pose proof (length_generateSecureToken bytes) as Hlen.
  rewrite Heq in Hlen. destruct bytes; [congruence | cbn in Hlen; lia].
Qed.

(** The redemption of a stored code by a request that passes every
    check. *)
Lemma token_accepts st rf iva ivr t t' req cid c authCode v :
  tr_grant_type req = Some "authorization_code" ->
  (client_credentials req).1 = Some cid ->
  validate_client st (Some cid) (client_credentials req).2 = None ->
  tr_code req = Some c -> c <> EmptyString ->
  authorizationCodes st !! c = Some authCode ->
  ac_client_id authCode = cid ->
  tr_redirect_uri req = Some (ac_redirect_uri authCode) ->
  tr_code_verifier req = Some v -> v <> EmptyString ->
  verifyCodeChallenge v (str_of (ac_code_challenge authCode))
                      (ac_code_challenge_method authCode) = true ->
  (t <= ac_expires_at authCode)%Z ->
  token key st rf iva ivr t t' req
  = (set_authorizationCodes (delete c) st,
     issue_tokens key iva ivr cid (ac_realm_id authCode)
       (ac_qb_access_token authCode) (ac_qb_refresh_token authCode) t'
       (if truthy (ac_scope authCode) then str_of (ac_scope authCode)
        else "quickbooks:accounting")).
Proof.
  intros Hg Hcid Hv Hc Hcne Hl Hac Hru Hcv Hvne Hver Hexp. unfold token.
  destruct (client_credentials req) as [cid' cs]. cbn [fst snd] in *.
  subst cid'. rewrite Hg, js_eq_refl, Hv, Hc, truthy_Some by assumption.
  cbn [negb str_of]. rewrite Hl.
  unfold check_code, check_pkce.
  rewrite Hac, Hru, !js_eq_refl, Hcv, truthy_Some by assumption.
  cbn [negb str_of]. rewrite Hver.
  destruct (Z.gtb_spec t (ac_expires_at authCode)); [lia|].
  destruct (truthy (ac_code_challenge authCode)); reflexivity.
Qed.

End FlowFacts.

Lemma validate_client_registry (st st' : store) (cid cs : option string) :
  registeredClients st' = registeredClients st ->
  validate_client st' cid cs = validate_client st cid cs.
Proof. intros H. unfold validate_client. rewrite H. reflexivity. Qed.

(** X8.  /authorize either passes its checks (response type "code", a
    registered client, one of its redirect URIs, a PKCE challenge), stores
    the pending authorization of the request under the internal state just
    drawn and redirects upstream with that state; or it leaves the store
    as it is and does not redirect upstream. *)
Theorem authorize_outcome (URL_parse : string -> option URL) (st : store)
        (sb : Buffer) (req : AuthorizeRequest) :
  (exists cid client uri ch,
      ar_response_type req = Some "code"
      /\ ar_client_id req = Some cid /\ cid <> EmptyString
      /\ registeredClients st !! cid = Some client
      /\ ar_redirect_uri req = Some uri /\ uri <> EmptyString
      /\ In uri (reg_redirect_uris client)
      /\ ar_code_challenge req = Some ch /\ ch <> EmptyString
      /\ authorize URL_parse st sb req
         = (set_pendingAuthorizations
              (insert (generateSecureToken sb)
                 {| pa_client_id := cid;
                    pa_redirect_uri := uri;
                    pa_state := ar_state req;
                    pa_code_challenge := Some ch;
                    pa_code_challenge_method :=
                      Some (default "S256" (ar_code_challenge_method req));
                    pa_scope := ar_scope req |}) st,
            Redirect (UpstreamAuthorize [scopes_Accounting]
                                        (generateSecureToken sb))))
  \/ (fst (authorize URL_parse st sb req) = st
      /\ forall scope s,
          snd (authorize URL_parse st sb req)
          <> Redirect (UpstreamAuthorize scope s)).
Proof.
  destruct (authorize_outcomes URL_parse st sb req)
    as [(cid & client & uri & ch & H1 & H2 & H3 & H4 & H5 & H6 & H7 & H8 & H9)
       | Hno]; [left | right; exact Hno].
  exists cid, client, uri, ch. repeat (split; [assumption|]).
  apply (authorize_accepts URL_parse st sb req cid client uri ch); assumption.
Qed.

(** X11.  /callback mints an authorization code only when the state
    names a pending authorization, upstream sent no error and the token
    exchange succeeded: the code then carries the client, redirect URI,
    challenge and scope of the pending authorization and the upstream
    tokens, and expires 600 seconds later.  On every other path the stored
    codes stay as they are and the handler sets no code parameter on a
    redirect. *)
Theorem callback_outcome (URL_parse : string -> option URL) (st : store)
        (ex : option QBToken) (cb : Buffer) (now : Z) (req : CallbackRequest) :
  (exists s p qb,
      cb_state req = Some s /\ pendingAuthorizations st !! s = Some p
      /\ truthy (cb_error req) = false /\ ex = Some qb
      /\ callback URL_parse st ex cb now req
         = (set_authorizationCodes
              (insert (generateSecureToken cb)
                 {| ac_code := generateSecureToken cb;
                    ac_client_id := pa_client_id p;
                    ac_redirect_uri := pa_redirect_uri p;
                    ac_code_challenge := pa_code_challenge p;
                    ac_code_challenge_method := pa_code_challenge_method p;
                    ac_scope := pa_scope p;
                    ac_expires_at := (now + 600000)%Z;
                    ac_realm_id :=
                      js_or (cb_realmId req) (Some (qb_tok_realmId qb));
                    ac_qb_access_token := Some (qb_tok_access_token qb);
                    ac_qb_refresh_token := Some (qb_tok_refresh_token qb) |})
              (set_pendingAuthorizations (delete s) st),
            Redirect (ClientRedirect (pa_redirect_uri p)
                        (("code", generateSecureToken cb) :: state_param p))))
  \/ (authorizationCodes (fst (callback URL_parse st ex cb now req))
      = authorizationCodes st
      /\ forall uri params c,
          snd (callback URL_parse st ex cb now req)
          = Redirect (ClientRedirect uri params) ->
          ~ In ("code", c) params).
Proof.
  destruct (callback_outcomes URL_parse st ex cb now req)
    as [(s & p & qb & url & Hs & Hp & Hurl & Herr & ->) | Hno];
    [left | right; exact Hno].
  exists s, p, qb. repeat (split; [assumption || reflexivity|]).
  apply (callback_accepts URL_parse st qb cb now req s p url); assumption.
Qed.

(** X9.  A registered client has a secret, the hex string of the 32 bytes
    drawn, exactly when its token_endpoint_auth_method is not "none" (the
    default).  After the registration the client check of the token endpoint
    accepts the client with that secret and no other, or with anything when
    the method is "none". *)
Theorem registered_client_authentication (URL_parse : string -> option URL)
        (st st' : store) (uuid : string) (sb : Buffer) (now : Z)
        (req : RegisterRequest) (reg : OAuthClientRegistration) (iat : Z) :
  register URL_parse st uuid sb now req = (st', Created reg iat) ->
  let method := default "none" (rr_token_endpoint_auth_method req) in
  reg_token_endpoint_auth_method reg = method
  /\ reg_client_secret reg
     = (if decide (method = "none") then None
        else Some (generateSecureToken sb))
  /\ forall cs,
      validate_client st' (Some uuid) cs = None
      <-> (method = "none" \/ cs = Some (generateSecureToken sb)).
Proof.
  intros Hreg method. unfold register in Hreg.
  destruct (rr_redirect_uris req) as [| |[|u uris]]; try discriminate.
  destruct (validate_redirect_uris URL_parse (u :: uris)) as [err|] eqn:Hv.
  { destruct (validate_redirect_uris_error URL_parse _ _ Hv) as [d ->].
    discriminate. }
  injection Hreg as <- <- _. fold method. cbn [reg_token_endpoint_auth_method
    reg_client_secret]. split; [reflexivity|].
  assert (Hsec :
    (if negb (String.eqb method "none") then Some (generateSecureToken sb)
     else None)
    = if decide (method = "none") then None else Some (generateSecureToken sb)).
  { destruct (String.eqb_spec method "none"), (decide (method = "none"));
      cbn [negb]; congruence. }
  split; [exact Hsec|].
  intros cs. rewrite validate_client_None. split.
  - intros (id & client & [= <-] & Hl & Hok). cbn in Hl.
    rewrite lookup_insert_eq in Hl. injection Hl as <-.
    cbn [reg_token_endpoint_auth_method reg_client_secret] in Hok.
    fold method in Hok. rewrite Hsec in Hok.
    destruct (decide (method = "none")); [auto|].
    destruct Hok as [Hok | <-]; auto.
  - intros Hok. eexists uuid, _. split; [reflexivity|].
    split; [cbn; apply lookup_insert_eq|].
    cbn [reg_token_endpoint_auth_method reg_client_secret]. fold method.
    rewrite Hsec.
    destruct (decide (method = "none")); [auto|].
    destruct Hok as [Hok | ->]; auto.
Qed.

Lemma registered_client_authentication_witness :
  validate_client
    (fst (register example_URL_parse empty_store example_client
            example_secret_bytes example_t0
            example_confidential_registration))
    (Some example_client)
    (Some (generateSecureToken example_secret_bytes))
  = None.
Proof.
  refine (proj2 (proj2 (proj2
            (registered_client_authentication example_URL_parse empty_store
               (fst (register example_URL_parse empty_store example_client
                       example_secret_bytes example_t0
                       example_confidential_registration))
               example_client example_secret_bytes example_t0
               example_confidential_registration
               {| reg_client_id := example_client;
                  reg_client_secret :=
                    Some (generateSecureToken example_secret_bytes);
                  reg_client_name := "Ledger desk";
                  reg_redirect_uris := [example_redirect];
                  reg_grant_types := ["authorization_code"; "refresh_token"];
                  reg_response_types := ["code"];
                  reg_token_endpoint_auth_method := "client_secret_post";
                  reg_created_at := example_t0 |}
               (example_t0 / 1000) _))
            (Some (generateSecureToken example_secret_bytes))) _);
    [vm_compute; reflexivity | right; reflexivity].
Defined.

(** X12.  The steps compose.  For a registered client and one of its
    redirect URIs: /authorize with a challenge redirects upstream; the
    callback for the state of that redirect, after a successful exchange,
    redirects to the redirect URI with a code and the state the client
    sent; the redemption of that code within 600 seconds, by the same client
    with the same redirect URI and a verifier that matches the challenge,
    issues the tokens for the upstream credentials of the exchange.  The
    code and the pending authorization are then gone. *)
Theorem authorization_code_flow (URL_parse : string -> option URL)
        (key : Buffer) (st : store) (cid : string)
        (client : OAuthClientRegistration) (uri : string) (url : URL)
        (ch v : string) (sb : Buffer) (areq : AuthorizeRequest)
        (qb : QBToken) (cb : Buffer) (now : Z) (creq : CallbackRequest)
        (rf : option QBToken) (iva ivr : Buffer) (t t' : Z)
        (treq : TokenRequest) :
  registeredClients st !! cid = Some client -> cid <> EmptyString ->
  In uri (reg_redirect_uris client) -> uri <> EmptyString ->
  URL_parse uri = Some url ->
  ar_response_type areq = Some "code" ->
  ar_client_id areq = Some cid ->
  ar_redirect_uri areq = Some uri ->
  ar_code_challenge areq = Some ch -> ch <> EmptyString ->
  cb_state creq = Some (generateSecureToken sb) ->
  truthy (cb_error creq) = false ->
  cb <> [] ->
  tr_grant_type treq = Some "authorization_code" ->
  (client_credentials treq).1 = Some cid ->
  validate_client st (Some cid) (client_credentials treq).2 = None ->
  tr_code treq = Some (generateSecureToken cb) ->
  tr_redirect_uri treq = Some uri ->
  tr_code_verifier treq = Some v -> v <> EmptyString ->
  verifyCodeChallenge v ch
    (Some (default "S256" (ar_code_challenge_method areq))) = true ->
  (t <= now + 600000)%Z ->
  let authorized := authorize URL_parse st sb areq in
  let called_back :=
    callback URL_parse (fst authorized) (Some qb) cb now creq in
  let redeemed := token key (fst called_back) rf iva ivr t t' treq in
  snd authorized
  = Redirect (UpstreamAuthorize [scopes_Accounting] (generateSecureToken sb))
  /\ snd called_back
     = Redirect
         (ClientRedirect uri
            (("code", generateSecureToken cb)
               :: (if truthy (ar_state areq)
                   then [("state", str_of (ar_state areq))] else [])))
  /\ snd redeemed
     = issue_tokens key iva ivr cid
         (js_or (cb_realmId creq) (Some (qb_tok_realmId qb)))
         (Some (qb_tok_access_token qb)) (Some (qb_tok_refresh_token qb)) t'
         (if truthy (ar_scope areq) then str_of (ar_scope areq)
          else "quickbooks:accounting")
  /\ authorizationCodes (fst redeemed) !! generateSecureToken cb = None
  /\ pendingAuthorizations (fst redeemed) !! generateSecureToken sb = None.
Proof.
  intros Hc Hcne Hin Hune Hurl Hrt Hcid Huri Hch Hchne Hs Herr Hcb
         Hg Htcid Hv Hcode Htru Hcv Hvne Hver Hexp.
  intros authorized called_back redeemed.
  subst authorized called_back redeemed.
  rewrite (authorize_accepts URL_parse st sb areq cid client uri ch)
    by assumption.
  cbn [fst snd].
  erewrite (callback_accepts URL_parse _ qb cb now creq
              (generateSecureToken sb) _ url);
    [| exact Hs | cbn; apply lookup_insert_eq | exact Hurl | exact Herr].
  cbn [fst snd pa_redirect_uri state_param pa_state].
  erewrite (token_accepts key _ rf iva ivr t t' treq cid
              (generateSecureToken cb) _ v);
    [| exact Hg | exact Htcid
     | rewrite <- Hv; apply validate_client_registry; reflexivity
     | exact Hcode | apply generateSecureToken_nonempty, Hcb
     | cbn; apply lookup_insert_eq | reflexivity | exact Htru | exact Hcv
     | exact Hvne | exact Hver | exact Hexp].
  cbn. rewrite !lookup_delete_eq. repeat split; reflexivity.
Qed.

Lemma authorization_code_flow_witness :
  let authorized :=
    authorize example_URL_parse registered_store example_state_bytes
              (example_authorize example_challenge "S256") in
  let called_back :=
    callback example_URL_parse (fst authorized) (Some example_upstream)
             example_code_bytes example_t0 example_callback in
  let redeemed :=
    token example_key (fst called_back) None example_iv example_iv'
          (example_t0 + 1000) (example_t0 + 1000)
          (example_redeem (Some example_verifier)) in
  snd authorized
  = Redirect (UpstreamAuthorize [scopes_Accounting]
                (generateSecureToken example_state_bytes))
  /\ snd called_back
     = Redirect
         (ClientRedirect example_redirect
            [("code", generateSecureToken example_code_bytes);
             ("state", "client-state-1")])
  /\ snd redeemed
     = issue_tokens example_key example_iv example_iv' example_client
         (Some "4620816365") (Some "qb-access") (Some "qb-refresh")
         (example_t0 + 1000) "quickbooks:accounting"
  /\ authorizationCodes (fst redeemed)
       !! generateSecureToken example_code_bytes = None
  /\ pendingAuthorizations (fst redeemed)
       !! generateSecureToken example_state_bytes = None.
Proof.
  refine (authorization_code_flow example_URL_parse example_key
            registered_store example_client
            {| reg_client_id := example_client;
               reg_client_secret := None;
               reg_client_name := "MCP Client 6fa459ea";
               reg_redirect_uris := [example_redirect];
               reg_grant_types := ["authorization_code"; "refresh_token"];
               reg_response_types := ["code"];
               reg_token_endpoint_auth_method := "none";
               reg_created_at := example_t0 |}
            example_redirect
            {| protocol := "http:"; hostname := "localhost" |}
            example_challenge example_verifier example_state_bytes
            (example_authorize example_challenge "S256")
            example_upstream example_code_bytes example_t0 example_callback
            None example_iv example_iv' (example_t0 + 1000)
            (example_t0 + 1000) (example_redeem (Some example_verifier))
            _ _ _ _ _ _ _ _ _ _ _ _ _ _ _ _ _ _ _ _ _ _);
    try (vm_compute; reflexivity); try discriminate;
    try (left; reflexivity).
Defined.

(** * Client credentials *)

Section Credentials.

Lemma append_cons (c : ascii) (s t : string) :
  (String c s ++ t)%string = String c (s ++ t).
Proof. reflexivity. Qed.






End Credentials.





(** * The in-memory variant *)

Section InMemoryFacts.

Lemma in_memory_issued_inv st rf ab rb now now' req st1 a tt e r sc :
  tr_grant_type req = Some "authorization_code" ->
  InMemory.token st rf ab rb now now' req = (st1, TokenResponse a tt e r sc) ->
  exists authCode,
    authorizationCodes st !! str_of (tr_code req) = Some authCode
    /\ check_code authCode (client_credentials req).1 req = None
    /\ a = generateSecureToken ab /\ r = generateSecureToken rb
    /\ let tokenData :=
         {| td_client_id := str_of (client_credentials req).1;
            td_access_token := a;
            td_refresh_token := Some r;
            td_expires_at := (now' + 3600000)%Z;
            td_realm_id := ac_realm_id authCode;
            td_qb_access_token := ac_qb_access_token authCode;
            td_qb_refresh_token := ac_qb_refresh_token authCode |} in
       st1 = set_refreshTokens (insert r tokenData)
               (set_accessTokens (insert a tokenData)
                  (set_authorizationCodes (delete (str_of (tr_code req))) st)).
Proof.
  intros Hg. unfold InMemory.token.
  destruct (client_credentials req) as [cid cs]. cbn [fst snd].
  destruct (validate_client st cid cs) as [err|] eqn:Hv.
  { destruct (validate_client_error _ _ _ _ Hv) as [d ->]. discriminate. }
  rewrite Hg, js_eq_refl.
  destruct (truthy (tr_code req)); [|discriminate]. cbn [negb].
  destruct (authorizationCodes st !! str_of (tr_code req)) as [authCode|];
    [|discriminate].
  destruct (check_code authCode cid req) as [err|] eqn:Hc.
  { destruct (check_code_error _ _ _ _ Hc) as (x & d & ->). discriminate. }
  destruct (Z.gtb_spec now (ac_expires_at authCode)); [discriminate|].
  intros [= <- <- _ _ <- _]. exists authCode. repeat split; auto.
Qed.

Lemma in_memory_validate_stored st t tok td :
  accessTokens st !! tok = Some td ->
  InMemory.validateAccessToken st t tok
  = if (t >? td_expires_at td)%Z
    then (set_accessTokens (delete tok) st, None)
    else (st, Some td).
Proof. intros Hl. unfold InMemory.validateAccessToken. rewrite Hl. reflexivity. Qed.

Lemma in_memory_validate_unknown st t tok :
  accessTokens st !! tok = None ->
  InMemory.validateAccessToken st t tok = (st, None).
Proof. intros Hl. unfold InMemory.validateAccessToken. rewrite Hl. reflexivity. Qed.

Lemma in_memory_refreshed_inv st rf ab rb now now' req st1 a tt e r sc :
  tr_grant_type req = Some "refresh_token" ->
  InMemory.token st rf ab rb now now' req = (st1, TokenResponse a tt e r sc) ->
  exists old,
    truthy (tr_refresh_token req) = true
    /\ refreshTokens st !! str_of (tr_refresh_token req) = Some old
    /\ td_client_id old = str_of (client_credentials req).1
    /\ a = generateSecureToken ab /\ r = generateSecureToken rb
    /\ let upstream :=
         if truthy (td_qb_refresh_token old) then
           match rf with
           | Some x => (Some (qb_tok_access_token x),
                        Some (qb_tok_refresh_token x))
           | None => (td_qb_access_token old, td_qb_refresh_token old)
           end
         else (td_qb_access_token old, td_qb_refresh_token old) in
       let tokenData :=
         {| td_client_id := str_of (client_credentials req).1;
            td_access_token := a;
            td_refresh_token := Some r;
            td_expires_at := (now' + 3600000)%Z;
            td_realm_id := td_realm_id old;
            td_qb_access_token := upstream.1;
            td_qb_refresh_token := upstream.2 |} in
       st1 = set_refreshTokens (insert r tokenData)
               (set_accessTokens (insert a tokenData)
                  (set_refreshTokens (delete (str_of (tr_refresh_token req)))
                     (set_accessTokens (delete (td_access_token old)) st))).
Proof.
  intros Hg. unfold InMemory.token.
  destruct (client_credentials req) as [cid cs]. cbn [fst snd].
  destruct (validate_client st cid cs) as [err|] eqn:Hv.
  { destruct (validate_client_error _ _ _ _ Hv) as [d ->]. discriminate. }
  rewrite Hg.
  replace (js_eq (Some "refresh_token") (Some "authorization_code"))
    with false by reflexivity.
  rewrite js_eq_refl.
  destruct (truthy (tr_refresh_token req)); [|discriminate]. cbn [negb].
  destruct (refreshTokens st !! str_of (tr_refresh_token req)) as [old|];
    [|discriminate].
  destruct (String.eqb_spec (td_client_id old) (str_of cid)) as [Hc|Hc];
    [|discriminate]. cbn [negb].
  intros Heq. exists old.
  destruct (truthy (td_qb_refresh_token old)); [destruct rf|];
    injection Heq as <- <- _ _ <- _; repeat split; auto.
Qed.

End InMemoryFacts.

(** X15.  In-memory variant: the access token issued by the
    authorization_code grant is the hex string of the bytes drawn, and it
    validates in the store the grant leaves, at every time up to 3600
    seconds after it was stamped, to the client and the upstream credentials
    of the redeemed code. *)
Theorem in_memory_issued_token_validates (st st1 : store)
        (rf : option QBToken) (ab rb : Buffer) (now now' : Z)
        (req : TokenRequest) (a tt : string) (e : Z) (r sc : string) :
  tr_grant_type req = Some "authorization_code" ->
  InMemory.token st rf ab rb now now' req = (st1, TokenResponse a tt e r sc) ->
  exists authCode,
    authorizationCodes st !! str_of (tr_code req) = Some authCode
    /\ a = generateSecureToken ab /\ r = generateSecureToken rb
    /\ forall t : Z,
        (t <= now' + 3600000)%Z ->
        InMemory.validateAccessToken st1 t a
        = (st1, Some {| td_client_id := ac_client_id authCode;
                        td_access_token := a;
                        td_refresh_token := Some r;
                        td_expires_at := now' + 3600000;
                        td_realm_id := ac_realm_id authCode;
                        td_qb_access_token := ac_qb_access_token authCode;
                        td_qb_refresh_token := ac_qb_refresh_token authCode |}).
Proof.
  intros Hg Htok.
  destruct (in_memory_issued_inv _ _ _ _ _ _ _ _ _ _ _ _ _ Hg Htok)
    as (authCode & Hl & Hc & Ha & Hr & Hst).
  apply check_code_None in Hc as (Hcid & _ & _).
  rewrite Hcid in Hst. cbn [str_of] in Hst.
  exists authCode. repeat (split; [assumption|]). intros t Ht.
  erewrite in_memory_validate_stored
    by (rewrite Hst; cbn; apply lookup_insert_eq).
  cbn [td_expires_at].
  destruct (Z.gtb_spec t (now' + 3600000)); [lia | reflexivity].
Qed.

Lemma in_memory_issued_token_validates_witness :
  exists authCode,
    authorizationCodes (issued_store example_challenge "S256")
      !! str_of (tr_code (example_redeem (Some example_verifier)))
    = Some authCode
    /\ generateSecureToken example_access_bytes
       = generateSecureToken example_access_bytes
    /\ generateSecureToken example_refresh_bytes
       = generateSecureToken example_refresh_bytes
    /\ forall t : Z,
        (t <= example_t0 + 1000 + 3600000)%Z ->
        InMemory.validateAccessToken (fst in_memory_redeemed) t
          (generateSecureToken example_access_bytes)
        = (fst in_memory_redeemed,
           Some {| td_client_id := ac_client_id authCode;
                   td_access_token := generateSecureToken example_access_bytes;
                   td_refresh_token :=
                     Some (generateSecureToken example_refresh_bytes);
                   td_expires_at := example_t0 + 1000 + 3600000;
                   td_realm_id := ac_realm_id authCode;
                   td_qb_access_token := ac_qb_access_token authCode;
                   td_qb_refresh_token := ac_qb_refresh_token authCode |}).
Proof.
  apply (in_memory_issued_token_validates
           (issued_store example_challenge "S256") (fst in_memory_redeemed)
           None example_access_bytes example_refresh_bytes
           (example_t0 + 1000) (example_t0 + 1000)
           (example_redeem (Some example_verifier))
           (generateSecureToken example_access_bytes) "Bearer" 3600
           (generateSecureToken example_refresh_bytes)
           "quickbooks:accounting");
    [reflexivity | vm_compute; reflexivity].
Defined.

(** X16.  In-memory variant: a successful refresh stores the new access
    and refresh token with the realm of the old ones, and forgets the old
    ones.  When the new tokens differ from the old, the old access token is
    no longer stored, and a later refresh with the old refresh token is
    refused with the store unchanged. *)
Theorem in_memory_refresh_rotates (st st1 : store)
        (rf : option QBToken) (ab rb : Buffer) (now now' : Z)
        (req : TokenRequest) (a tt : string) (e : Z) (r sc : string) :
  tr_grant_type req = Some "refresh_token" ->
  InMemory.token st rf ab rb now now' req = (st1, TokenResponse a tt e r sc) ->
  exists r0 old,
    tr_refresh_token req = Some r0
    /\ refreshTokens st !! r0 = Some old
    /\ a = generateSecureToken ab /\ r = generateSecureToken rb
    /\ (exists new,
           accessTokens st1 !! a = Some new /\ refreshTokens st1 !! r = Some new
           /\ td_realm_id new = td_realm_id old
           /\ td_expires_at new = (now' + 3600000)%Z)
    /\ (a <> td_access_token old ->
        accessTokens st1 !! td_access_token old = None)
    /\ (r <> r0 ->
        refreshTokens st1 !! r0 = None
        /\ forall rf2 ab2 rb2 t t' req2,
            tr_grant_type req2 = Some "refresh_token" ->
            tr_refresh_token req2 = Some r0 ->
            exists status err d,
              InMemory.token st1 rf2 ab2 rb2 t t' req2
              = (st1, ErrorResponse status err d)).
Proof.
  intros Hg Htok.
  destruct (in_memory_refreshed_inv _ _ _ _ _ _ _ _ _ _ _ _ _ Hg Htok)
    as (old & Htr & Hl & Hcid & Ha & Hr & Hst).
  apply truthy_inv in Htr as (r0 & Hr0 & Hne).
  rewrite Hr0 in Hl, Hst. cbn [str_of] in Hl, Hst. cbv zeta in Hst.
  exists r0, old. repeat (split; [assumption|]). split; [|split].
  - eexists. rewrite Hst. cbn.
    rewrite !lookup_insert_eq. repeat split; reflexivity.
  - intros Hneq. rewrite Hst. cbn.
    rewrite lookup_insert_ne by exact Hneq. apply lookup_delete_eq.
  - intros Hneq.
    assert (Hgone : refreshTokens st1 !! r0 = None).
    { rewrite Hst. cbn. rewrite lookup_insert_ne by exact Hneq.
      apply lookup_delete_eq. }
    split; [exact Hgone|].
    intros rf2 ab2 rb2 t t' req2 Hg2 Ht2. unfold InMemory.token.
    destruct (client_credentials req2) as [cid2 cs2].
    destruct (validate_client st1 cid2 cs2) as [err|] eqn:Hv.
    { destruct (validate_client_error _ _ _ _ Hv) as [d ->]. eauto. }
    rewrite Hg2.
    replace (js_eq (Some "refresh_token") (Some "authorization_code"))
      with false by reflexivity.
    rewrite js_eq_refl, Ht2, truthy_Some by exact Hne.
    cbn [negb str_of]. rewrite Hgone. eauto.
Qed.

Lemma in_memory_refresh_rotates_witness :
  InMemory.token (fst in_memory_refreshed) (Some example_upstream)
    example_access_bytes example_refresh_bytes
    (example_t0 + 9000) (example_t0 + 9000)
    (example_refresh_of (generateSecureToken example_refresh_bytes))
  = (fst in_memory_refreshed,
     ErrorResponse 400 "invalid_grant" "Invalid refresh token").
Proof.
  destruct (in_memory_refresh_rotates (fst in_memory_redeemed)
              (fst in_memory_refreshed) (Some example_upstream)
              example_access_bytes' example_refresh_bytes'
              (example_t0 + 5000) (example_t0 + 5000)
              (example_refresh_of (generateSecureToken example_refresh_bytes))
              (generateSecureToken example_access_bytes') "Bearer" 3600
              (generateSecureToken example_refresh_bytes')
              "quickbooks:accounting" eq_refl)
    as (r0 & old & Hr0 & _ & _ & _ & _ & _ & Hreuse);
    [vm_compute; reflexivity|].
  injection Hr0 as <-.
  destruct Hreuse as [_ Hreuse]; [vm_compute; discriminate|].
  destruct (Hreuse (Some example_upstream) example_access_bytes
              example_refresh_bytes (example_t0 + 9000)%Z
              (example_t0 + 9000)%Z
              (example_refresh_of (generateSecureToken example_refresh_bytes))
              eq_refl eq_refl) as (status & err & d & Heq).
  rewrite Heq. vm_compute in Heq. injection Heq as <- <- <-. reflexivity.
Defined.

(** X17.  In-memory variant: the validation of a stored access token
    after its expiry returns nothing and deletes the token, leaving the
    refresh tokens as they are; from then on the token is unknown at every
    time. *)
Theorem in_memory_expired_token_forgotten (st : store) (now : Z)
        (tok : string) (td : TokenData) :
  accessTokens st !! tok = Some td ->
  (now > td_expires_at td)%Z ->
  let st1 := fst (InMemory.validateAccessToken st now tok) in
  snd (InMemory.validateAccessToken st now tok) = None
  /\ accessTokens st1 = delete tok (accessTokens st)
  /\ refreshTokens st1 = refreshTokens st
  /\ forall t : Z, InMemory.validateAccessToken st1 t tok = (st1, None).
Proof.
  intros Hl Hexp st1. subst st1.
  rewrite (in_memory_validate_stored st now tok td Hl).
  destruct (Z.gtb_spec now (td_expires_at td)); [|lia]. cbn [fst snd].
  repeat split. intros t. apply in_memory_validate_unknown.
  cbn. apply lookup_delete_eq.
Qed.

Lemma in_memory_expired_token_forgotten_witness :
  InMemory.validateAccessToken
    (fst (InMemory.validateAccessToken (fst in_memory_redeemed)
            (example_t0 + 3601001)
            (generateSecureToken example_access_bytes)))
    (example_t0 + 2000) (generateSecureToken example_access_bytes)
  = (fst (InMemory.validateAccessToken (fst in_memory_redeemed)
            (example_t0 + 3601001)
            (generateSecureToken example_access_bytes)),
     None).
Proof.
  refine (proj2 (proj2 (proj2
            (in_memory_expired_token_forgotten (fst in_memory_redeemed)
               (example_t0 + 3601001)
               (generateSecureToken example_access_bytes)
               {| td_client_id := example_client;
                  td_access_token := generateSecureToken example_access_bytes;
                  td_refresh_token :=
                    Some (generateSecureToken example_refresh_bytes);
                  td_expires_at := example_t0 + 1000 + 3600000;
                  td_realm_id := Some "4620816365";
                  td_qb_access_token := Some "qb-access";
                  td_qb_refresh_token := Some "qb-refresh" |} _ _)))
            (example_t0 + 2000)%Z);
    vm_compute; reflexivity.
Defined.

(** * The authentication middleware *)

Section MiddlewareFacts.
Variable key : Buffer.

Lemma prefix_append (p s : string) : String.prefix p (p ++ s) = true.
Proof.
  induction p as [|c p IH]; [destruct s; reflexivity|].
  rewrite append_cons. cbn [String.prefix].
  destruct (ascii_dec c c); [exact IH | congruence].
Qed.


Lemma drop_chars_append (p s : string) :
  drop_chars (String.length p) (p ++ s) = s.
Proof.
  induction p as [|c p IH]; [destruct s; reflexivity|].
  rewrite append_cons. exact IH.
Qed.

Lemma js_eq_false (a b : option string) : a <> b -> js_eq a b = false.
Proof. apply bool_decide_eq_false_2. Qed.

(** The middleware on a request that is not the handshake and carries a
    bearer token. *)
Lemma authMiddleware_bearer st t1 t2 method tok :
  method <> Some "initialize" ->
  authMiddleware key st t1 t2 method (Some ("Bearer " ++ tok)%string)
  = match validateAccessToken key st t1 tok with
    | (st1, None) =>
        (st1, Denied None (ErrorResponse 401 "invalid_token"
                             "Invalid or expired access token"))
    | (st1, Some _) =>
        match getQuickBooksCredentials key st1 t2 tok with
        | (st2, None) =>
            (st2, Denied None (ErrorResponse 401 "invalid_token"
                                 "Token does not have QuickBooks credentials"))
        | (st2, Some creds) => (st2, Next (Some creds))
        end
    end.
Proof.
  intros Hm. unfold authMiddleware.
  rewrite (js_eq_false _ _ Hm), prefix_append. cbn [negb str_of].
  pose proof (drop_chars_append "Bearer " tok) as Hd.
  change (String.length "Bearer ") with 7 in Hd. rewrite Hd.
  destruct (validateAccessToken key st t1 tok) as [st1 [td|]]; [|reflexivity].
  destruct (getQuickBooksCredentials key st1 t2 tok) as [st2 [c|]];
    reflexivity.
Qed.


End MiddlewareFacts.

(** X18.  The middleware on the access token issued by the
    authorization_code grant, sent as a bearer token on a request that is
    not the handshake, in any store: up to 3600 seconds after the token was
    stamped it lets the request through with the upstream credentials of
    the redeemed code, when the realm and the upstream access token are
    non-empty; it answers 401 when the token has expired at its first clock
    reading, and 401 for missing credentials when the token expires between
    its two clock readings or the code had no realm or upstream token. *)
Theorem middleware_accepts_issued_token (key : Buffer) (st st1 : store)
        (rf : option QBToken) (iva ivr : Buffer) (now now' : Z)
        (req : TokenRequest) (a tt : string) (e : Z) (r sc : string) :
  length iva = 16 ->
  tr_grant_type req = Some "authorization_code" ->
  token key st rf iva ivr now now' req = (st1, TokenResponse a tt e r sc) ->
  exists authCode,
    authorizationCodes st !! str_of (tr_code req) = Some authCode
    /\ forall (st2 : store) (t1 t2 : Z) (method : option string),
        method <> Some "initialize" ->
        authMiddleware key st2 t1 t2 method (Some ("Bearer " ++ a)%string)
        = (st2,
           if (t1 >? now' + 3600000)%Z then
             Denied None (ErrorResponse 401 "invalid_token"
                            "Invalid or expired access token")
           else if (t2 >? now' + 3600000)%Z
                   || negb (truthy (ac_realm_id authCode)
                            && truthy (ac_qb_access_token authCode))
           then
             Denied None (ErrorResponse 401 "invalid_token"
                            "Token does not have QuickBooks credentials")
           else
             Next (Some {| realmId := str_of (ac_realm_id authCode);
                           accessToken := str_of (ac_qb_access_token authCode);
                           refreshToken := ac_qb_refresh_token authCode |})).
Proof.
  intros Hiv Hg Htok.
  destruct (token_issued_inv key _ _ _ _ _ _ _ _ _ _ _ _ _ Hg Htok)
    as (authCode & _ & _ & Hl & Hc & _ & _ & Hi).
  apply check_code_None in Hc as (Hcid & _ & _).
  rewrite Hcid in Hi. change (str_of (Some ?x)) with x in Hi.
  apply issue_tokens_inv in Hi as (Ha & _).
  apply (encrypted_decrypts key _ _ _ Hiv) in Ha.
  exists authCode. split; [exact Hl|]. intros st2 t1 t2 method Hm.
  rewrite (authMiddleware_bearer key st2 t1 t2 method a Hm).
  rewrite (access_payload_validates key st2 t1 a _ _ _ _ _ Ha).
  destruct (t1 >? now' + 3600000)%Z; [reflexivity|].
  rewrite (access_payload_credentials key st2 t2 a _ _ _ _ _ Ha).
  destruct (t2 >? now' + 3600000)%Z; [reflexivity|]. cbn [orb].
  destruct (truthy (ac_realm_id authCode) && truthy (ac_qb_access_token authCode));
    reflexivity.
Qed.

Lemma middleware_accepts_issued_token_witness :
  authMiddleware example_key empty_store (example_t0 + 2000)
    (example_t0 + 2001) (Some "tools/call")
    (Some ("Bearer " ++ example_issued_access)%string)
  = (empty_store,
     Next (Some {| realmId := "4620816365";
                   accessToken := "qb-access";
                   refreshToken := Some "qb-refresh" |})).
Proof.
  destruct (middleware_accepts_issued_token example_key
              (issued_store example_challenge "S256")
              (fst example_redeemed) None example_iv example_iv'
              (example_t0 + 1000) (example_t0 + 1000)
              (example_redeem (Some example_verifier))
              example_issued_access "Bearer" 3600 example_issued_refresh
              "quickbooks:accounting" eq_refl eq_refl)
    as (authCode & Hl & Hmw); [vm_compute; reflexivity|].
  vm_compute in Hl. injection Hl as <-.
  rewrite (Hmw empty_store (example_t0 + 2000)%Z (example_t0 + 2001)%Z
             (Some "tools/call")) by discriminate.
  reflexivity.
Defined.



(** * The three variants of the token endpoint *)

Ltac refused :=
  split; [reflexivity|]; split; [reflexivity|];
  split; [intros ? [= <-]; split; reflexivity | intros ? [=]].

(** X20.  The three variants of the token endpoint decide an
    authorization_code request alike: the transparent-proxy variant leaves
    the store the stateless variant leaves, the in-memory variant leaves the
    same codes; a refusal is the same answer in all three; and where the
    proxy answers with the upstream tokens of the code, the other two issue
    their own tokens for the client of the code. *)
Theorem code_grant_variants_agree (key : Buffer) (st : store)
        (rf : option QBToken) (rfp : option Proxy.RefreshedToken)
        (iva ivr ab rb : Buffer) (now now' : Z) (req : TokenRequest) :
  tr_grant_type req = Some "authorization_code" ->
  fst (Proxy.token st rfp now req) = fst (token key st rf iva ivr now now' req)
  /\ authorizationCodes (fst (InMemory.token st rf ab rb now now' req))
     = authorizationCodes (fst (token key st rf iva ivr now now' req))
  /\ (forall err,
         snd (Proxy.token st rfp now req) = inl err ->
         snd (token key st rf iva ivr now now' req) = err
         /\ snd (InMemory.token st rf ab rb now now' req) = err)
  /\ (forall body,
         snd (Proxy.token st rfp now req) = inr body ->
         exists authCode,
           authorizationCodes st !! str_of (tr_code req) = Some authCode
           /\ body
              = {| Proxy.tb_access_token := ac_qb_access_token authCode;
                   Proxy.tb_token_type := "Bearer";
                   Proxy.tb_expires_in := 3600;
                   Proxy.tb_refresh_token := ac_qb_refresh_token authCode;
                   Proxy.tb_scope :=
                     if truthy (ac_scope authCode)
                     then str_of (ac_scope authCode)
                     else "com.intuit.quickbooks.accounting" |}
           /\ snd (token key st rf iva ivr now now' req)
              = issue_tokens key iva ivr (ac_client_id authCode)
                  (ac_realm_id authCode) (ac_qb_access_token authCode)
                  (ac_qb_refresh_token authCode) now'
                  (if truthy (ac_scope authCode)
                   then str_of (ac_scope authCode)
                   else "quickbooks:accounting")
           /\ snd (InMemory.token st rf ab rb now now' req)
              = TokenResponse (generateSecureToken ab) "Bearer" 3600
                  (generateSecureToken rb)
                  (if truthy (ac_scope authCode)
                   then str_of (ac_scope authCode)
                   else "quickbooks:accounting")).
Proof.
  intros Hg. unfold Proxy.token, token, InMemory.token.
  destruct (client_credentials req) as [cid cs]. rewrite Hg, js_eq_refl.
  destruct (validate_client st cid cs) as [err|]; [refused|].
  destruct (truthy (tr_code req)); cbn [negb]; [|refused].
  destruct (authorizationCodes st !! str_of (tr_code req)) as [authCode|]
    eqn:Hl; [|refused].
  destruct (check_code authCode cid req) as [err|] eqn:Hc; [refused|].
  apply check_code_None in Hc as (-> & _ & _).
  destruct (now >? ac_expires_at authCode)%Z; [refused|].
  cbn [fst snd str_of].
  split; [reflexivity|]. split; [reflexivity|].
  split; [intros ? [=]|].
  intros body [= <-]. exists authCode. repeat split; reflexivity.
Qed.

Lemma code_grant_variants_agree_witness :
  snd (token example_key (issued_store example_challenge "S256") None
         example_iv example_iv' (example_t0 + 1000) (example_t0 + 1000)
         (example_redeem (Some "wrong-verifier")))
  = ErrorResponse 400 "invalid_grant" "Invalid code_verifier"
  /\ snd (InMemory.token (issued_store example_challenge "S256") None
            example_access_bytes example_refresh_bytes
            (example_t0 + 1000) (example_t0 + 1000)
            (example_redeem (Some "wrong-verifier")))
     = ErrorResponse 400 "invalid_grant" "Invalid code_verifier".
Proof.
  refine (proj1 (proj2 (proj2
            (code_grant_variants_agree example_key
               (issued_store example_challenge "S256") None None
               example_iv example_iv' example_access_bytes
               example_refresh_bytes (example_t0 + 1000) (example_t0 + 1000)
               (example_redeem (Some "wrong-verifier")) eq_refl))) _ _).
  vm_compute. reflexivity.
Defined.

Lemma proxy_issued_inv st rfp now req st1 body :
  tr_grant_type req = Some "authorization_code" ->
  Proxy.token st rfp now req = (st1, inr body) ->
  exists authCode,
    authorizationCodes st !! str_of (tr_code req) = Some authCode
    /\ check_code authCode (client_credentials req).1 req = None
    /\ (now <= ac_expires_at authCode)%Z
    /\ st1 = set_authorizationCodes (delete (str_of (tr_code req))) st
    /\ body
       = {| Proxy.tb_access_token := ac_qb_access_token authCode;
            Proxy.tb_token_type := "Bearer";
            Proxy.tb_expires_in := 3600;
            Proxy.tb_refresh_token := ac_qb_refresh_token authCode;
            Proxy.tb_scope :=
              if truthy (ac_scope authCode)
              then str_of (ac_scope authCode)
              else "com.intuit.quickbooks.accounting" |}.
Proof.
  intros Hg. unfold Proxy.token.
  destruct (client_credentials req) as [cid cs]. rewrite Hg, js_eq_refl.
  destruct (validate_client st cid cs) as [err|]; [discriminate|].
  destruct (truthy (tr_code req)); cbn [negb]; [|discriminate].
  destruct (authorizationCodes st !! str_of (tr_code req)) as [authCode|];
    [|discriminate].
  destruct (check_code authCode cid req) as [err|] eqn:Hc; [discriminate|].
  destruct (Z.gtb_spec now (ac_expires_at authCode)); [discriminate|].
  intros [= <- <-]. exists authCode. repeat split; auto.
Qed.

(** X21.  Transparent-proxy variant: the tokens in a successful answer to
    an authorization_code request are the upstream tokens stored with the
    code, which is deleted; and the middleware of this variant hands the
    bearer token on as the upstream access token, with the configured
    realm. *)
Theorem proxy_hands_upstream_token_through (st st1 : store)
        (rfp : option Proxy.RefreshedToken) (now : Z) (req : TokenRequest)
        (body : Proxy.TokenBody) :
  tr_grant_type req = Some "authorization_code" ->
  Proxy.token st rfp now req = (st1, inr body) ->
  exists authCode,
    authorizationCodes st !! str_of (tr_code req) = Some authCode
    /\ Proxy.tb_access_token body = ac_qb_access_token authCode
    /\ Proxy.tb_refresh_token body = ac_qb_refresh_token authCode
    /\ authorizationCodes st1 !! str_of (tr_code req) = None
    /\ forall (tok realm : string) (env_issuer method : option string),
        Proxy.tb_access_token body = Some tok ->
        method <> Some "initialize" -> realm <> EmptyString ->
        Proxy.authMiddleware env_issuer (Some realm) method
          (Some ("Bearer " ++ tok)%string)
        = Next (Some {| realmId := realm;
                        accessToken := tok;
                        refreshToken := None |}).
Proof.
  intros Hg Htok.
  destruct (proxy_issued_inv _ _ _ _ _ _ Hg Htok)
    as (authCode & Hl & _ & _ & -> & ->).
  exists authCode. split; [exact Hl|]. cbn. split; [reflexivity|].
  split; [reflexivity|]. split; [apply lookup_delete_eq|].
  intros tok realm env_issuer method _ Hm Hr. unfold Proxy.authMiddleware.
  rewrite (js_eq_false _ _ Hm), prefix_append, truthy_Some by exact Hr.
  cbn [negb str_of].
  pose proof (drop_chars_append "Bearer " tok) as Hd.
  change (String.length "Bearer ") with 7 in Hd. rewrite Hd. reflexivity.
Qed.

Lemma proxy_hands_upstream_token_through_witness :
  Proxy.authMiddleware None (Some "4620816365") (Some "tools/call")
    (Some "Bearer qb-access")
  = Next (Some {| realmId := "4620816365";
                  accessToken := "qb-access";
                  refreshToken := None |}).
Proof.
  destruct (proxy_hands_upstream_token_through
              (issued_store example_challenge "S256")
              (fst (Proxy.token (issued_store example_challenge "S256") None
                      (example_t0 + 1000)
                      (example_redeem (Some example_verifier))))
              None (example_t0 + 1000)
              (example_redeem (Some example_verifier))
              {| Proxy.tb_access_token := Some "qb-access";
                 Proxy.tb_token_type := "Bearer";
                 Proxy.tb_expires_in := 3600;
                 Proxy.tb_refresh_token := Some "qb-refresh";
                 Proxy.tb_scope := "com.intuit.quickbooks.accounting" |}
              eq_refl)
    as (authCode & _ & _ & _ & _ & Hmw); [vm_compute; reflexivity|].
  apply (Hmw "qb-access" "4620816365" None (Some "tools/call"));
    [reflexivity | discriminate | discriminate].
Defined.

(** * Search criteria *)

Section SearchFacts.

Lemma falsy_number_spec (n : option Z) :
  Search.falsy_number n = true <-> n = None \/ n = Some 0%Z.
Proof.
  destruct n as [z|]; cbn; [|intuition].
  destruct (Z.eqb_spec z 0); split; intros H; try discriminate; subst; auto.
  destruct H as [H | [= H]]; [discriminate | contradiction].
Qed.

End SearchFacts.

(** X22.  [buildSearchCriteria] returns the empty object exactly when no
    criterion is given, limit and offset are absent or 0, asc and desc are
    absent or empty, and fetchAll and count are not true.  In every other
    case it returns a non-empty array (the final fallback is never
    taken): the criteria in their order, then settings only, among them a
    limit and an offset whenever they are given, 0 included. *)
Theorem buildSearchCriteria_outcome (V : Type)
        (input : Search.SearchOptions V) :
  let criteria := default [] (Search.so_criteria input) in
  (Search.buildSearchCriteria input = Search.EmptyObject
   <-> criteria = []
       /\ (Search.so_limit input = None \/ Search.so_limit input = Some 0%Z)
       /\ (Search.so_offset input = None \/ Search.so_offset input = Some 0%Z)
       /\ truthy (Search.so_asc input) = false
       /\ truthy (Search.so_desc input) = false
       /\ Search.so_fetchAll input <> Some true
       /\ Search.so_count input <> Some true)
  /\ (forall result,
         Search.buildSearchCriteria input = Search.Entries result ->
         result <> []
         /\ exists settings,
             result
             = map (fun c => Search.Criterion (Search.fc_field c)
                                (Search.fc_value c) (Search.fc_operator c))
                   criteria ++ settings
             /\ Forall (fun e => match e with
                                 | Search.Setting _ _ => True
                                 | Search.Criterion _ _ _ => False
                                 end) settings
             /\ (forall n, Search.so_limit input = Some n ->
                           In (Search.Setting "limit" (Search.Num n)) settings)
             /\ (forall n, Search.so_offset input = Some n ->
                           In (Search.Setting "offset" (Search.Num n))
                              settings)).
Proof.
  intros criteria. unfold Search.buildSearchCriteria. fold criteria.
  set (settings :=
         match Search.so_limit input with
         | Some limit => [Search.Setting "limit" (Search.Num limit)]
         | None => []
         end
         ++ match Search.so_offset input with
            | Some offset => [Search.Setting "offset" (Search.Num offset)]
            | None => []
            end
         ++ (if truthy (Search.so_asc input)
             then [Search.Setting "asc"
                     (Search.Str (str_of (Search.so_asc input)))]
             else [])
         ++ (if truthy (Search.so_desc input)
             then [Search.Setting "desc"
                     (Search.Str (str_of (Search.so_desc input)))]
             else [])
         ++ (if default false (Search.so_fetchAll input)
             then [@Search.Setting V "fetchAll" (Search.Bool true)] else [])
         ++ (if default false (Search.so_count input)
             then [@Search.Setting V "count" (Search.Bool true)] else [])).
  assert (Hnothing :
    (length criteria =? 0)%nat
    && Search.falsy_number (Search.so_limit input)
    && Search.falsy_number (Search.so_offset input)
    && negb (truthy (Search.so_asc input))
    && negb (truthy (Search.so_desc input))
    && negb (default false (Search.so_fetchAll input))
    && negb (default false (Search.so_count input)) = true
    <-> criteria = []
        /\ (Search.so_limit input = None \/ Search.so_limit input = Some 0%Z)
        /\ (Search.so_offset input = None
            \/ Search.so_offset input = Some 0%Z)
        /\ truthy (Search.so_asc input) = false
        /\ truthy (Search.so_desc input) = false
        /\ Search.so_fetchAll input <> Some true
        /\ Search.so_count input <> Some true).
  { rewrite !andb_true_iff, !negb_true_iff, !falsy_number_spec,
      Nat.eqb_eq, length_zero_iff_nil.
    assert (Hb : forall o : option bool,
               default false o = false <-> o <> Some true).
    { intros [[]|]; cbn; split; congruence. }
    rewrite !Hb. tauto. }
  assert (Hne : forall l : list (Search.entry V),
             (0 <? length l)%nat = true <-> l <> []).
  { intros [|x l]; cbn; split; congruence. }
  assert (Hsettings :
    Forall (fun e : Search.entry V =>
              match e with
              | Search.Setting _ _ => True
              | Search.Criterion _ _ _ => False
              end) settings).
  { subst settings. repeat apply Forall_app_2;
      repeat case_match; repeat constructor. }
  assert (Hlimit : forall n, Search.so_limit input = Some n ->
                             In (Search.Setting "limit" (Search.Num n))
                                settings).
  { intros n Hn. subst settings. rewrite Hn. left. reflexivity. }
  assert (Hoffset : forall n, Search.so_offset input = Some n ->
                              In (Search.Setting "offset" (Search.Num n))
                                 settings).
  { intros n Hn. subst settings. rewrite Hn. apply in_or_app. right.
    left. reflexivity. }
  destruct (_ && _).
  - split; [|discriminate].
    split; [intros _; apply Hnothing; reflexivity | reflexivity].
  - split.
    + split; [|intros H; apply Hnothing in H; discriminate].
      destruct (0 <? _)%nat eqn:Hlen; [discriminate|]. intros _.
      assert (Hnil : map (fun c => Search.Criterion (Search.fc_field c)
                                     (Search.fc_value c) (Search.fc_operator c))
                         criteria ++ settings = []).
      { destruct (map _ criteria ++ settings); [reflexivity | discriminate]. }
      apply app_eq_nil in Hnil as [Hc Hs]. apply map_eq_nil in Hc.
      subst settings.
      destruct (Search.so_limit input); [discriminate|].
      destruct (Search.so_offset input); [discriminate|].
      destruct (truthy (Search.so_asc input)); [discriminate|].
      destruct (truthy (Search.so_desc input)); [discriminate|].
      destruct (Search.so_fetchAll input) as [[]|]; try discriminate;
        destruct (Search.so_count input) as [[]|]; try discriminate;
        repeat split; auto; congruence.
    + intros result.
      destruct (0 <? _)%nat eqn:Hlen; [|discriminate].
      intros [= <-]. split; [apply Hne, Hlen|].
      exists settings. auto.
Qed.

(** * Generated tokens *)

Section HexFacts.

Lemma unhex_byte (b : ascii) (rest : list ascii) :
  unhex (list_ascii_of_string (hex_of [b]) ++ rest) = b :: unhex rest.
Proof.
  destruct b as [[] [] [] [] [] [] [] []]; reflexivity.
Qed.

Lemma hex_of_cons (b : ascii) (bs : Buffer) :
  list_ascii_of_string (hex_of (b :: bs))
  = list_ascii_of_string (hex_of [b]) ++ list_ascii_of_string (hex_of bs).
Proof.
  unfold hex_of. rewrite !list_ascii_of_string_of_list_ascii.
  cbn [flat_map]. rewrite app_nil_r. reflexivity.
Qed.

Lemma unhex_hex_of (bs : Buffer) :
  unhex (list_ascii_of_string (hex_of bs)) = bs.
Proof.
  induction bs as [|b bs IH]; [reflexivity|].
  rewrite hex_of_cons, unhex_byte, IH. reflexivity.
Qed.

End HexFacts.

(** X23.  A generated token spells the bytes drawn, two hex digits to
    a byte: the bytes can be read back from it, so two tokens are equal only
    if the bytes drawn are. *)
Theorem generateSecureToken_injective (bytes : Buffer) :
  unhex (list_ascii_of_string (generateSecureToken bytes)) = bytes
  /\ String.length (generateSecureToken bytes) = 2 * length bytes
  /\ forall bytes' : Buffer,
      generateSecureToken bytes = generateSecureToken bytes' ->
      bytes = bytes'.
Proof.
  split; [apply unhex_hex_of|]. split; [apply length_generateSecureToken|].
  intros bytes' Heq. unfold generateSecureToken in Heq.
  rewrite <- (unhex_hex_of bytes), <- (unhex_hex_of bytes'), Heq.
  reflexivity.
Qed.

(** * The configured key *)

Section KeyFacts.
Variable key : Buffer.
Hypothesis Hkey : length key <> 32.

Lemma encrypt_wrong_key (iv : Buffer) (P : StatelessTokenPayload) :
  encryptTokenPayload key iv P = None.
Proof.
  unfold encryptTokenPayload, GCM.encrypt.
  destruct (Nat.eqb_spec (length key) 32); [contradiction | reflexivity].
Qed.

Lemma decrypt_wrong_key (tok : string) : decryptTokenPayload key tok = None.
Proof.
  unfold decryptTokenPayload, GCM.decrypt.
  destruct (length (Base64url.decode tok) <? 32)%nat; [reflexivity|].
  destruct (Nat.eqb_spec (length key) 32); [contradiction | reflexivity].
Qed.

End KeyFacts.

(** X24.  When the environment variable TOKEN_ENCRYPTION_KEY is set to base64
    text of other than 32 bytes, no token can be made or read: encryption
    throws and decryption returns null for every token.  An
    authorization_code request that passes every check then has its code
    deleted and gets no answer from the handler, which throws while making
    the tokens; and every refresh_token request with a token is refused as
    invalid. *)
Theorem misconfigured_key_burns_codes (env : option string)
        (random_bytes : Buffer) :
  truthy env = true ->
  length (Base64url.decode (str_of env)) <> 32 ->
  let key := TOKEN_ENCRYPTION_KEY env random_bytes in
  (forall iv P, encryptTokenPayload key iv P = None)
  /\ (forall tok, decryptTokenPayload key tok = None)
  /\ (forall st rf iva ivr now now' req authCode,
         reaches_pkce st req authCode ->
         check_pkce authCode (tr_code_verifier req) = None ->
         (now <= ac_expires_at authCode)%Z ->
         token key st rf iva ivr now now' req
         = (set_authorizationCodes (delete (str_of (tr_code req))) st, Throws))
  /\ (forall st rf iva ivr now now' req,
         tr_grant_type req = Some "refresh_token" ->
         truthy (tr_refresh_token req) = true ->
         token key st rf iva ivr now now' req
         = (st, ErrorResponse 400 "invalid_grant" "Invalid refresh token")).
Proof.
  intros Henv Hlen key.
  assert (Hkey : length key <> 32).
  { subst key. unfold TOKEN_ENCRYPTION_KEY. rewrite Henv. exact Hlen. }
  split; [apply encrypt_wrong_key, Hkey|].
  split; [apply decrypt_wrong_key, Hkey|]. split.
  - intros st rf iva ivr now now' req authCode Hreach Hpk Hexp.
    rewrite (token_reaches_pkce key st req authCode rf iva ivr now now' Hreach),
      Hpk.
    unfold redeem, issue_tokens.
    destruct (Z.gtb_spec now (ac_expires_at authCode)); [lia|].
    rewrite encrypt_wrong_key by exact Hkey. reflexivity.
  - intros st rf iva ivr now now' req Hg Ht. unfold token.
    destruct (client_credentials req) as [cid cs]. rewrite Hg.
    replace (js_eq (Some "refresh_token") (Some "authorization_code"))
      with false by reflexivity.
    rewrite js_eq_refl, Ht. cbn [negb].
    rewrite decrypt_wrong_key by exact Hkey. reflexivity.
Qed.

Lemma misconfigured_key_burns_codes_witness :
  token (TOKEN_ENCRYPTION_KEY (Some "c2hvcnQta2V5") [])
        (issued_store example_challenge "S256") None example_iv example_iv'
        (example_t0 + 1000) (example_t0 + 1000)
        (example_redeem (Some example_verifier))
  = (set_authorizationCodes
       (delete (str_of (tr_code (example_redeem (Some example_verifier)))))
       (issued_store example_challenge "S256"),
     Throws).
Proof.
  refine (proj1 (proj2 (proj2
            (misconfigured_key_burns_codes (Some "c2hvcnQta2V5") [] _ _)))
            (issued_store example_challenge "S256") None example_iv
            example_iv' (example_t0 + 1000)%Z (example_t0 + 1000)%Z
            (example_redeem (Some example_verifier))
            (example_authCode example_challenge "S256") _ _ _);
    [reflexivity | vm_compute; discriminate
     | apply example_reaches_pkce | vm_compute; reflexivity
     | vm_compute; discriminate].
Defined.

(** X25.  In-memory variant: the refresh token issued by the
    authorization_code grant is accepted by the refresh_token grant in the
    store the grant leaves, at any later time whatever (this variant has no
    expiry for refresh tokens), from a request with the same client
    credentials: the answer carries the two new tokens drawn. *)
Theorem in_memory_issued_refresh_token_refreshes (st st1 : store)
        (rf : option QBToken) (ab rb : Buffer) (now now' : Z)
        (req : TokenRequest) (a tt : string) (e : Z) (r sc : string) :
  rb <> [] ->
  tr_grant_type req = Some "authorization_code" ->
  InMemory.token st rf ab rb now now' req = (st1, TokenResponse a tt e r sc) ->
  forall (rf2 : option QBToken) (ab2 rb2 : Buffer) (t t' : Z)
         (req2 : TokenRequest),
    tr_grant_type req2 = Some "refresh_token" ->
    tr_refresh_token req2 = Some r ->
    client_credentials req2 = client_credentials req ->
    snd (InMemory.token st1 rf2 ab2 rb2 t t' req2)
    = TokenResponse (generateSecureToken ab2) "Bearer" 3600
                    (generateSecureToken rb2) "quickbooks:accounting".
Proof.
  intros Hrb Hg Htok rf2 ab2 rb2 t t' req2 Hg2 Hr2 Hcred.
  destruct (in_memory_issued_inv _ _ _ _ _ _ _ _ _ _ _ _ _ Hg Htok)
    as (authCode & _ & _ & _ & Hr & Hst).
  assert (Hv : validate_client st (client_credentials req).1
                 (client_credentials req).2 = None).
  { revert Htok. unfold InMemory.token.
    destruct (client_credentials req) as [cid cs]. cbn [fst snd].
    destruct (validate_client st cid cs) as [err|] eqn:Hv; [|reflexivity].
    destruct (validate_client_error _ _ _ _ Hv) as [d ->]. discriminate. }
  cbv zeta in Hst. unfold InMemory.token. rewrite Hcred.
  destruct (client_credentials req) as [cid cs]. cbn [fst snd] in *.
  rewrite (validate_client_registry st st1 cid cs) by (rewrite Hst; reflexivity).
  rewrite Hv, Hg2.
  replace (js_eq (Some "refresh_token") (Some "authorization_code"))
    with false by reflexivity.
  rewrite js_eq_refl, Hr2, truthy_Some
    by (rewrite Hr; apply generateSecureToken_nonempty, Hrb).
  cbn [negb str_of].
  replace (refreshTokens st1 !! r)
    with (Some {| td_client_id := str_of cid;
                  td_access_token := a;
                  td_refresh_token := Some r;
                  td_expires_at := (now' + 3600000)%Z;
                  td_realm_id := ac_realm_id authCode;
                  td_qb_access_token := ac_qb_access_token authCode;
                  td_qb_refresh_token := ac_qb_refresh_token authCode |})
    by (rewrite Hst; cbn; symmetry; apply lookup_insert_eq).
  cbn [td_client_id]. rewrite String.eqb_refl. cbn [negb].
  destruct (truthy _); [destruct rf2|]; reflexivity.
Qed.

Lemma in_memory_issued_refresh_token_refreshes_witness :
  snd in_memory_refreshed
  = TokenResponse (generateSecureToken example_access_bytes') "Bearer" 3600
                  (generateSecureToken example_refresh_bytes')
                  "quickbooks:accounting".
Proof.
  refine (in_memory_issued_refresh_token_refreshes
            (issued_store example_challenge "S256") (fst in_memory_redeemed)
            None example_access_bytes example_refresh_bytes
            (example_t0 + 1000) (example_t0 + 1000)
            (example_redeem (Some example_verifier))
            (generateSecureToken example_access_bytes) "Bearer" 3600
            (generateSecureToken example_refresh_bytes)
            "quickbooks:accounting" _ eq_refl _
            (Some example_upstream) example_access_bytes'
            example_refresh_bytes' (example_t0 + 5000)%Z (example_t0 + 5000)%Z
            (example_refresh_of (generateSecureToken example_refresh_bytes))
            eq_refl eq_refl eq_refl);
    [vm_compute; discriminate | vm_compute; reflexivity].
Defined.
